(** * Climate Risk Analysis Dashboard: the ETL pipeline [etl/ingest_and_process.py]

    A shallow embedding of the column normaliser ([normalize_cols],
    [pick_col]), the synthetic year expansion and the standardisation of
    [main], and the feature engine [compute_features], with the properties
    the specification states about them.

    Numbers.  The program computes on binary64 floats and on int64 columns.
    The embedding is written once, over an interface [Num] of the float
    operations the program uses, and has two instances:
    - [Binary64.float_Num]: Rocq's primitive binary64 floats, the arithmetic
      the program runs on (rounding, infinities and NaN included);
    - [Exact.xq_Num]: rationals extended with the IEEE special values, in
      which finite arithmetic is exact.
    A theorem that holds whatever the arithmetic is stated for every
    instance; a theorem that needs facts about the arithmetic names them as
    a class of laws.

    Strings are byte strings (UTF-8).  A pandas Series is the list of its
    values in row order; index alignment is position. *)

From Stdlib Require Import List String Ascii Bool Arith ZArith QArith Lia Lqa.
From Stdlib Require Import Floats.
From Stdlib Require Import Sorting.Sorted Sorting.Mergesort Sorting.Permutation Orders.
Import ListNotations.

(* ================================================================== *)
(** * Floating-point interface *)

Declare Scope num_scope.
Delimit Scope num_scope with num.

(** The float operations of the program: decimal literals, conversion of
    an integer, the four operations, square root, the comparisons [==],
    [<], [<=] and the NaN test ([isna]). *)
Class Num (F : Type) : Type := {
  lit : Q -> F;
  of_Z : Z -> F;
  nan : F;
  fadd : F -> F -> F;
  fsub : F -> F -> F;
  fmul : F -> F -> F;
  fdiv : F -> F -> F;
  fsqrt : F -> F;
  feqb : F -> F -> bool;
  fltb : F -> F -> bool;
  fleb : F -> F -> bool;
  is_nan : F -> bool
}.

Notation "x + y" := (fadd x y) : num_scope.
Notation "x - y" := (fsub x y) : num_scope.
Notation "x * y" := (fmul x y) : num_scope.
Notation "x / y" := (fdiv x y) : num_scope.

(** Python's [x != y] on floats. *)
Definition fneb {F} `{Num F} (x y : F) : bool := negb (feqb x y).

(** The closed facts about the constants of the program that the proofs
    use.  Both instances satisfy them by computation. *)
Class NumFacts (F : Type) `{Num F} : Prop := {
  nan_is_nan : is_nan nan = true;
  zero_not_nan : is_nan (lit 0) = false;
  one_neq_zero : feqb (lit 1) (lit 0) = false;
  zero_div_one : (lit 0 / lit 1)%num = lit 0
}.

(** The facts about the order and about the division of integers that
    the properties of the percentile rank rest on.  They are the facts of
    exact arithmetic, and [Exact.xq] satisfies them; rounding to nearest
    preserves them as long as the integers converted are exact (below
    2^53 in binary64), which is not proved here. *)
Class OrderLaws (F : Type) `{Num F} : Prop := {
  eq_refl_not_nan : forall x, is_nan x = false -> feqb x x = true;
  le_lt_or_eq : forall x y, fleb x y = true -> fltb x y = true \/ feqb x y = true;
  lt_not_eq : forall x y, fltb x y = true -> feqb x y = false;
  lt_eq_compat : forall w x y, feqb x y = true -> fltb w x = fltb w y;
  eq_eq_compat : forall w x y, feqb x y = true -> feqb w x = feqb w y;
  lt_trans : forall w x y, fltb w x = true -> fltb x y = true -> fltb w y = true;
  eq_lt_trans : forall w x y, feqb w x = true -> fltb x y = true -> fltb w y = true;
  le_trans : forall x y z, fleb x y = true -> fleb y z = true -> fleb x z = true;
  le_refl_right : forall x y, fleb x y = true -> fleb y y = true;
  quotient_le_int : forall s e m,
    (0 < e)%Z -> (s <= m * e)%Z -> fleb (of_Z s / of_Z e)%num (of_Z m) = true;
  int_le_quotient : forall s e m,
    (0 < e)%Z -> (m * e <= s)%Z -> fleb (of_Z m) (of_Z s / of_Z e)%num = true;
  div_mono : forall x y n,
    (0 < n)%Z -> fleb x y = true -> fleb (x / of_Z n)%num (y / of_Z n)%num = true;
  div_self : forall n, (0 < n)%Z -> (of_Z n / of_Z n)%num = lit 1;
  zero_div : forall n, (0 < n)%Z -> (of_Z 0 / of_Z n)%num = lit 0
}.

(* ------------------------------------------------------------------ *)
(** ** Binary64 *)

Module Binary64.

(** int64 to double, by binary expansion: exact below 2^53. *)
Fixpoint of_pos (p : positive) : float :=
  match p with
  | xH => PrimFloat.one
  | xO q => PrimFloat.mul PrimFloat.two (of_pos q)
  | xI q => PrimFloat.add (PrimFloat.mul PrimFloat.two (of_pos q)) PrimFloat.one
  end.

Definition float_of_Z (z : Z) : float :=
  match z with
  | Z0 => PrimFloat.zero
  | Zpos p => of_pos p
  | Zneg p => PrimFloat.opp (of_pos p)
  end.

(** A decimal literal denotes the double nearest to it: the correctly
    rounded quotient of its numerator and denominator. *)
Definition float_lit (q : Q) : float :=
  PrimFloat.div (float_of_Z (Qnum q)) (float_of_Z (Zpos (Qden q))).

#[global] Instance float_Num : Num float := {|
  lit := float_lit;
  of_Z := float_of_Z;
  nan := PrimFloat.nan;
  fadd := PrimFloat.add;
  fsub := PrimFloat.sub;
  fmul := PrimFloat.mul;
  fdiv := PrimFloat.div;
  fsqrt := PrimFloat.sqrt;
  feqb := PrimFloat.eqb;
  fltb := PrimFloat.ltb;
  fleb := PrimFloat.leb;
  is_nan := PrimFloat.is_nan
|}.

End Binary64.

(* ------------------------------------------------------------------ *)
(** ** Exact arithmetic with the IEEE special values *)

Module Exact.

(** A rational in lowest terms, an infinity or NaN.  The operations
    follow IEEE 754 on the special values and are exact on the finite
    ones (no rounding, no overflow, one zero); the square root alone is
    rounded, downwards to a multiple of 1/(d * 2^64) for a radicand of
    denominator [d]. *)
Inductive xq : Type :=
| Fin (q : Q)
| PInf
| NInf
| NaN.

Definition fin (q : Q) : xq := Fin (Qred q).

Definition xneg (x : xq) : xq :=
  match x with
  | Fin q => fin (- q)
  | PInf => NInf
  | NInf => PInf
  | NaN => NaN
  end.

Definition xadd (x y : xq) : xq :=
  match x, y with
  | NaN, _ | _, NaN => NaN
  | Fin a, Fin b => fin (a + b)
  | PInf, NInf | NInf, PInf => NaN
  | PInf, _ | _, PInf => PInf
  | NInf, _ | _, NInf => NInf
  end.

Definition xsub (x y : xq) : xq := xadd x (xneg y).

(** The infinity of the sign of [c * s], for [s] the sign of an
    infinity ([true] for positive); NaN when [c] is zero. *)
Definition signed_inf (positive : bool) (c : comparison) : xq :=
  match c with
  | Eq => NaN
  | Gt => if positive then PInf else NInf
  | Lt => if positive then NInf else PInf
  end.

Definition xmul (x y : xq) : xq :=
  match x, y with
  | NaN, _ | _, NaN => NaN
  | Fin a, Fin b => fin (a * b)
  | PInf, Fin b => signed_inf true (b ?= 0)
  | NInf, Fin b => signed_inf false (b ?= 0)
  | Fin a, PInf => signed_inf true (a ?= 0)
  | Fin a, NInf => signed_inf false (a ?= 0)
  | PInf, PInf | NInf, NInf => PInf
  | PInf, NInf | NInf, PInf => NInf
  end.

Definition xdiv (x y : xq) : xq :=
  match x, y with
  | NaN, _ | _, NaN => NaN
  | Fin a, Fin b =>
      if Qeq_bool b 0 then signed_inf true (a ?= 0) else fin (a / b)
  | Fin _, _ => fin 0
  | PInf, Fin b => if Qle_bool 0 b then PInf else NInf
  | NInf, Fin b => if Qle_bool 0 b then NInf else PInf
  | _, _ => NaN
  end.

Definition qsqrt (q : Q) : Q :=
  let d := Zpos (Qden q) in
  Qred (Qmake (Z.sqrt (Qnum q * d * 2 ^ 128)) (Qden q * 2 ^ 64)).

Definition xsqrt (x : xq) : xq :=
  match x with
  | Fin q => if Qle_bool 0 q then Fin (qsqrt q) else NaN
  | PInf => PInf
  | _ => NaN
  end.

Definition xeqb (x y : xq) : bool :=
  match x, y with
  | Fin a, Fin b => Qeq_bool a b
  | PInf, PInf | NInf, NInf => true
  | _, _ => false
  end.

Definition xleb (x y : xq) : bool :=
  match x, y with
  | NaN, _ | _, NaN => false
  | NInf, _ | _, PInf => true
  | Fin a, Fin b => Qle_bool a b
  | _, _ => false
  end.

Definition xltb (x y : xq) : bool := xleb x y && negb (xeqb x y).

Definition xis_nan (x : xq) : bool :=
  match x with
  | NaN => true
  | _ => false
  end.

#[global] Instance xq_Num : Num xq := {|
  lit := fin;
  of_Z := fun z => Fin (inject_Z z);
  nan := NaN;
  fadd := xadd;
  fsub := xsub;
  fmul := xmul;
  fdiv := xdiv;
  fsqrt := xsqrt;
  feqb := xeqb;
  fltb := xltb;
  fleb := xleb;
  is_nan := xis_nan
|}.

End Exact.

(* ================================================================== *)
(** * Column normaliser *)

Section Normalizer.

Open Scope char_scope.
Open Scope string_scope.

(** [str.lower()] on a byte: A-Z to a-z.  (On the UTF-8 encoding this
    agrees with Python on every code point except U+0130 and U+212A, whose
    lower case contains an ASCII letter.) *)
Definition lower_ascii (c : ascii) : ascii :=
  let n := nat_of_ascii c in
  if (65 <=? n)%nat && (n <=? 90)%nat then ascii_of_nat (n + 32) else c.

Fixpoint lower (s : string) : string :=
  match s with
  | EmptyString => EmptyString
  | String c r => String (lower_ascii c) (lower r)
  end.

(** The character class [[a-z0-9]]. *)
Definition is_alnum (c : ascii) : bool :=
  let n := nat_of_ascii c in
  ((97 <=? n)%nat && (n <=? 122)%nat) || ((48 <=? n)%nat && (n <=? 57)%nat).

(** [re.sub(r'[^a-z0-9]+', '_', x)]: scanning left to right, every maximal
    run of characters outside the class is replaced by one underscore.
    [in_run] tells that the previous character was part of a run. *)
Fixpoint sub_runs (in_run : bool) (s : string) : string :=
  match s with
  | EmptyString => EmptyString
  | String c r =>
      if is_alnum c then String c (sub_runs false r)
      else if in_run then sub_runs true r
      else String "_" (sub_runs true r)
  end.

(** [x.lstrip('_')] *)
Fixpoint lstrip_us (s : string) : string :=
  match s with
  | String "_" r => lstrip_us r
  | _ => s
  end.

(** [x.rstrip('_')] *)
Fixpoint rstrip_us (s : string) : string :=
  match s with
  | EmptyString => EmptyString
  | String c r =>
      match rstrip_us r with
      | EmptyString => if Ascii.eqb c "_" then EmptyString else String c EmptyString
      | r' => String c r'
      end
  end.

(** [x.strip('_')] *)
Definition strip_us (s : string) : string := rstrip_us (lstrip_us s).

Definition normalize_col (c : string) : string :=
  let x := lower c in
  let x := sub_runs false x in
  strip_us x.

Definition normalize_cols (cols : list string) : list string :=
  map normalize_col cols.

(** [opt in cols] *)
Definition mem (x : string) (cols : list string) : bool :=
  existsb (String.eqb x) cols.

(** [pick_col(cols, options)]: the first option that is a column. *)
Fixpoint pick_col (cols : list string) (options : list string) : option string :=
  match options with
  | [] => None
  | opt :: rest => if mem opt cols then Some opt else pick_col cols rest
  end.

End Normalizer.

(** The maximal runs of [[a-z0-9]] characters of a string, in order:
    its words. *)
Definition starts_alnum (s : string) : bool :=
  match s with
  | String c _ => is_alnum c
  | EmptyString => false
  end.

Fixpoint words (s : string) : list string :=
  match s with
  | EmptyString => []
  | String c r =>
      if is_alnum c then
        if starts_alnum r then
          match words r with
          | w :: ws => String c w :: ws
          | [] => [String c EmptyString]
          end
        else String c EmptyString :: words r
      else words r
  end.

(** The normal form the specification describes: the header in lower
    case, every maximal run of other characters between two words
    collapsed to one underscore, none left at either end. *)
Definition normalize_spec (c : string) : string :=
  String.concat "_" (words (lower c)).

(** [sorted(cols)] for a set of names: the distinct names in ascending
    order (on UTF-8 bytes this is Python's code-point order). *)
Module StringOrder <: TotalLeBool.
Definition t := string.
Definition leb := String.leb.
Lemma leb_total (x y : string) : leb x y = true \/ leb y x = true.
Proof. apply String.leb_total. Qed.
End StringOrder.

Module StringSort := Sort StringOrder.

Definition sorted (cols : list string) : list string :=
  StringSort.sort (nodup string_dec cols).

(* ================================================================== *)
(** * Errors *)

(** The exceptions [main] can raise once the CSV has been read.
    [ValueError] is the one raised at line 96 for a missing country
    column (the specification's SchemaError); it carries the sorted
    list of available columns that the message prints. *)
Inductive error : Type :=
| ValueError (available : list string)
| KeyError (name : string)
| TypeError.

Inductive result (A : Type) : Type :=
| Ok (a : A)
| Err (e : error).

Arguments Ok {A} a.
Arguments Err {A} e.

Definition bind {A B} (r : result A) (k : A -> result B) : result B :=
  match r with
  | Ok a => k a
  | Err e => Err e
  end.

Notation "x <- r ;; k" := (bind r (fun x => k))
  (at level 61, r at next level, right associativity).
Notation "' p <- r ;; k" := (bind r (fun x => let p := x in k))
  (at level 61, p pattern, r at next level, right associativity).

(* ================================================================== *)
(** * Data frames *)

Section Frames.

Context {F : Type} `{Num F}.

(** A cell of a frame read by [pd.read_csv]: an int64, a float64 (a
    missing value is the float NaN) or a string.  A column has a numeric
    dtype when it holds no string.  (Boolean columns are not modelled.) *)
Inductive cell : Type :=
| CInt (z : Z)
| CNum (x : F)
| CStr (s : string).

Definition column : Type := list cell.

(** A frame: the length of its index and its named columns, in order.
    Every column has [nrows] cells.  A name that occurs twice denotes
    its first column. *)
Record frame : Type := {
  nrows : nat;
  columns : list (string * column)
}.

Definition headers (df : frame) : list string := map fst (columns df).

(** [df[name]] *)
Fixpoint lookup (name : string) (cs : list (string * column)) : option column :=
  match cs with
  | [] => None
  | (n, c) :: rest => if String.eqb name n then Some c else lookup name rest
  end.

Definition get_col (df : frame) (name : string) : result column :=
  match lookup name (columns df) with
  | Some c => Ok c
  | None => Err (KeyError name)
  end.

(** [df[name] = col]: replaces the column when it exists, appends it
    otherwise. *)
Fixpoint assign (name : string) (col : column) (cs : list (string * column))
  : list (string * column) :=
  match cs with
  | [] => [(name, col)]
  | (n, c) :: rest =>
      if String.eqb name n then (n, col) :: rest
      else (n, c) :: assign name col rest
  end.

Definition set_col (df : frame) (name : string) (col : column) : frame :=
  {| nrows := nrows df; columns := assign name col (columns df) |}.

(** [df[name] = v] for a scalar [v]. *)
Definition set_scalar (df : frame) (name : string) (v : cell) : frame :=
  set_col df name (repeat v (nrows df)).

(** [df.columns = normalize_cols(df.columns)] *)
Definition rename_cols (df : frame) : frame :=
  {| nrows := nrows df;
     columns := combine (normalize_cols (headers df)) (map snd (columns df)) |}.

(** [isna] of a cell. *)
Definition isna (c : cell) : bool :=
  match c with
  | CNum x => is_nan x
  | _ => false
  end.

Definition is_number (c : cell) : bool :=
  match c with
  | CStr _ => false
  | _ => true
  end.

(** The float a numeric cell stands for in float arithmetic (an int64
    is converted). *)
Definition to_float (c : cell) : F :=
  match c with
  | CInt z => of_Z z
  | CNum x => x
  | CStr _ => nan
  end.

(** [series * array] for a float array: elementwise; a string times a
    float raises TypeError. *)
Fixpoint mul_col (col : column) (factors : list F) : result column :=
  match col, factors with
  | c :: col', s :: factors' =>
      match c with
      | CStr _ => Err TypeError
      | _ => rest <- mul_col col' factors' ;; Ok (CNum (to_float c * s)%num :: rest)
      end
  | _, _ => Ok []
  end.

(** [pd.concat(frames, ignore_index=True)] for frames that have the
    columns of the first one, which is the case in [main]; a column
    missing from a frame is filled with NaN. *)
Definition col_or_nan (name : string) (df : frame) : column :=
  match lookup name (columns df) with
  | Some c => c
  | None => repeat (CNum nan) (nrows df)
  end.

Definition concat (frames : list frame) : frame :=
  {| nrows := list_sum (map nrows frames);
     columns :=
       match frames with
       | [] => []
       | f :: _ =>
           map (fun name => (name, flat_map (col_or_nan name) frames)) (headers f)
       end |}.

(* ------------------------------------------------------------------ *)
(** ** The random generator *)

(** The state of [np.random]: the unit samples (in [0, 1)) still to
    come. *)
Definition rng : Type := nat -> F.

(** [np.random.uniform(low, high, size)]: [size] samples
    [low + (high - low) * u], and the state after them. *)
Definition uniform (low high : F) (size : nat) (g : rng) : list F * rng :=
  (map (fun i => (low + (high - low) * g i)%num) (seq 0 size),
   fun i => g (size + i)%nat).

(** [1 + array] *)
Definition one_plus (xs : list F) : list F := map (fun u => (lit 1 + u)%num) xs.

(* ------------------------------------------------------------------ *)
(** ** Synthetic year expansion (lines 106-123) *)

Open Scope string_scope.

(** [list(range(2000, 2025))] *)
Definition years : list Z := map (fun k => (2000 + Z.of_nat k)%Z) (seq 0 25).

(** The body of the loop, for the year [y]: the frame of that year and
    the generator after its draws. *)
Definition simulate_year (df : frame) (cri_col losses_col gdp_pc_col : option string)
  (y : Z) (g : rng) : result (frame * rng) :=
  let temp := set_scalar df "year" (CInt y) in
  let '(u, g) := uniform (lit (-0.3)) (lit 0.3) (nrows temp) g in
  let scale_factor := one_plus u in
  '(temp, g) <-
    match cri_col with
    | Some c =>
        s <- get_col temp c ;;
        v <- mul_col s scale_factor ;;
        Ok (set_col temp "cri_score" v, g)
    | None => Ok (temp, g)
    end ;;
  '(temp, g) <-
    match losses_col with
    | Some c =>
        s <- get_col temp c ;;
        let '(u, g) := uniform (lit (-0.25)) (lit 0.25) (nrows temp) g in
        v <- mul_col s (one_plus u) ;;
        Ok (set_col temp "losses_usdm_ppp_total" v, g)
    | None => Ok (temp, g)
    end ;;
  match gdp_pc_col with
  | Some c =>
      s <- get_col temp c ;;
      let '(u, g) := uniform (lit (-0.3)) (lit 0.3) (nrows temp) g in
      v <- mul_col s (one_plus u) ;;
      Ok (set_col temp "fatalities_total" v, g)
  | None => Ok (temp, g)
  end.

(** The loop over the years: the list [simulated]. *)
Fixpoint simulate (df : frame) (cri_col losses_col gdp_pc_col : option string)
  (ys : list Z) (g : rng) : result (list frame * rng) :=
  match ys with
  | [] => Ok ([], g)
  | y :: rest =>
      '(temp, g) <- simulate_year df cri_col losses_col gdp_pc_col y g ;;
      '(simulated, g) <- simulate df cri_col losses_col gdp_pc_col rest g ;;
      Ok (temp :: simulated, g)
  end.

Definition expand (df : frame) (cri_col losses_col gdp_pc_col : option string)
  (g : rng) : result frame :=
  '(simulated, _) <- simulate df cri_col losses_col gdp_pc_col years g ;;
  Ok (concat simulated).

(** Vocabulary for the statements about the expansion. *)

(** Every column of a frame has one cell per row. *)
Definition wf_frame (df : frame) : Prop :=
  Forall (fun nc => List.length (snd nc) = nrows df) (columns df).

(** The cell of column [name] in row [i]. *)
Definition cell_at (df : frame) (name : string) (i : nat) : option cell :=
  match lookup name (columns df) with
  | Some col => nth_error col i
  | None => None
  end.

(** The factor [1 + u] for the sample [u] that [uniform low high] makes
    of a unit sample. *)
Definition factor (low high unit : F) : F :=
  (lit 1 + (low + (high - low) * unit))%num.

(** One block [if col: temp[target] = temp[col] * factors] of the
    loop, as a relation between the frame before and the frame after. *)
Definition perturbed (t : frame) (col : option string) (target : string)
  (factors : list F) (t' : frame) : Prop :=
  match col with
  | None => t' = t
  | Some c =>
      exists s v,
        lookup c (columns t) = Some s
        /\ mul_col s factors = Ok v
        /\ t' = set_col t target v
  end.

(** The mapped columns are none of the columns the loop writes before
    it reads them. *)
Definition names_ok (cri_col losses_col gdp_pc_col : option string) : Prop :=
  (forall c, cri_col = Some c -> c <> "year")
  /\ (forall c, losses_col = Some c -> c <> "year" /\ c <> "cri_score")
  /\ (forall c, gdp_pc_col = Some c ->
        c <> "year" /\ c <> "cri_score" /\ c <> "losses_usdm_ppp_total").

(** The three arrays of samples a year may draw, and the index, in the
    stream of unit samples, of the sample that year number [k] draws for
    row [i] of an array: the first array is always drawn, the two others
    when their column is mapped. *)
Inductive draw : Type := ForCri | ForLosses | ForFatalities.

Definition flag (col : option string) : nat :=
  match col with
  | Some _ => 1
  | None => 0
  end.

Definition draws_per_year (n : nat) (losses_col gdp_pc_col : option string) : nat :=
  (n * (1 + flag losses_col + flag gdp_pc_col))%nat.

Definition drawn (d : draw) (losses_col gdp_pc_col : option string) : bool :=
  match d with
  | ForCri => true
  | ForLosses => (flag losses_col =? 1)%nat
  | ForFatalities => (flag gdp_pc_col =? 1)%nat
  end.

Definition draw_index (n : nat) (losses_col gdp_pc_col : option string)
  (d : draw) (k i : nat) : nat :=
  (k * draws_per_year n losses_col gdp_pc_col
   + match d with
     | ForCri => 0
     | ForLosses => n
     | ForFatalities => n * (1 + flag losses_col)
     end
   + i)%nat.

(* ------------------------------------------------------------------ *)
(** ** Standardisation (lines 125-147) *)

(** The numeric parser of [pd.to_numeric(..., errors="coerce")] on a
    string: the number it denotes, NaN when it denotes none.  It is pandas'
    own, and a parameter here. *)
Variable parse_float : string -> F.

Definition to_numeric (c : cell) : cell :=
  match c with
  | CStr s => CNum (parse_float s)
  | _ => c
  end.

(** [.fillna(0.0)] on floats. *)
Definition fillna0 (x : F) : F := if is_nan x then lit 0 else x.

(** [df.select_dtypes("number")]: the columns that hold no string. *)
Definition select_number (df : frame) : list column :=
  filter (forallb is_number) (map snd (columns df)).

(** [.sum(axis=1)]: the sum of each row over the given columns, from
    the left, NaN skipped. *)
Definition add_skipna (acc : F) (c : cell) : F :=
  if isna c then acc else (acc + to_float c)%num.

Definition row_sums (n : nat) (cols : list column) : list F :=
  map (fun i => fold_left add_skipna (map (fun col => nth i col (CNum nan)) cols) (lit 0))
      (seq 0 n).

(** Rows of a column selected by a mask. *)
Fixpoint select {A : Type} (mask : list bool) (xs : list A) : list A :=
  match mask, xs with
  | b :: mask', x :: xs' => if b then x :: select mask' xs' else select mask' xs'
  | _, _ => []
  end.

(** The standardised frame [df_std] handed to [compute_features]. *)
Record std_frame : Type := {
  country : list cell;
  year : list cell;
  temperature_anomaly : list F;
  co2_emission : list F;
  sea_level_change : list F
}.

(** [dropna(subset=["country", "year"])]: the rows kept, those whose
    country and year are not null. *)
Definition keep_rows (c y : column) : list bool :=
  map (fun cy => negb (isna (fst cy)) && negb (isna (snd cy))) (combine c y).

(** [if col and col in df: pd.to_numeric(df[col]) else: default] *)
Definition mapped_or (df : frame) (col : option string) (default : column) : column :=
  match col with
  | Some c =>
      match lookup c (columns df) with
      | Some s => map to_numeric s
      | None => default
      end
  | None => default
  end.

Definition standardize (df : frame) (country_col : string)
  (cri_col losses_col gdp_pc_col : option string) : result std_frame :=
  c <- get_col df country_col ;;
  y <- get_col df "year" ;;
  let y := map to_numeric y in
  let t := mapped_or df cri_col (map CNum (row_sums (nrows df) (select_number df))) in
  let e := mapped_or df losses_col (repeat (CNum (lit 0)) (nrows df)) in
  let s := mapped_or df gdp_pc_col (repeat (CNum (lit 0)) (nrows df)) in
  let keep := keep_rows c y in
  let num := fun col =>
    map (fun x => fillna0 (to_float (to_numeric x))) (select keep col) in
  Ok {| country := select keep c;
        year := select keep y;
        temperature_anomaly := num t;
        co2_emission := num e;
        sea_level_change := num s |}.

(** Two year cells in ascending order. *)
Definition year_le (a b : cell) : Prop :=
  exists ya yb, a = CInt ya /\ b = CInt yb /\ (ya <= yb)%Z.

(* ------------------------------------------------------------------ *)
(** ** Feature engine: [compute_features] *)

(** Equality of group keys. *)
Definition cell_eqb (a b : cell) : bool :=
  match a, b with
  | CInt x, CInt y => Z.eqb x y
  | CNum x, CNum y => feqb x y
  | CStr s, CStr t => String.eqb s t
  | _, _ => false
  end.

(** The values of the rows whose key is [k], in row order: the group
    of [k]. *)
Definition group {A : Type} (keys : list cell) (k : cell) (xs : list A) : list A :=
  select (map (fun kj => cell_eqb kj k) keys) xs.

(** The position of row [i] inside its group. *)
Definition position (keys : list cell) (i : nat) : nat :=
  List.length (group (firstn i keys) (nth i keys (CNum nan)) (firstn i keys)).

(** [df.groupby(key)] followed by a function on each group that
    returns one value per row of the group, the results aligned back on
    the frame's index: row [i] receives the value computed for it in its
    group.  A row whose key is null belongs to no group and receives
    NaN.  (This is the Series pandas returns for a frame of two groups or
    more; a frame of a single group, whose result [apply] may lay out as
    one row of a wide frame, is not modelled apart.) *)
Definition group_apply (keys : list cell) (f : list F -> list F) (xs : list F) : list F :=
  map (fun i => nth (position keys i) (f (group keys (nth i keys (CNum nan)) xs)) nan)
      (seq 0 (List.length keys)).

(** [s.sum()], [s.mean()] and [s.std(ddof=0)]: NaN skipped, sums from
    the left. *)
Definition fsum (xs : list F) : F := fold_left fadd xs (lit 0).

Definition dropna (xs : list F) : list F := filter (fun x => negb (is_nan x)) xs.

Definition count (xs : list F) : F := of_Z (Z.of_nat (List.length (dropna xs))).

Definition mean (s : list F) : F := (fsum (dropna s) / count s)%num.

Definition std (s : list F) : F :=
  let avg := (fsum (dropna s) / count s)%num in
  let sqr := map (fun x => ((avg - x) * (avg - x))%num) (dropna s) in
  fsqrt (fsum sqr / count s)%num.

(** The divisor of [zscore]: [std if std != 0 else 1.0]. *)
Definition divisor (s : list F) : F :=
  let std := std s in
  if fneb std (lit 0) then std else lit 1.

Definition zscore (s : list F) : list F :=
  map (fun x => ((x - mean s) / divisor s)%num) s.

(** [.pct_change()] on one group: the change from the previous row,
    [current / previous - 1], undefined (NaN) on the first.  (The
    emissions hold no NaN when [main] calls [compute_features]; the
    filling of NaN inputs that some pandas versions do first is not
    modelled.) *)
Fixpoint pct_from (prev : F) (xs : list F) : list F :=
  match xs with
  | [] => []
  | x :: rest => (x / prev - lit 1)%num :: pct_from x rest
  end.

Definition pct_change (xs : list F) : list F :=
  match xs with
  | [] => []
  | x :: rest => nan :: pct_from x rest
  end.

(** [.rank(pct=True)]: the average of the 1-based positions that the
    values equal to [v] occupy in the ascending order of all the values
    ([sum_ranks / dups]), divided by the number of values.  NaN is not
    ranked. *)
Definition count_if (p : F -> bool) (xs : list F) : nat := List.length (filter p xs).

Definition sum_ranks (less dups : nat) : Z :=
  fold_left Z.add (map Z.of_nat (seq (S less) dups)) 0%Z.

Definition rank_of (vals : list F) (v : F) : F :=
  let less := count_if (fun w => fltb w v) vals in
  let dups := count_if (fun w => feqb w v) vals in
  (of_Z (sum_ranks less dups) / of_Z (Z.of_nat dups)
   / of_Z (Z.of_nat (List.length vals)))%num.

Definition rank_pct (xs : list F) : list F :=
  map (fun v => if is_nan v then nan else rank_of (dropna xs) v) xs.

(** The percentile rank as the specification's glossary words it: the
    fraction of all the values that are [<=] a given value. *)
Definition fraction_le (xs : list F) (v : F) : F :=
  (of_Z (Z.of_nat (count_if (fun w => fleb w v) xs))
   / of_Z (Z.of_nat (List.length xs)))%num.

(** Elementwise [a + b] of two Series on the same index. *)
Fixpoint add_series (a b : list F) : list F :=
  match a, b with
  | x :: a', y :: b' => (x + y)%num :: add_series a' b'
  | _, _ => []
  end.

(** [c * s] for a scalar [c]. *)
Definition scale (c : F) (s : list F) : list F := map (fun x => (c * x)%num) s.

Record feat_frame : Type := {
  base : std_frame;
  temp_anomaly_z : list F;
  sea_level_z : list F;
  co2_growth : list F;
  co2_growth_norm : list F;
  risk_score : list F
}.

Definition compute_features (df : std_frame) : feat_frame :=
  let temp_anomaly_z := group_apply (country df) zscore (temperature_anomaly df) in
  let sea_level_z := group_apply (country df) zscore (sea_level_change df) in
  let co2_growth :=
    map fillna0 (group_apply (country df) pct_change (co2_emission df)) in
  let co2_growth_norm := rank_pct co2_growth in
  let risk_score :=
    add_series
      (add_series (scale (lit 0.5) temp_anomaly_z) (scale (lit 0.3) co2_growth_norm))
      (scale (lit 0.2) sea_level_z) in
  {| base := df;
     temp_anomaly_z := temp_anomaly_z;
     sea_level_z := sea_level_z;
     co2_growth := co2_growth;
     co2_growth_norm := co2_growth_norm;
     risk_score := risk_score |}.

(* ------------------------------------------------------------------ *)
(** ** The pipeline: [main], from the frame read from the CSV *)

(** Lines 94-101: the columns picked for the four fields. *)
Definition country_column (cols : list string) : option string :=
  if mem "country" cols then Some "country"
  else pick_col cols ["rw_country_name"; "country_name"].

Definition cri_column (cols : list string) : option string :=
  pick_col cols ["cri_score"; "climate_risk_index"; "cri"].

Definition losses_column (cols : list string) : option string :=
  pick_col cols ["losses_usdm_ppp_total"; "losses_per_gdp_total"].

Definition gdp_pc_column (cols : list string) : option string :=
  pick_col cols ["fatalities_total"; "fatalities_per_100k_total"].

(** [main] after [pd.read_csv]: [raw] is the frame read, [g] the state
    of the random generator; the result is the frame written to the
    processed file. *)
Definition main (raw : frame) (g : rng) : result feat_frame :=
  let df := rename_cols raw in
  let cols := headers df in
  match country_column cols with
  | None => Err (ValueError (sorted cols))
  | Some country_col =>
      let cri_col := cri_column cols in
      let losses_col := losses_column cols in
      let gdp_pc_col := gdp_pc_column cols in
      let df := set_scalar df "year" (CInt 2024) in
      df <- expand df cri_col losses_col gdp_pc_col g ;;
      df_std <- standardize df country_col cri_col losses_col gdp_pc_col ;;
      Ok (compute_features df_std)
  end.

End Frames.

Arguments cell : clear implicits.
Arguments column : clear implicits.
Arguments frame : clear implicits.
Arguments rng : clear implicits.
Arguments std_frame : clear implicits.
Arguments feat_frame : clear implicits.

(* ================================================================== *)
(** * Sample inputs *)

Module Samples.

Open Scope string_scope.

Definition f64 (q : Q) : float := lit q.

(** Two countries, two years each; the emissions of A go from 0.0 to
    5.0. *)
Definition two_countries : std_frame float :=
  {| country := [CStr "A"; CStr "A"; CStr "B"; CStr "B"];
     year := [CInt 2000; CInt 2001; CInt 2000; CInt 2001];
     temperature_anomaly := [f64 1; f64 3; f64 2; f64 2];
     co2_emission := [f64 0; f64 5; f64 1; f64 1];
     sea_level_change := [f64 1; f64 2; f64 3; f64 5] |}.

(** Country A has the same, infinite, anomaly in both years. *)
Definition infinite_anomaly : std_frame float :=
  {| country := [CStr "A"; CStr "A"; CStr "B"; CStr "B"];
     year := [CInt 2000; CInt 2001; CInt 2000; CInt 2001];
     temperature_anomaly := [infinity; infinity; f64 1; f64 3];
     co2_emission := [f64 1; f64 1; f64 1; f64 1];
     sea_level_change := [f64 1; f64 2; f64 3; f64 5] |}.

(** Country A has the anomaly 0.1 in each of its three years. *)
Definition tenths : std_frame float :=
  {| country := [CStr "A"; CStr "A"; CStr "A"; CStr "B"; CStr "B"];
     year := [CInt 2000; CInt 2001; CInt 2002; CInt 2000; CInt 2001];
     temperature_anomaly := [f64 0.1; f64 0.1; f64 0.1; f64 1; f64 3];
     co2_emission := [f64 1; f64 1; f64 1; f64 1; f64 1];
     sea_level_change := [f64 1; f64 2; f64 3; f64 5; f64 8] |}.

(** A file that has a country column only. *)
Definition only_country : frame float :=
  {| nrows := 2; columns := [("Country", [CStr "X"; CStr "Y"])] |}.

(** A file with the three optional fields under their first aliases. *)
Definition full_file : frame float :=
  {| nrows := 2;
     columns := [("Country Name", [CStr "X"; CStr "Y"]);
                 ("CRI Score", [CNum (f64 10); CNum (f64 20)]);
                 ("Losses USDM PPP Total", [CNum (f64 100); CInt 200]);
                 ("Fatalities Total", [CInt 3; CInt 4])] |}.

(** A generator whose unit samples are all 0.5, and a parser that
    reads no number. *)
Definition halves : rng float := fun _ => f64 0.5.

Definition no_parse : string -> float := fun _ => PrimFloat.nan.

(** The same two countries in exact arithmetic. *)
Definition two_countries_exact : std_frame Exact.xq :=
  {| country := [CStr "A"; CStr "A"; CStr "B"; CStr "B"];
     year := [CInt 2000; CInt 2001; CInt 2000; CInt 2001];
     temperature_anomaly := [lit 1; lit 3; lit 2; lit 2];
     co2_emission := [lit 0; lit 5; lit 1; lit 1];
     sea_level_change := [lit 1; lit 2; lit 3; lit 5] |}.

End Samples.

(* ================================================================== *)
(** * Further code: the choice of the CSV file, the dashboard's defaults *)

Section FurtherCode.

Open Scope string_scope.

(** [f.endswith(suffix)] *)
Fixpoint endswith (f suffix : string) : bool :=
  String.eqb f suffix
  || match f with
     | EmptyString => false
     | String _ rest => endswith rest suffix
     end.

(** [sub in f] *)
Fixpoint contains (sub f : string) : bool :=
  String.prefix sub f
  || match f with
     | EmptyString => false
     | String _ rest => contains sub rest
     end.

(** [main], lines 75-86: among the names [os.listdir] returned, the
    files that end with ".csv"; of these the first whose lower-cased name
    contains "risk", else the first.  [None] stands for the
    FileNotFoundError of line 78. *)
Definition is_csv (f : string) : bool := endswith f ".csv".

(** (Lower case is that of [lower], on bytes.) *)
Definition mentions_risk (f : string) : bool := contains "risk" (lower f).

Definition choose_csv (listing : list string) : option string :=
  let csv_files := filter is_csv listing in
  match csv_files with
  | [] => None
  | first :: _ =>
      match find mentions_risk csv_files with
      | Some f => Some f
      | None => Some first
      end
  end.

(** [app.py], line 41: the countries preselected for the trends,
    given the sorted distinct countries of the processed file:
    [[c for c in [...] if c in countries] or countries[:3]]. *)
Definition preferred_countries : list string :=
  ["India"; "Bangladesh"; "Philippines"; "Honduras"].

Definition default_countries (countries : list string) : list string :=
  match filter (fun c => mem c countries) preferred_countries with
  | [] => firstn 3 countries
  | picked => picked
  end.

(** A name in normal form: over [[a-z0-9_]], with no underscore at
    either end and no two underscores in a row.  [clean_tail] reads what
    follows a character of [[a-z0-9]]. *)
Fixpoint clean_tail (s : string) : bool :=
  match s with
  | EmptyString => true
  | String c r =>
      if is_alnum c then clean_tail r
      else Ascii.eqb c "_" && starts_alnum r && clean_tail r
  end.

Definition clean (s : string) : bool :=
  match s with
  | EmptyString => true
  | String c r => is_alnum c && clean_tail r
  end.

(** Whether a string has a character of [[a-z0-9]]. *)
Fixpoint has_alnum (s : string) : bool :=
  match s with
  | EmptyString => false
  | String c r => is_alnum c || has_alnum r
  end.

End FurtherCode.

Section FurtherVocabulary.

Context {F : Type} `{Num F}.

(** A column copied once for each year of the expansion. *)
Definition replicate {A : Type} (col : list A) : list A :=
  flat_map (fun _ => col) years.

(** Whether the columns mapped to the three optional fields hold no
    string. *)
Definition column_numeric (df : frame F) (col : option string) : bool :=
  match col with
  | Some c =>
      match lookup c (columns df) with
      | Some s => forallb is_number s
      | None => true
      end
  | None => true
  end.

Definition mapped_numeric (df : frame F) (cri_col losses_col gdp_pc_col : option string)
  : bool :=
  column_numeric df cri_col && column_numeric df losses_col
  && column_numeric df gdp_pc_col.

(** The cells of a column that are not null, and their number. *)
Definition notna (c : cell F) : bool := negb (isna c).

Definition count_notna (col : column F) : nat := List.length (filter notna col).

(** The year column of the expanded frame when the frame read has [n]
    rows: each year of 2000..2024, [n] times. *)
Definition year_blocks (n : nat) : column F :=
  flat_map (fun y => repeat (CInt y) n) years.

(** The names of the columns that the loop of the expansion does not
    write. *)
Definition untouched (name : string) : Prop :=
  name <> "year"%string /\ name <> "cri_score"%string
  /\ name <> "losses_usdm_ppp_total"%string /\ name <> "fatalities_total"%string.

End FurtherVocabulary.

(** Further sample inputs. *)
Module Inputs.

Open Scope string_scope.

(** The names of an extracted archive. *)
Definition listing : list string :=
  ["README.md"; "data.csv"; "Climate-RISK.csv"; "risk_2.csv"].

(** A file whose optional fields bear the second alias of their lists
    and whose second row has no country. *)
Definition second_aliases : frame float :=
  {| nrows := 3;
     columns := [("Country", [CStr "X"; CNum PrimFloat.nan; CStr "Y"]);
                 ("Climate Risk Index",
                  [CNum (Samples.f64 10); CNum (Samples.f64 20); CInt 30]);
                 ("Losses per GDP total",
                  [CNum (Samples.f64 1.5); CNum (Samples.f64 2.5);
                   CNum (Samples.f64 3.5)]);
                 ("Fatalities per 100k total", [CInt 3; CInt 4; CInt 5])] |}.

(** A file whose risk index was read as text. *)
Definition text_cri : frame float :=
  {| nrows := 2;
     columns := [("Country", [CStr "X"; CStr "Y"]);
                 ("CRI Score", [CStr "n/a"; CNum (Samples.f64 20)])] |}.

(** Two more generators, and a parser that reads every string as 1.0. *)
Definition quarters : rng float := fun _ => Samples.f64 0.25.

Definition ramp : rng float :=
  fun i => PrimFloat.div (Binary64.float_of_Z (Z.of_nat i)) (Samples.f64 1000).

Definition parse_one : string -> float := fun _ => Samples.f64 1.

(** [Samples.two_countries] with other values for country B. *)
Definition two_countries_other : std_frame float :=
  {| country := [CStr "A"; CStr "A"; CStr "B"; CStr "B"];
     year := [CInt 2000; CInt 2001; CInt 2000; CInt 2001];
     temperature_anomaly := [Samples.f64 1; Samples.f64 3; Samples.f64 7; Samples.f64 9];
     co2_emission := [Samples.f64 0; Samples.f64 5; Samples.f64 4; Samples.f64 2];
     sea_level_change := [Samples.f64 1; Samples.f64 2; Samples.f64 6; Samples.f64 6] |}.

(** Three values without ties, in exact arithmetic. *)
Definition one_two_three : list Exact.xq := [lit 1; lit 2; lit 3].

End Inputs.

(* ================================================================== *)
(** * Properties *)

#[global] Instance float_NumFacts : NumFacts float.
Proof. split; reflexivity. Qed.

#[global] Instance xq_NumFacts : NumFacts Exact.xq.
Proof. split; reflexivity. Qed.

(* ------------------------------------------------------------------ *)
(** ** Column normaliser *)

Section NormalizerFacts.

Open Scope string_scope.

Lemma is_alnum_not_underscore (c : ascii) : is_alnum c = true -> c <> "_"%char.
Proof. intros Hc ->. discriminate Hc. Qed.

Lemma sub_runs_true_head (s : string) :
  match sub_runs true s with
  | String c _ => is_alnum c = true
  | EmptyString => True
  end.
Proof.
  induction s as [|c r IH]; simpl; [exact I|].
  destruct (is_alnum c) eqn:Hc; [exact Hc | exact IH].
Qed.

Lemma lstrip_us_alnum_head (s : string) :
  match s with String c _ => is_alnum c = true | EmptyString => True end ->
  lstrip_us s = s.
Proof.
  destruct s as [|c r]; [reflexivity|].
  intros Hc. apply is_alnum_not_underscore in Hc.
  simpl. destruct c as [[] [] [] [] [] [] [] []]; try reflexivity.
  now elim Hc.
Qed.

(** The underscore written for a leading run is the only one that
    [lstrip] removes. *)
Lemma lstrip_sub_runs (s : string) :
  lstrip_us (sub_runs false s) = sub_runs true s.
Proof.
  destruct s as [|c r]; [reflexivity|].
  simpl. destruct (is_alnum c) eqn:Hc.
  - apply (lstrip_us_alnum_head (String c (sub_runs false r))). exact Hc.
  - simpl. apply lstrip_us_alnum_head. apply sub_runs_true_head.
Qed.

Lemma sub_runs_starts_alnum (b : bool) (s : string) :
  starts_alnum s = true -> sub_runs b s = sub_runs true s.
Proof.
  destruct s as [|c r]; simpl; [discriminate|].
  intros ->. reflexivity.
Qed.

Lemma words_starts_alnum (s : string) :
  starts_alnum s = true -> words s <> [].
Proof.
  destruct s as [|c r]; simpl; [discriminate|].
  intros ->. destruct (starts_alnum r); [destruct (words r)|]; discriminate.
Qed.

Lemma words_nonempty (s : string) : Forall (fun w => w <> EmptyString) (words s).
Proof.
  induction s as [|c r IH]; simpl; [constructor|].
  destruct (is_alnum c); [|exact IH].
  destruct (starts_alnum r).
  - destruct (words r) as [|w ws]; constructor; try discriminate.
    + constructor.
    + now inversion IH.
  - constructor; [discriminate | exact IH].
Qed.

Lemma concat_words_nonempty (w : string) (ws : list string) :
  w <> EmptyString -> String.concat "_" (w :: ws) <> EmptyString.
Proof.
  intros Hw. destruct w as [|c w]; [now elim Hw|].
  destruct ws; simpl; discriminate.
Qed.

Lemma concat_cons_char (c : ascii) (w : string) (ws : list string) :
  String.concat "_" (String c w :: ws) = String c (String.concat "_" (w :: ws)).
Proof. destruct ws; reflexivity. Qed.

Lemma rstrip_us_cons (c : ascii) (s : string) :
  rstrip_us s <> EmptyString -> rstrip_us (String c s) = String c (rstrip_us s).
Proof. simpl. destruct (rstrip_us s); [intros E; now elim E | reflexivity]. Qed.

Lemma rstrip_us_cons_empty (c : ascii) (s : string) :
  rstrip_us s = EmptyString ->
  rstrip_us (String c s) = if Ascii.eqb c "_" then EmptyString else String c EmptyString.
Proof. simpl. now intros ->. Qed.

(** After the leading underscore is gone, stripping the trailing one
    leaves the words joined by single underscores. *)
Lemma rstrip_sub_runs (s : string) :
  rstrip_us (sub_runs true s) = String.concat "_" (words s).
Proof.
  induction s as [|c r IH]; [reflexivity|].
  simpl. destruct (is_alnum c) eqn:Hc; [|exact IH].
  destruct (starts_alnum r) eqn:Hr.
  - rewrite (sub_runs_starts_alnum false r Hr).
    pose proof (words_starts_alnum r Hr) as Hne.
    pose proof (words_nonempty r) as Hw.
    destruct (words r) as [|w ws]; [now elim Hne|].
    rewrite concat_cons_char, rstrip_us_cons; rewrite IH; [reflexivity|].
    apply concat_words_nonempty. now inversion Hw.
  - destruct r as [|c' r'].
    + simpl. destruct (Ascii.eqb_spec c "_") as [->|_]; [discriminate Hc | reflexivity].
    + simpl in Hr. simpl sub_runs. rewrite Hr.
      simpl in IH. rewrite Hr in IH.
      simpl words at 1. rewrite Hr.
      pose proof (words_nonempty r') as Hw.
      destruct (words r') as [|w ws].
      * rewrite rstrip_us_cons_empty.
        -- destruct (Ascii.eqb_spec c "_") as [->|_]; [discriminate Hc | reflexivity].
        -- rewrite rstrip_us_cons_empty by exact IH. reflexivity.
      * assert (Hne : String.concat "_" (w :: ws) <> EmptyString).
        { apply concat_words_nonempty. now inversion Hw. }
        rewrite rstrip_us_cons.
        -- rewrite rstrip_us_cons by (rewrite IH; exact Hne). rewrite IH. reflexivity.
        -- rewrite rstrip_us_cons by (rewrite IH; exact Hne). discriminate.
Qed.

Lemma normalize_col_spec (c : string) : normalize_col c = normalize_spec c.
Proof.
  unfold normalize_col, normalize_spec, strip_us.
  rewrite lstrip_sub_runs. apply rstrip_sub_runs.
Qed.

End NormalizerFacts.

(** C8. Column normalisation maps every raw header to its lower-case
    words (maximal runs of [a-z0-9]) joined by single underscores: each
    maximal run of other characters is collapsed to one underscore and
    none is left at either end.  The headers "Country Name", "CRI Score",
    "Losses (USD,PPP) Total" normalise to "country_name", "cri_score",
    "losses_usd_ppp_total", and alias resolution then selects
    "country_name" as the country field. *)
Theorem normalize_cols_correct :
  (forall cols, normalize_cols cols = map normalize_spec cols)
  /\ normalize_cols ["Country Name"; "CRI Score"; "Losses (USD,PPP) Total"]%string
     = ["country_name"; "cri_score"; "losses_usd_ppp_total"]%string
  /\ country_column
       (normalize_cols ["Country Name"; "CRI Score"; "Losses (USD,PPP) Total"]%string)
     = Some "country_name"%string.
Proof.
  split; [|split; reflexivity].
  intros cols. unfold normalize_cols. apply map_ext. exact normalize_col_spec.
Qed.

(* ------------------------------------------------------------------ *)
(** ** Alias resolution and the mandatory country column *)

Lemma pick_col_none (cols options : list string) :
  pick_col cols options = None <-> Forall (fun o => mem o cols = false) options.
Proof.
  induction options as [|o rest IH]; simpl.
  - split; [constructor | reflexivity].
  - destruct (mem o cols) eqn:Ho.
    + split; [discriminate|]. intros Hall. inversion Hall; congruence.
    + rewrite IH. split; [now constructor | intros Hall; now inversion Hall].
Qed.

Lemma pick_col_some (cols options : list string) (o : string) :
  pick_col cols options = Some o ->
  exists before after,
    options = before ++ o :: after
    /\ mem o cols = true
    /\ Forall (fun p => mem p cols = false) before.
Proof.
  induction options as [|p rest IH]; simpl; [discriminate|].
  destruct (mem p cols) eqn:Hp.
  - intros [= ->]. exists [], rest. repeat split; [exact Hp | constructor].
  - intros Hrest. destruct (IH Hrest) as (before & after & -> & Ho & Hb).
    exists (p :: before), after. repeat split; [exact Ho | now constructor].
Qed.

Lemma pick_col_in (cols options : list string) (o : string) :
  pick_col cols options = Some o -> In o options.
Proof.
  intros Hp. destruct (pick_col_some _ _ _ Hp) as (b & a & -> & _ & _).
  apply in_or_app. right. now left.
Qed.

Lemma sorted_In (cols : list string) (c : string) : In c (sorted cols) <-> In c cols.
Proof.
  unfold sorted. rewrite <- (nodup_In string_dec cols c).
  pose proof (StringSort.Permuted_sort (nodup string_dec cols)) as Hp.
  split; intros Hin.
  - eapply Permutation_in; [symmetry; exact Hp | exact Hin].
  - eapply Permutation_in; [exact Hp | exact Hin].
Qed.

(** No step after the check of the country column raises the error of
    that check. *)
Definition not_value_error {A : Type} (r : result A) : Prop :=
  match r with
  | Err (ValueError _) => False
  | _ => True
  end.

Lemma bind_not_value_error {A B : Type} (r : result A) (k : A -> result B) :
  not_value_error r -> (forall a, not_value_error (k a)) -> not_value_error (bind r k).
Proof. destruct r as [a|e]; simpl; auto. Qed.

Section MandatoryCountry.

Context {F : Type} `{Num F}.
Variable parse_float : string -> F.

Lemma get_col_not_value_error (df : frame F) (name : string) :
  not_value_error (get_col df name).
Proof. unfold get_col. destruct (lookup name (columns df)); exact I. Qed.

Lemma mul_col_not_value_error (col : column F) (factors : list F) :
  not_value_error (mul_col col factors).
Proof.
  revert factors. induction col as [|c col IH]; intros [|s factors]; simpl; try exact I.
  destruct c; try exact I;
    (apply bind_not_value_error; [apply IH | intros; exact I]).
Qed.

Lemma simulate_year_not_value_error (df : frame F) (cri losses gdp : option string)
  (y : Z) (g : rng F) :
  not_value_error (simulate_year df cri losses gdp y g).
Proof.
  unfold simulate_year.
  destruct (uniform _ _ _ g) as [u g1].
  apply bind_not_value_error.
  { destruct cri; [|exact I].
    apply bind_not_value_error; [apply get_col_not_value_error | intros col].
    apply bind_not_value_error; [apply mul_col_not_value_error | intros; exact I]. }
  intros [temp g2]. apply bind_not_value_error.
  { destruct losses; [|exact I].
    apply bind_not_value_error; [apply get_col_not_value_error | intros col].
    destruct (uniform _ _ _ g2).
    apply bind_not_value_error; [apply mul_col_not_value_error | intros; exact I]. }
  intros [temp' g3]. destruct gdp; [|exact I].
  apply bind_not_value_error; [apply get_col_not_value_error | intros col].
  destruct (uniform _ _ _ g3).
  apply bind_not_value_error; [apply mul_col_not_value_error | intros; exact I].
Qed.

Lemma simulate_not_value_error (df : frame F) (cri losses gdp : option string)
  (ys : list Z) (g : rng F) :
  not_value_error (simulate df cri losses gdp ys g).
Proof.
  revert g. induction ys as [|y ys IH]; intros g; simpl; [exact I|].
  apply bind_not_value_error; [apply simulate_year_not_value_error | intros [temp g1]].
  apply bind_not_value_error; [apply IH | intros [sim g2]; exact I].
Qed.

Lemma expand_not_value_error (df : frame F) (cri losses gdp : option string) (g : rng F) :
  not_value_error (expand df cri losses gdp g).
Proof.
  unfold expand. apply bind_not_value_error;
    [apply simulate_not_value_error | intros [sim g1]; exact I].
Qed.

Lemma standardize_not_value_error (df : frame F) (cc : string)
  (cri losses gdp : option string) :
  not_value_error (standardize parse_float df cc cri losses gdp).
Proof.
  unfold standardize.
  apply bind_not_value_error; [apply get_col_not_value_error | intros x].
  apply bind_not_value_error; [apply get_col_not_value_error | intros y; exact I].
Qed.

Lemma country_column_none (cols : list string) :
  country_column cols = None <->
  mem "country" cols = false
  /\ mem "rw_country_name" cols = false
  /\ mem "country_name" cols = false.
Proof.
  unfold country_column. simpl.
  destruct (mem "country" cols), (mem "rw_country_name" cols), (mem "country_name" cols);
    split; try discriminate; try tauto; intros (? & ? & ?); discriminate.
Qed.


End MandatoryCountry.

(* ------------------------------------------------------------------ *)
(** ** Feature engine: shape of the derived columns *)

Section FeatureShape.

Context {F : Type} `{Num F}.

Lemma nth_map_seq {A : Type} (f : nat -> A) (n i : nat) (d : A) :
  (i < n)%nat -> nth i (map f (seq 0 n)) d = f i.
Proof.
  intros Hi. rewrite (nth_indep _ d (f 0%nat)) by (now rewrite length_map, length_seq).
  rewrite (map_nth f (seq 0 n) 0%nat i), seq_nth by exact Hi. reflexivity.
Qed.

Lemma nth_map_in {A B : Type} (f : A -> B) (l : list A) (i : nat) (da : A) (db : B) :
  (i < List.length l)%nat -> nth i (map f l) db = f (nth i l da).
Proof.
  intros Hi. rewrite (nth_indep _ db (f da)) by (now rewrite length_map).
  apply map_nth.
Qed.

Lemma group_apply_length (keys : list (cell F)) (f : list F -> list F) (xs : list F) :
  List.length (group_apply keys f xs) = List.length keys.
Proof. unfold group_apply. now rewrite length_map, length_seq. Qed.

Lemma group_apply_nth (keys : list (cell F)) (f : list F -> list F) (xs : list F)
  (i : nat) :
  (i < List.length keys)%nat ->
  nth i (group_apply keys f xs) nan
  = nth (position keys i) (f (group keys (nth i keys (CNum nan)) xs)) nan.
Proof. intros Hi. unfold group_apply. now rewrite nth_map_seq. Qed.

Lemma rank_pct_length (xs : list F) : List.length (rank_pct xs) = List.length xs.
Proof. unfold rank_pct. apply length_map. Qed.

Lemma add_series_length (a b : list F) :
  List.length (add_series a b) = Nat.min (List.length a) (List.length b).
Proof.
  revert b. induction a as [|x a IH]; intros [|y b]; simpl; try reflexivity.
  now rewrite IH.
Qed.

Lemma add_series_nth (a b : list F) (i : nat) (d : F) :
  (i < List.length a)%nat -> (i < List.length b)%nat ->
  nth i (add_series a b) d = (nth i a d + nth i b d)%num.
Proof.
  revert b i. induction a as [|x a IH]; intros [|y b] [|i]; simpl; try lia; try reflexivity.
  intros Ha Hb. apply IH; lia.
Qed.

Lemma scale_length (c : F) (s : list F) : List.length (scale c s) = List.length s.
Proof. apply length_map. Qed.

Lemma scale_nth (c : F) (s : list F) (i : nat) (d : F) :
  (i < List.length s)%nat -> nth i (scale c s) d = (c * nth i s d)%num.
Proof. intros Hi. unfold scale. now rewrite (nth_map_in _ s i d d). Qed.

Lemma temp_anomaly_z_length (df : std_frame F) :
  List.length (temp_anomaly_z (compute_features df)) = List.length (country df).
Proof. apply group_apply_length. Qed.

Lemma sea_level_z_length (df : std_frame F) :
  List.length (sea_level_z (compute_features df)) = List.length (country df).
Proof. apply group_apply_length. Qed.

Lemma co2_growth_length (df : std_frame F) :
  List.length (co2_growth (compute_features df)) = List.length (country df).
Proof. simpl. now rewrite length_map, group_apply_length. Qed.

Lemma co2_growth_norm_length (df : std_frame F) :
  List.length (co2_growth_norm (compute_features df)) = List.length (country df).
Proof.
  change (co2_growth_norm (compute_features df))
    with (rank_pct (co2_growth (compute_features df))).
  now rewrite rank_pct_length, co2_growth_length.
Qed.

Lemma risk_score_length (df : std_frame F) :
  List.length (risk_score (compute_features df)) = List.length (country df).
Proof.
  change (risk_score (compute_features df))
    with (add_series
            (add_series (scale (lit 0.5) (temp_anomaly_z (compute_features df)))
                        (scale (lit 0.3) (co2_growth_norm (compute_features df))))
            (scale (lit 0.2) (sea_level_z (compute_features df)))).
  rewrite !add_series_length, !scale_length.
  rewrite temp_anomaly_z_length, sea_level_z_length, co2_growth_norm_length. lia.
Qed.

Lemma risk_score_nth (df : std_frame F) (i : nat) :
  (i < List.length (country df))%nat ->
  let out := compute_features df in
  nth i (risk_score out) nan
  = (lit 0.5 * nth i (temp_anomaly_z out) nan
     + lit 0.3 * nth i (co2_growth_norm out) nan
     + lit 0.2 * nth i (sea_level_z out) nan)%num.
Proof.
  intros Hi out.
  change (risk_score out)
    with (add_series
            (add_series (scale (lit 0.5) (temp_anomaly_z out))
                        (scale (lit 0.3) (co2_growth_norm out)))
            (scale (lit 0.2) (sea_level_z out))).
  pose proof (temp_anomaly_z_length df) as Hz.
  pose proof (sea_level_z_length df) as Hs.
  pose proof (co2_growth_norm_length df) as Hn.
  fold out in Hz, Hs, Hn.
  rewrite !add_series_nth, !scale_nth;
    rewrite ?add_series_length, ?scale_length; try lia.
  reflexivity.
Qed.

(** C1. Every row of the feature frame has a risk score, and it is
    0.5 * temp_anomaly_z + 0.3 * co2_growth_norm + 0.2 * sea_level_z of
    that same row; nothing else enters it. *)
Theorem risk_score_formula (df : std_frame F) (i : nat) :
  (i < List.length (country df))%nat ->
  let out := compute_features df in
  List.length (risk_score out) = List.length (country df)
  /\ nth i (risk_score out) nan
     = (lit 0.5 * nth i (temp_anomaly_z out) nan
        + lit 0.3 * nth i (co2_growth_norm out) nan
        + lit 0.2 * nth i (sea_level_z out) nan)%num.
Proof.
  intros Hi out. split; [apply risk_score_length | now apply risk_score_nth].
Qed.

End FeatureShape.

(* ------------------------------------------------------------------ *)
(** ** Groups *)

Section Groups.

Context {F : Type} `{Num F}.

Lemma select_app {A : Type} (m1 m2 : list bool) (x1 x2 : list A) :
  List.length m1 = List.length x1 ->
  select (m1 ++ m2) (x1 ++ x2) = select m1 x1 ++ select m2 x2.
Proof.
  revert x1. induction m1 as [|b m1 IH]; intros [|x x1]; simpl; try discriminate.
  - reflexivity.
  - intros [= Hl]. rewrite (IH _ Hl). now destruct b.
Qed.

Lemma select_length_eq {A B : Type} (m : list bool) (xs : list A) (ys : list B) :
  List.length xs = List.length ys ->
  List.length (select m xs) = List.length (select m ys).
Proof.
  revert xs ys. induction m as [|b m IH]; intros [|x xs] [|y ys]; simpl;
    try discriminate; try reflexivity.
  intros [= Hl]. destruct b; simpl; now rewrite (IH _ _ Hl).
Qed.

Lemma group_app {A : Type} (keys1 keys2 : list (cell F)) (k : cell F) (x1 x2 : list A) :
  List.length keys1 = List.length x1 ->
  group (keys1 ++ keys2) k (x1 ++ x2) = group keys1 k x1 ++ group keys2 k x2.
Proof.
  intros Hl. unfold group. rewrite map_app. apply select_app. now rewrite length_map.
Qed.

Lemma group_cons {A : Type} (k0 : cell F) (keys : list (cell F)) (k : cell F)
  (x : A) (xs : list A) :
  group (k0 :: keys) k (x :: xs)
  = if cell_eqb k0 k then x :: group keys k xs else group keys k xs.
Proof. reflexivity. Qed.

Lemma group_none {A : Type} (keys : list (cell F)) (k : cell F) (xs : list A) :
  Forall (fun kj => cell_eqb kj k = false) keys -> group keys k xs = [].
Proof.
  intros Hall. revert xs. induction Hall as [|k0 keys Hk _ IH]; intros [|x xs];
    try reflexivity.
  rewrite group_cons, Hk. apply IH.
Qed.

Lemma group_length_eq {A B : Type} (keys : list (cell F)) (k : cell F)
  (xs : list A) (ys : list B) :
  List.length xs = List.length ys ->
  List.length (group keys k xs) = List.length (group keys k ys).
Proof. apply select_length_eq. Qed.

Lemma firstn_exact {A : Type} (l1 l2 : list A) : firstn (List.length l1) (l1 ++ l2) = l1.
Proof.
  rewrite firstn_app, Nat.sub_diag, firstn_all. simpl. apply app_nil_r.
Qed.

Lemma split_row {A : Type} (l : list A) (i : nat) (d : A) :
  (i < List.length l)%nat -> l = firstn i l ++ nth i l d :: skipn (S i) l.
Proof.
  revert i. induction l as [|x l IH]; intros [|i]; simpl; try lia.
  - reflexivity.
  - intros Hi. f_equal. apply IH. lia.
Qed.

Lemma nth_exact {A : Type} (l1 l2 : list A) (x d : A) :
  nth (List.length l1) (l1 ++ x :: l2) d = x.
Proof. rewrite app_nth2, Nat.sub_diag by lia. reflexivity. Qed.

(** The position of a row inside its group counts the earlier rows of
    the same key. *)
Lemma position_at (before after : list (cell F)) (k : cell F) :
  position (before ++ k :: after) (List.length before)
  = List.length (group before k before).
Proof. unfold position. now rewrite firstn_exact, nth_exact. Qed.

(** A frame split at a row: the value a per-group function computes for
    that row. *)
Lemma group_apply_at (before after : list (cell F)) (k : cell F)
  (f : list F -> list F) (xs : list F) :
  nth (List.length before) (group_apply (before ++ k :: after) f xs) nan
  = nth (List.length (group before k before))
        (f (group (before ++ k :: after) k xs)) nan.
Proof.
  rewrite group_apply_nth by (rewrite length_app; simpl; lia).
  now rewrite position_at, nth_exact.
Qed.

(** The rows between two consecutive rows of a group are of other
    groups. *)
Lemma between_other_keys (keys : list (cell F)) (k : cell F) (j i : nat) :
  (forall l, (j < l < i)%nat -> cell_eqb (nth l keys (CNum nan)) k = false) ->
  (i <= List.length keys)%nat ->
  Forall (fun kj => cell_eqb kj k = false) (skipn (S j) (firstn i keys)).
Proof.
  intros Hbetween Hi. apply Forall_forall. intros kj Hin.
  destruct (In_nth _ _ (CNum nan) Hin) as (t & Ht & <-).
  rewrite length_skipn, length_firstn in Ht.
  rewrite nth_skipn, nth_firstn.
  destruct (Nat.ltb_spec (S j + t) i) as [Hlt|Hge]; [|lia].
  apply Hbetween. lia.
Qed.

End Groups.

(* ------------------------------------------------------------------ *)
(** ** Growth of the emissions *)

Section Growth.

Context {F : Type} `{Num F} `{!NumFacts F}.

Lemma fillna0_not_nan (x : F) : is_nan (fillna0 x) = false.
Proof.
  unfold fillna0. destruct (is_nan x) eqn:Hx; [apply zero_not_nan | exact Hx].
Qed.

Lemma fillna0_nan : fillna0 (nan : F) = lit 0.
Proof. unfold fillna0. now rewrite nan_is_nan. Qed.

Lemma pct_change_first (xs : list F) : nth 0 (pct_change xs) nan = nan.
Proof. destruct xs; reflexivity. Qed.

Lemma pct_from_nth (prev : F) (xs : list F) (p : nat) (d : F) :
  (p < List.length xs)%nat ->
  nth p (pct_from prev xs) d
  = (nth p xs d / nth p (prev :: xs) d - lit 1)%num.
Proof.
  revert prev p. induction xs as [|x xs IH]; intros prev [|p]; simpl; try lia.
  - reflexivity.
  - intros Hp. apply IH. lia.
Qed.

Lemma pct_change_next (xs : list F) (p : nat) (d : F) :
  (S p < List.length xs)%nat ->
  nth (S p) (pct_change xs) d = (nth (S p) xs d / nth p xs d - lit 1)%num.
Proof.
  destruct xs as [|x xs]; simpl; [lia|]. intros Hp.
  rewrite pct_from_nth by lia. reflexivity.
Qed.

Lemma co2_growth_nth (df : std_frame F) (i : nat) :
  (i < List.length (country df))%nat ->
  nth i (co2_growth (compute_features df)) nan
  = fillna0 (nth i (group_apply (country df) pct_change (co2_emission df)) nan).
Proof.
  intros Hi. simpl. apply nth_map_in. now rewrite group_apply_length.
Qed.

(** The first row of a country has growth 0.0. *)
Lemma co2_growth_first (df : std_frame F) (i : nat) :
  (i < List.length (country df))%nat ->
  (forall j, (j < i)%nat ->
     cell_eqb (nth j (country df) (CNum nan)) (nth i (country df) (CNum nan)) = false) ->
  nth i (co2_growth (compute_features df)) nan = lit 0.
Proof.
  intros Hi Hfirst. rewrite co2_growth_nth by exact Hi.
  rewrite group_apply_nth by exact Hi.
  replace (position (country df) i) with 0%nat.
  - now rewrite pct_change_first, fillna0_nan.
  - unfold position. rewrite group_none; [reflexivity|].
    apply Forall_forall. intros kj Hin.
    destruct (In_nth _ _ (CNum nan) Hin) as (t & Ht & <-).
    rewrite length_firstn in Ht. rewrite nth_firstn.
    destruct (Nat.ltb_spec t i) as [Hlt|Hge]; [|lia].
    now apply Hfirst.
Qed.

(** Two consecutive rows of a group, in a frame split at them. *)
Lemma pct_change_consecutive (A M B : list (cell F)) (kj k : cell F)
  (XA XM XB : list F) (xj xi : F) :
  List.length A = List.length XA ->
  List.length M = List.length XM ->
  cell_eqb k k = true ->
  cell_eqb kj k = true ->
  Forall (fun km => cell_eqb km k = false) M ->
  nth (List.length (A ++ kj :: M))
      (group_apply ((A ++ kj :: M) ++ k :: B) pct_change
                   ((XA ++ xj :: XM) ++ xi :: XB)) nan
  = (xi / xj - lit 1)%num.
Proof.
  intros HA HM Hrefl Hj Hmid.
  rewrite group_apply_at.
  assert (Eg : group ((A ++ kj :: M) ++ k :: B) k ((XA ++ xj :: XM) ++ xi :: XB)
               = group A k XA ++ xj :: xi :: group B k XB).
  { rewrite group_app by (rewrite !length_app; simpl; lia).
    rewrite group_app by lia.
    rewrite !group_cons, Hj, Hrefl, (group_none M k XM Hmid).
    rewrite <- app_assoc. reflexivity. }
  assert (Ep : List.length (group (A ++ kj :: M) k (A ++ kj :: M))
               = S (List.length (group A k XA))).
  { rewrite group_app by reflexivity.
    rewrite group_cons, Hj, (group_none M k M Hmid), length_app. simpl.
    rewrite (group_length_eq A k A XA) by lia. lia. }
  rewrite Ep, Eg.
  rewrite pct_change_next by (rewrite length_app; simpl; lia).
  rewrite (app_nth2 _ _ nan) by lia.
  replace (S (List.length (group A k XA)) - List.length (group A k XA))%nat
    with 1%nat by lia.
  rewrite nth_exact. reflexivity.
Qed.

(** A later row has the change from the previous row of its country,
    NaN replaced by 0.0. *)
Lemma co2_growth_next (df : std_frame F) (j i : nat) :
  List.length (co2_emission df) = List.length (country df) ->
  (j < i < List.length (country df))%nat ->
  let k := nth i (country df) (CNum nan) in
  cell_eqb k k = true ->
  cell_eqb (nth j (country df) (CNum nan)) k = true ->
  (forall l, (j < l < i)%nat -> cell_eqb (nth l (country df) (CNum nan)) k = false) ->
  nth i (co2_growth (compute_features df)) nan
  = fillna0 (nth i (co2_emission df) nan / nth j (co2_emission df) nan - lit 1)%num.
Proof.
  intros Hlen [Hji Hi] k Hrefl Hj Hbetween.
  rewrite co2_growth_nth by exact Hi. f_equal.
  remember (country df) as keys eqn:Ek. remember (co2_emission df) as xs eqn:Ex.
  clear Ek Ex df.
  pose proof (between_other_keys keys k j i Hbetween ltac:(lia)) as Hmid.
  assert (HP : List.length (firstn i keys) = i) by (rewrite length_firstn; lia).
  assert (HXP : List.length (firstn i xs) = i) by (rewrite length_firstn; lia).
  assert (Hnk : nth j (firstn i keys) (CNum nan) = nth j keys (CNum nan)).
  { rewrite nth_firstn. destruct (Nat.ltb_spec j i); [reflexivity | lia]. }
  assert (Hnx : nth j (firstn i xs) nan = nth j xs nan).
  { rewrite nth_firstn. destruct (Nat.ltb_spec j i); [reflexivity | lia]. }
  pose proof (split_row keys i (CNum nan) Hi) as Ekeys. fold k in Ekeys.
  pose proof (split_row xs i nan ltac:(lia)) as Exs.
  pose proof (split_row (firstn i keys) j (CNum nan) ltac:(lia)) as EP.
  pose proof (split_row (firstn i xs) j nan ltac:(lia)) as EXP.
  rewrite Hnk in EP. rewrite Hnx in EXP.
  pose proof (pct_change_consecutive
                (firstn j (firstn i keys)) (skipn (S j) (firstn i keys))
                (skipn (S i) keys) (nth j keys (CNum nan)) k
                (firstn j (firstn i xs)) (skipn (S j) (firstn i xs))
                (skipn (S i) xs) (nth j xs nan) (nth i xs nan)) as Hg.
  rewrite <- EP, <- EXP, <- Ekeys, <- Exs, HP in Hg.
  apply Hg; try assumption.
  - rewrite !length_firstn. lia.
  - rewrite !length_skipn. lia.
Qed.

End Growth.

(* ------------------------------------------------------------------ *)
(** ** Z-scores *)

Section ZScore.

Context {F : Type} `{Num F} `{!NumFacts F}.

(** A row is a member of its own group, at its position. *)
Lemma group_row (keys : list (cell F)) (xs : list F) (i : nat) :
  List.length xs = List.length keys ->
  (i < List.length keys)%nat ->
  let k := nth i keys (CNum nan) in
  cell_eqb k k = true ->
  (position keys i < List.length (group keys k xs))%nat
  /\ nth (position keys i) (group keys k xs) nan = nth i xs nan.
Proof.
  intros Hlen Hi k Hrefl.
  pose proof (split_row keys i (CNum nan) Hi) as Ekeys. fold k in Ekeys.
  pose proof (split_row xs i nan ltac:(lia)) as Exs.
  assert (HP : List.length (firstn i keys) = i) by (rewrite length_firstn; lia).
  assert (HXP : List.length (firstn i xs) = i) by (rewrite length_firstn; lia).
  assert (Ep : position keys i
               = List.length (group (firstn i keys) k (firstn i xs))).
  { unfold position. fold k. apply group_length_eq. lia. }
  assert (Eg : group keys k xs
               = group (firstn i keys) k (firstn i xs)
                 ++ nth i xs nan :: group (skipn (S i) keys) k (skipn (S i) xs)).
  { rewrite Ekeys at 1. rewrite Exs at 1.
    rewrite group_app by lia. now rewrite group_cons, Hrefl. }
  rewrite Ep, Eg. split.
  - rewrite length_app. simpl. lia.
  - apply nth_exact.
Qed.

Lemma zscore_nth (s : list F) (p : nat) :
  (p < List.length s)%nat ->
  nth p (zscore s) nan = ((nth p s nan - mean s) / divisor s)%num.
Proof. intros Hp. unfold zscore. now rewrite (nth_map_in _ s p nan nan). Qed.

Lemma divisor_nonzero (s : list F) : feqb (divisor s) (lit 0) = false.
Proof.
  unfold divisor, fneb. destruct (feqb (std s) (lit 0)) eqn:Hs; simpl.
  - apply one_neq_zero.
  - exact Hs.
Qed.

Lemma divisor_zero_std (s : list F) :
  feqb (std s) (lit 0) = true -> divisor s = lit 1.
Proof. intros Hs. unfold divisor, fneb. now rewrite Hs. Qed.

(** The z-score of a row, from the series of its country. *)
Lemma temp_anomaly_z_nth (df : std_frame F) (i : nat) :
  List.length (temperature_anomaly df) = List.length (country df) ->
  (i < List.length (country df))%nat ->
  let k := nth i (country df) (CNum nan) in
  cell_eqb k k = true ->
  let s := group (country df) k (temperature_anomaly df) in
  In (nth i (temperature_anomaly df) nan) s
  /\ nth i (temp_anomaly_z (compute_features df)) nan
     = ((nth i (temperature_anomaly df) nan - mean s) / divisor s)%num.
Proof.
  intros Hlen Hi k Hrefl s.
  destruct (group_row (country df) (temperature_anomaly df) i Hlen Hi Hrefl)
    as [Hpos Hnth].
  fold k in Hpos, Hnth. fold s in Hpos, Hnth. split.
  - rewrite <- Hnth. now apply nth_In.
  - simpl. rewrite group_apply_nth by exact Hi.
    fold k. fold s. rewrite zscore_nth by exact Hpos. now rewrite Hnth.
Qed.


End ZScore.

(* ------------------------------------------------------------------ *)
(** ** Percentile rank *)

Section Rank.

Context {F : Type} `{Num F} `{!NumFacts F}.

Lemma fold_left_Zadd (l : list Z) (a : Z) :
  fold_left Z.add l a = (a + fold_left Z.add l 0)%Z.
Proof.
  revert a. induction l as [|x l IH]; intros a; simpl; [lia|].
  rewrite (IH (a + x)%Z), (IH x). lia.
Qed.

(** The sum of the positions [less + 1 .. less + dups]. *)
Lemma sum_ranks_closed (less dups : nat) :
  (2 * sum_ranks less dups
   = Z.of_nat dups * (2 * Z.of_nat less + Z.of_nat dups + 1))%Z.
Proof.
  unfold sum_ranks. revert less. induction dups as [|d IH]; intros less.
  - simpl. lia.
  - cbn [seq map fold_left]. rewrite fold_left_Zadd.
    specialize (IH (S less)). lia.
Qed.

Lemma dropna_all (xs : list F) :
  Forall (fun x => is_nan x = false) xs -> dropna xs = xs.
Proof.
  induction 1 as [|x xs Hx _ IH]; simpl; [reflexivity|].
  rewrite Hx. simpl. now rewrite IH.
Qed.

Lemma co2_growth_not_nan (df : std_frame F) :
  Forall (fun x => is_nan x = false) (co2_growth (compute_features df)).
Proof. simpl. apply Forall_map, Forall_forall. intros x _. apply fillna0_not_nan. Qed.

Lemma co2_growth_norm_nth (df : std_frame F) (i : nat) :
  (i < List.length (country df))%nat ->
  let g := co2_growth (compute_features df) in
  nth i (co2_growth_norm (compute_features df)) nan = rank_of g (nth i g nan).
Proof.
  intros Hi g.
  change (co2_growth_norm (compute_features df)) with (rank_pct g).
  pose proof (co2_growth_not_nan df) as Hnn. fold g in Hnn.
  assert (Hlen : (i < List.length g)%nat) by (unfold g; now rewrite co2_growth_length).
  unfold rank_pct. rewrite (nth_map_in _ g i nan nan) by exact Hlen.
  rewrite (dropna_all g Hnn).
  rewrite Forall_forall in Hnn. rewrite (Hnn (nth i g nan)); [reflexivity|].
  now apply nth_In.
Qed.

(** C3 (as amended). For every row, co2_growth_norm is the average rank
    of the row's co2_growth among the co2_growth values of the entire
    dataset, divided by the number of rows: with [less] values strictly
    smaller and [dups] values equal to it (the row's own included), the
    sum of the positions less+1 .. less+dups, divided by dups, divided by
    the row count; that is (less + (dups + 1) / 2) / rows. *)
Theorem co2_growth_norm_average_rank (df : std_frame F) (i : nat) :
  (i < List.length (country df))%nat ->
  let g := co2_growth (compute_features df) in
  let v := nth i g nan in
  let less := count_if (fun w => fltb w v) g in
  let dups := count_if (fun w => feqb w v) g in
  nth i (co2_growth_norm (compute_features df)) nan
  = (of_Z (sum_ranks less dups) / of_Z (Z.of_nat dups)
     / of_Z (Z.of_nat (List.length (country df))))%num
  /\ (2 * sum_ranks less dups
      = Z.of_nat dups * (2 * Z.of_nat less + Z.of_nat dups + 1))%Z.
Proof.
  intros Hi g v less dups. split; [|apply sum_ranks_closed].
  rewrite co2_growth_norm_nth by exact Hi. fold g. fold v.
  unfold rank_of. fold less. fold dups.
  unfold g at 1. now rewrite co2_growth_length.
Qed.

End Rank.

(* ------------------------------------------------------------------ *)
(** ** Columns of a frame *)

Section Columns.

Context {F : Type} `{Num F}.

Lemma lookup_assign_same (name : string) (col : column F) (cs : list (string * column F)) :
  lookup name (assign name col cs) = Some col.
Proof.
  induction cs as [|[n c] cs IH]; simpl.
  - now rewrite String.eqb_refl.
  - destruct (String.eqb name n) eqn:E; simpl; now rewrite E.
Qed.

Lemma lookup_assign_other (name name' : string) (col : column F)
  (cs : list (string * column F)) :
  name <> name' -> lookup name (assign name' col cs) = lookup name cs.
Proof.
  intros Hne. induction cs as [|[n c] cs IH]; simpl.
  - destruct (String.eqb_spec name name'); [contradiction | reflexivity].
  - destruct (String.eqb_spec name' n) as [->|Hn]; simpl.
    + destruct (String.eqb_spec name n); [contradiction | reflexivity].
    + destruct (String.eqb name n); [reflexivity | apply IH].
Qed.

Lemma assign_Forall (P : string * column F -> Prop) (name : string) (col : column F)
  (cs : list (string * column F)) :
  (forall n, P (n, col)) -> Forall P cs -> Forall P (assign name col cs).
Proof.
  intros Hcol. induction 1 as [|[n c] cs Hc Hcs IH]; simpl.
  - constructor; [apply Hcol | constructor].
  - destruct (String.eqb name n); constructor; auto.
Qed.

Lemma set_col_wf (df : frame F) (name : string) (col : column F) :
  wf_frame df -> List.length col = nrows df -> wf_frame (set_col df name col).
Proof.
  intros Hwf Hlen. unfold wf_frame, set_col. simpl.
  apply assign_Forall; [intros n; exact Hlen | exact Hwf].
Qed.

Lemma lookup_In (name : string) (cs : list (string * column F)) (col : column F) :
  lookup name cs = Some col -> In (name, col) cs.
Proof.
  induction cs as [|[n c] cs IH]; simpl; [discriminate|].
  destruct (String.eqb_spec name n) as [->|_].
  - intros [= ->]. now left.
  - intros Hl. right. now apply IH.
Qed.

Lemma lookup_wf (df : frame F) (name : string) (col : column F) :
  wf_frame df -> lookup name (columns df) = Some col -> List.length col = nrows df.
Proof.
  intros Hwf Hl. apply lookup_In in Hl.
  unfold wf_frame in Hwf. rewrite Forall_forall in Hwf. exact (Hwf _ Hl).
Qed.

Lemma lookup_headers (name : string) (cs : list (string * column F)) :
  In name (map fst cs) <-> exists col, lookup name cs = Some col.
Proof.
  induction cs as [|[n c] cs IH]; simpl.
  - split; [intros [] | intros [col Hc]; discriminate].
  - destruct (String.eqb_spec name n) as [->|Hne].
    + split; [intros _; now exists c | intros _; now left].
    + rewrite <- IH. split; [intros [E|Hin]; [now elim Hne | exact Hin] | now right].
Qed.

Lemma mem_In (x : string) (cols : list string) : mem x cols = true <-> In x cols.
Proof.
  unfold mem. rewrite existsb_exists. split.
  - intros (y & Hy & E). apply String.eqb_eq in E. now subst.
  - intros Hin. exists x. split; [exact Hin | apply String.eqb_refl].
Qed.

(** [series * array] *)
Lemma mul_col_spec (s : column F) (f : list F) (v : column F) :
  mul_col s f = Ok v ->
  List.length s = List.length f ->
  List.length v = List.length s
  /\ forall i, (i < List.length s)%nat ->
       nth i v (CNum nan) = CNum (to_float (nth i s (CNum nan)) * nth i f nan)%num.
Proof.
  revert f v. induction s as [|c s IH]; intros [|x f] v; simpl; try discriminate.
  - intros [= <-] _. split; [reflexivity | intros i Hi; lia].
  - intros Hm [= Hl].
    assert (Hrest : exists rest, mul_col s f = Ok rest
                                 /\ v = CNum (to_float c * x)%num :: rest).
    { destruct c; try discriminate;
        (destruct (mul_col s f) as [rest|e]; simpl in Hm; [|discriminate]);
        injection Hm as <-; now exists rest. }
    destruct Hrest as (rest & Hr & ->).
    destruct (IH f rest Hr Hl) as [Hlen Hnth].
    split; [simpl; now rewrite Hlen|].
    intros [|i] Hi; [reflexivity|]. simpl. apply Hnth. lia.
Qed.

Lemma mul_col_total (s : column F) (f : list F) :
  forallb is_number s = true -> exists v, mul_col s f = Ok v.
Proof.
  revert f. induction s as [|c s IH]; intros [|x f]; simpl;
    try (intros _; now eexists).
  intros Hn. apply andb_true_iff in Hn. destruct Hn as [Hc Hs].
  destruct (IH f Hs) as [rest Hr].
  destruct c; try discriminate; rewrite Hr; simpl; now eexists.
Qed.

(** The factors [1 + np.random.uniform(low, high, n)]. *)
Lemma factors_length (low high : F) (n : nat) (g : rng F) :
  List.length (one_plus (fst (uniform low high n g))) = n.
Proof. unfold one_plus, uniform. simpl. now rewrite !length_map, length_seq. Qed.

Lemma factors_nth (low high : F) (n : nat) (g : rng F) (i : nat) :
  (i < n)%nat ->
  nth i (one_plus (fst (uniform low high n g))) nan = factor low high (g i).
Proof.
  intros Hi. unfold one_plus, uniform, factor. simpl.
  rewrite map_map. now rewrite nth_map_seq.
Qed.

End Columns.

(* ------------------------------------------------------------------ *)
(** ** One year of the expansion *)

Section OneYear.

Context {F : Type} `{Num F}.

Open Scope string_scope.

Lemma perturbed_nrows (t : frame F) (col : option string) (target : string)
  (factors : list F) (t' : frame F) :
  perturbed t col target factors t' -> nrows t' = nrows t.
Proof.
  destruct col as [c|]; simpl; [|now intros ->].
  intros (s & v & _ & _ & ->). reflexivity.
Qed.

Lemma perturbed_other (t : frame F) (col : option string) (target : string)
  (factors : list F) (t' : frame F) (name : string) :
  perturbed t col target factors t' -> name <> target ->
  lookup name (columns t') = lookup name (columns t).
Proof.
  destruct col as [c|]; simpl; [|now intros ->].
  intros (s & v & _ & _ & ->) Hne. simpl. now apply lookup_assign_other.
Qed.

Lemma perturbed_wf (t : frame F) (col : option string) (target : string)
  (factors : list F) (t' : frame F) :
  perturbed t col target factors t' ->
  wf_frame t -> List.length factors = nrows t -> wf_frame t'.
Proof.
  destruct col as [c|]; simpl; [|now intros ->].
  intros (s & v & Hs & Hv & ->) Hwf Hf.
  pose proof (lookup_wf t c s Hwf Hs) as Hls.
  destruct (mul_col_spec s factors v Hv ltac:(lia)) as [Hlv _].
  apply set_col_wf; [exact Hwf | lia].
Qed.

Lemma perturbed_target (t : frame F) (c target : string)
  (factors : list F) (t' : frame F) :
  perturbed t (Some c) target factors t' ->
  wf_frame t -> List.length factors = nrows t ->
  exists s v,
    lookup c (columns t) = Some s
    /\ lookup target (columns t') = Some v
    /\ List.length v = nrows t
    /\ forall i, (i < nrows t)%nat ->
         nth i v (CNum nan) = CNum (to_float (nth i s (CNum nan)) * nth i factors nan)%num.
Proof.
  simpl. intros (s & v & Hs & Hv & ->) Hwf Hf.
  pose proof (lookup_wf t c s Hwf Hs) as Hls.
  destruct (mul_col_spec s factors v Hv ltac:(lia)) as [Hlv Hnth].
  exists s, v. repeat split.
  - exact Hs.
  - simpl. apply lookup_assign_same.
  - lia.
  - intros i Hi. apply Hnth. lia.
Qed.

Lemma perturbed_total (t : frame F) (col : option string) (target : string)
  (factors : list F) :
  (forall c, col = Some c ->
     exists s, lookup c (columns t) = Some s /\ forallb is_number s = true) ->
  exists t', perturbed t col target factors t'.
Proof.
  destruct col as [c|]; simpl; [|intros _; now eexists].
  intros Hc. destruct (Hc c eq_refl) as (s & Hs & Hn).
  destruct (mul_col_total s factors Hn) as [v Hv].
  exists (set_col t target v), s, v. now repeat split.
Qed.

(** The loop body, block by block. *)
Lemma simulate_year_inv (df : frame F) (cri losses gdp : option string)
  (y : Z) (g : rng F) (temp : frame F) (g' : rng F) :
  simulate_year df cri losses gdp y g = Ok (temp, g') ->
  let n := nrows df in
  let t0 := set_scalar df "year" (CInt y) in
  let g1 := snd (uniform (lit (-0.3)) (lit 0.3) n g) in
  let g2 := match losses with
            | Some _ => snd (uniform (lit (-0.25)) (lit 0.25) n g1)
            | None => g1
            end in
  exists t1 t2,
    perturbed t0 cri "cri_score"
              (one_plus (fst (uniform (lit (-0.3)) (lit 0.3) n g))) t1
    /\ perturbed t1 losses "losses_usdm_ppp_total"
                 (one_plus (fst (uniform (lit (-0.25)) (lit 0.25) n g1))) t2
    /\ perturbed t2 gdp "fatalities_total"
                 (one_plus (fst (uniform (lit (-0.3)) (lit 0.3) n g2))) temp
    /\ g' = match gdp with
            | Some _ => snd (uniform (lit (-0.3)) (lit 0.3) n g2)
            | None => g2
            end.
Proof.
  unfold simulate_year, get_col.
  destruct cri as [c1|], losses as [c2|], gdp as [c3|]; simpl;
    repeat match goal with
      | |- context [lookup ?c ?cs] =>
          let E := fresh "E" in destruct (lookup c cs) eqn:E; simpl; [|discriminate]
      | |- context [mul_col ?s ?f] =>
          let E := fresh "E" in destruct (mul_col s f) eqn:E; simpl; [|discriminate]
      end;
    intros [= <- <-]; do 2 eexists; repeat split;
    repeat (do 2 eexists; repeat split; try eassumption).
Qed.

(** A block that reads a numeric column succeeds. *)
Ltac read_column Hnum c :=
  let s := fresh "s" in
  let Hs := fresh "Hs" in
  let Hm := fresh "Hm" in
  destruct (Hnum c ltac:(auto)) as (s & Hs & Hm);
  rewrite !lookup_assign_other by assumption;
  rewrite Hs; simpl;
  match goal with
  | |- context [mul_col s ?f] =>
      let v := fresh "v" in
      let Hv := fresh "Hv" in
      destruct (mul_col_total s f Hm) as [v Hv]; rewrite Hv; simpl
  end.

Lemma simulate_year_total (df : frame F) (cri losses gdp : option string)
  (y : Z) (g : rng F) :
  names_ok cri losses gdp ->
  (forall c, cri = Some c \/ losses = Some c \/ gdp = Some c ->
     exists s, lookup c (columns df) = Some s /\ forallb is_number s = true) ->
  exists r, simulate_year df cri losses gdp y g = Ok r.
Proof.
  intros (Hn1 & Hn2 & Hn3) Hnum.
  unfold simulate_year, get_col.
  destruct cri as [c1|]; simpl;
    [ pose proof (Hn1 c1 eq_refl) as N1; read_column Hnum c1 | ];
    (destruct losses as [c2|]; simpl;
     [ destruct (Hn2 c2 eq_refl) as [N2 N2']; read_column Hnum c2 | ]);
    (destruct gdp as [c3|]; simpl;
     [ destruct (Hn3 c3 eq_refl) as (N3 & N3' & N3''); read_column Hnum c3 | ]);
    now eexists.
Qed.

End OneYear.

Section YearFrame.

Context {F : Type} `{Num F}.

Open Scope string_scope.

Lemma set_scalar_wf (df : frame F) (name : string) (v : cell F) :
  wf_frame df -> wf_frame (set_scalar df name v).
Proof. intros Hwf. apply set_col_wf; [exact Hwf | apply repeat_length]. Qed.

(** What the loop body makes of the frame, for the year [y] and the
    unit samples [g] it starts from. *)
Lemma simulate_year_spec (df : frame F) (cri losses gdp : option string)
  (y : Z) (g : rng F) (temp : frame F) (g' : rng F) :
  wf_frame df ->
  names_ok cri losses gdp ->
  simulate_year df cri losses gdp y g = Ok (temp, g') ->
  let n := nrows df in
  nrows temp = n
  /\ wf_frame temp
  /\ (forall j, g' j = g (draws_per_year n losses gdp + j)%nat)
  /\ lookup "year" (columns temp) = Some (repeat (CInt y) n)
  /\ (forall c, cri = Some c ->
        exists s v,
          lookup c (columns df) = Some s
          /\ lookup "cri_score" (columns temp) = Some v
          /\ List.length v = n
          /\ forall i, (i < n)%nat ->
               nth i v (CNum nan)
               = CNum (to_float (nth i s (CNum nan))
                       * factor (lit (-0.3)) (lit 0.3) (g i))%num)
  /\ (forall c, losses = Some c ->
        exists s v,
          lookup c (columns df) = Some s
          /\ lookup "losses_usdm_ppp_total" (columns temp) = Some v
          /\ List.length v = n
          /\ forall i, (i < n)%nat ->
               nth i v (CNum nan)
               = CNum (to_float (nth i s (CNum nan))
                       * factor (lit (-0.25)) (lit 0.25) (g (n + i)%nat))%num)
  /\ (forall c, gdp = Some c ->
        exists s v,
          lookup c (columns df) = Some s
          /\ lookup "fatalities_total" (columns temp) = Some v
          /\ List.length v = n
          /\ forall i, (i < n)%nat ->
               nth i v (CNum nan)
               = CNum (to_float (nth i s (CNum nan))
                       * factor (lit (-0.3)) (lit 0.3)
                                (g (n * (1 + flag losses) + i)%nat))%num)
  /\ (forall name,
        name <> "year" -> name <> "cri_score" ->
        name <> "losses_usdm_ppp_total" -> name <> "fatalities_total" ->
        lookup name (columns temp) = lookup name (columns df)).
Proof.
  intros Hwf (Hn1 & Hn2 & Hn3) Hsim n.
  destruct (simulate_year_inv df cri losses gdp y g temp g' Hsim)
    as (t1 & t2 & P1 & P2 & P3 & Hg').
  fold n in P1, P2, P3, Hg'.
  set (t0 := set_scalar df "year" (CInt y)) in *.
  set (g1 := snd (uniform (lit (-0.3)) (lit 0.3) n g)) in *.
  set (g2 := match losses with
             | Some _ => snd (uniform (lit (-0.25)) (lit 0.25) n g1)
             | None => g1
             end) in *.
  assert (W0 : wf_frame t0) by now apply set_scalar_wf.
  assert (N1 : nrows t1 = n) by (now rewrite (perturbed_nrows _ _ _ _ _ P1)).
  assert (W1 : wf_frame t1).
  { apply (perturbed_wf _ _ _ _ _ P1 W0). apply factors_length. }
  assert (N2 : nrows t2 = n) by (now rewrite (perturbed_nrows _ _ _ _ _ P2)).
  assert (W2 : wf_frame t2).
  { apply (perturbed_wf _ _ _ _ _ P2 W1). rewrite N1. apply factors_length. }
  assert (Hyear0 : lookup "year" (columns t0) = Some (repeat (CInt y) n)).
  { apply lookup_assign_same. }
  assert (Hother0 : forall name, name <> "year" ->
                      lookup name (columns t0) = lookup name (columns df)).
  { intros name Hne. now apply lookup_assign_other. }
  assert (Hg2 : forall j, g2 j = g (n * (1 + flag losses) + j)%nat).
  { intros j. unfold g2, g1. destruct losses; simpl; f_equal; lia. }
  repeat split.
  - now rewrite (perturbed_nrows _ _ _ _ _ P3).
  - apply (perturbed_wf _ _ _ _ _ P3 W2). rewrite N2. apply factors_length.
  - intros j. rewrite Hg'. unfold draws_per_year.
    destruct gdp; simpl; rewrite Hg2; f_equal; simpl; lia.
  - rewrite (perturbed_other _ _ _ _ _ "year" P3) by discriminate.
    rewrite (perturbed_other _ _ _ _ _ "year" P2) by discriminate.
    rewrite (perturbed_other _ _ _ _ _ "year" P1) by discriminate.
    exact Hyear0.
  - intros c ->.
    destruct (perturbed_target _ _ _ _ _ P1 W0 (factors_length _ _ _ _))
      as (s & v & Hs & Hv & Hlv & Hnth).
    exists s, v. repeat split.
    + rewrite <- Hs. symmetry. apply Hother0. now apply Hn1.
    + rewrite (perturbed_other _ _ _ _ _ "cri_score" P3) by discriminate.
      rewrite (perturbed_other _ _ _ _ _ "cri_score" P2) by discriminate.
      exact Hv.
    + exact Hlv.
    + intros i Hi. rewrite (Hnth i Hi), factors_nth by exact Hi. reflexivity.
  - intros c ->.
    destruct (perturbed_target _ _ _ _ _ P2 W1
                ltac:(rewrite N1; apply factors_length))
      as (s & v & Hs & Hv & Hlv & Hnth).
    destruct (Hn2 c eq_refl) as [Ha Hb].
    exists s, v. repeat split.
    + rewrite <- Hs, (perturbed_other _ _ _ _ _ c P1) by exact Hb.
      symmetry. now apply Hother0.
    + rewrite (perturbed_other _ _ _ _ _ "losses_usdm_ppp_total" P3) by discriminate.
      exact Hv.
    + now rewrite Hlv.
    + intros i Hi. rewrite (Hnth i) by lia. rewrite factors_nth by exact Hi.
      reflexivity.
  - intros c ->.
    destruct (perturbed_target _ _ _ _ _ P3 W2
                ltac:(rewrite N2; apply factors_length))
      as (s & v & Hs & Hv & Hlv & Hnth).
    destruct (Hn3 c eq_refl) as (Ha & Hb & Hc).
    exists s, v. repeat split.
    + rewrite <- Hs, (perturbed_other _ _ _ _ _ c P2) by exact Hc.
      rewrite (perturbed_other _ _ _ _ _ c P1) by exact Hb.
      symmetry. now apply Hother0.
    + exact Hv.
    + now rewrite Hlv.
    + intros i Hi. rewrite (Hnth i) by lia. rewrite factors_nth by exact Hi.
      now rewrite Hg2.
  - intros name H1 H2 H3 H4.
    rewrite (perturbed_other _ _ _ _ _ name P3) by exact H4.
    rewrite (perturbed_other _ _ _ _ _ name P2) by exact H3.
    rewrite (perturbed_other _ _ _ _ _ name P1) by exact H2.
    now apply Hother0.
Qed.

End YearFrame.

(* ------------------------------------------------------------------ *)
(** ** All the years, concatenated *)

Section AllYears.

Context {F : Type} `{Num F}.

Open Scope string_scope.

(** Year number [k] of the loop runs the body on the unit samples from
    index [k * draws_per_year] on. *)
Lemma simulate_spec (df : frame F) (cri losses gdp : option string)
  (ys : list Z) (g : rng F) (sims : list (frame F)) (g' : rng F) :
  wf_frame df ->
  names_ok cri losses gdp ->
  simulate df cri losses gdp ys g = Ok (sims, g') ->
  List.length sims = List.length ys
  /\ forall k, (k < List.length ys)%nat ->
       exists gk gk',
         (forall j, gk j = g (k * draws_per_year (nrows df) losses gdp + j)%nat)
         /\ simulate_year df cri losses gdp (nth k ys 0%Z) gk = Ok (nth k sims df, gk').
Proof.
  intros Hwf Hnames. revert g sims g'.
  induction ys as [|y ys IH]; intros g sims g'; simpl.
  - intros [= <- <-]. split; [reflexivity | intros k Hk; lia].
  - destruct (simulate_year df cri losses gdp y g) as [[temp g1]|e] eqn:Hy;
      simpl; [|discriminate].
    destruct (simulate df cri losses gdp ys g1) as [[rest g2]|e] eqn:Hrest;
      simpl; [|discriminate].
    intros [= <- <-].
    destruct (IH _ _ _ Hrest) as [Hlen Hk].
    split; [simpl; now rewrite Hlen|].
    intros [|k] Hlt.
    + exists g, g1. split; [intros j; f_equal; lia | exact Hy].
    + destruct (Hk k ltac:(lia)) as (gk & gk' & Hgk & Hsim).
      exists gk, gk'. split; [|exact Hsim].
      intros j. rewrite Hgk.
      destruct (simulate_year_spec df cri losses gdp y g temp g1 Hwf Hnames Hy)
        as (_ & _ & Hg1 & _).
      rewrite Hg1. f_equal. lia.
Qed.

Lemma simulate_total (df : frame F) (cri losses gdp : option string)
  (ys : list Z) (g : rng F) :
  names_ok cri losses gdp ->
  (forall c, cri = Some c \/ losses = Some c \/ gdp = Some c ->
     exists s, lookup c (columns df) = Some s /\ forallb is_number s = true) ->
  exists r, simulate df cri losses gdp ys g = Ok r.
Proof.
  intros Hnames Hnum. revert g. induction ys as [|y ys IH]; intros g; simpl.
  - now eexists.
  - destruct (simulate_year_total df cri losses gdp y g Hnames Hnum) as [[temp g1] ->].
    simpl. destruct (IH g1) as [[rest g2] ->]. simpl. now eexists.
Qed.

Lemma lookup_map_names (G : string -> column F) (names : list string) (name : string) :
  lookup name (map (fun nm => (nm, G nm)) names)
  = if in_dec string_dec name names then Some (G name) else None.
Proof.
  induction names as [|n names IH]; simpl; [reflexivity|].
  destruct (String.eqb_spec name n) as [->|Hne].
  - destruct (string_dec n n) as [E|E]; [reflexivity | now elim E].
  - rewrite IH. destruct (string_dec n name) as [E|E]; [symmetry in E; contradiction|].
    destruct (in_dec string_dec name names); reflexivity.
Qed.

Lemma nth_error_flat_map {A B : Type} (f : A -> list B) (l : list A) (n k i : nat) (d : A) :
  (forall x, In x l -> List.length (f x) = n) ->
  (k < List.length l)%nat -> (i < n)%nat ->
  nth_error (flat_map f l) (k * n + i) = nth_error (f (nth k l d)) i.
Proof.
  revert k. induction l as [|x l IH]; intros k Hlen Hk Hi; simpl in *; [lia|].
  destruct k as [|k].
  - simpl. rewrite nth_error_app1; [reflexivity|]. rewrite (Hlen x) by (now left). exact Hi.
  - rewrite nth_error_app2 by (rewrite (Hlen x) by (now left); simpl; lia).
    rewrite (Hlen x) by (now left).
    replace (S k * n + i - n)%nat with (k * n + i)%nat by (simpl; lia).
    apply IH; [|lia|exact Hi]. intros y Hy. apply Hlen. now right.
Qed.

Lemma length_flat_map_const {A B : Type} (f : A -> list B) (l : list A) (n : nat) :
  (forall x, In x l -> List.length (f x) = n) ->
  List.length (flat_map f l) = (List.length l * n)%nat.
Proof.
  induction l as [|x l IH]; intros Hlen; simpl; [reflexivity|].
  rewrite length_app, (Hlen x) by (now left). rewrite IH; [simpl; lia|].
  intros y Hy. apply Hlen. now right.
Qed.

Lemma list_sum_const {A : Type} (f : A -> nat) (l : list A) (n : nat) :
  (forall x, In x l -> f x = n) -> list_sum (map f l) = (List.length l * n)%nat.
Proof.
  induction l as [|x l IH]; intros Hf; simpl; [reflexivity|].
  rewrite (Hf x) by (now left). rewrite IH; [simpl; lia|].
  intros y Hy. apply Hf. now right.
Qed.

Lemma col_or_nan_length (name : string) (df : frame F) :
  wf_frame df -> List.length (col_or_nan name df) = nrows df.
Proof.
  intros Hwf. unfold col_or_nan.
  destruct (lookup name (columns df)) as [col|] eqn:E.
  - exact (lookup_wf df name col Hwf E).
  - apply repeat_length.
Qed.

(** Frames of [n] rows each, concatenated. *)
Lemma concat_nrows (frames : list (frame F)) (n : nat) :
  (forall f, In f frames -> nrows f = n) ->
  nrows (concat frames) = (List.length frames * n)%nat.
Proof. intros Hn. simpl. now apply list_sum_const. Qed.

Lemma concat_wf (frames : list (frame F)) (n : nat) :
  (forall f, In f frames -> wf_frame f /\ nrows f = n) ->
  wf_frame (concat frames).
Proof.
  intros Hf. unfold wf_frame.
  rewrite (concat_nrows frames n) by (intros f Hin; now apply Hf).
  unfold concat; simpl. destruct frames as [|f0 rest]; [constructor|].
  apply Forall_map, Forall_forall. intros name _. simpl snd.
  apply (length_flat_map_const (col_or_nan name) (f0 :: rest) n). intros f Hin.
  destruct (Hf f Hin) as [Hwf Hnf]. rewrite <- Hnf. now apply col_or_nan_length.
Qed.

Lemma cell_at_concat (frames : list (frame F)) (name : string) (n k i : nat)
  (d : frame F) :
  (forall f, In f frames -> wf_frame f /\ nrows f = n) ->
  (forall f, In f frames -> lookup name (columns f) <> None) ->
  (k < List.length frames)%nat -> (i < n)%nat ->
  cell_at (concat frames) name (k * n + i) = cell_at (nth k frames d) name i.
Proof.
  intros Hf Hhas Hk Hi. unfold cell_at at 1. unfold concat; simpl.
  destruct frames as [|f0 rest]; [simpl in Hk; lia|].
  rewrite lookup_map_names.
  destruct (in_dec string_dec name (headers f0)) as [_|Hnot].
  - rewrite (nth_error_flat_map (col_or_nan name) (f0 :: rest) n k i d); try assumption.
    + unfold cell_at, col_or_nan.
      destruct (lookup name (columns (nth k (f0 :: rest) d))) eqn:E; [reflexivity|].
      exfalso. apply (Hhas (nth k (f0 :: rest) d)); [now apply nth_In | exact E].
    + intros f Hin. destruct (Hf f Hin) as [Hwf Hnf]. rewrite <- Hnf.
      now apply col_or_nan_length.
  - exfalso. apply Hnot. apply lookup_headers.
    destruct (lookup name (columns f0)) as [col|] eqn:E; [now exists col|].
    exfalso. apply (Hhas f0); [now left | exact E].
Qed.

Lemma cell_at_concat_none (f0 : frame F) (rest : list (frame F)) (name : string) (r : nat) :
  lookup name (columns f0) = None -> cell_at (concat (f0 :: rest)) name r = None.
Proof.
  intros Hnone. unfold cell_at, concat; simpl. rewrite lookup_map_names.
  destruct (in_dec string_dec name (headers f0)) as [Hin|_]; [|reflexivity].
  apply lookup_headers in Hin. destruct Hin as [col Hc]. congruence.
Qed.

End AllYears.

(* ------------------------------------------------------------------ *)
(** ** The synthetic year expansion *)

Section YearExpansion.

Context {F : Type} `{Num F}.

Open Scope string_scope.

Lemma rename_cols_wf (raw : frame F) : wf_frame raw -> wf_frame (rename_cols raw).
Proof.
  unfold wf_frame, rename_cols, headers, normalize_cols. simpl.
  generalize (nrows raw). intros n.
  induction 1 as [|[name col] cs Hc _ IH]; simpl; constructor; auto.
Qed.

Lemma years_nth (k : nat) : (k < 25)%nat -> nth k years 0%Z = (2000 + Z.of_nat k)%Z.
Proof.
  intros Hk. unfold years.
  now apply (nth_map_seq (fun j => (2000 + Z.of_nat j)%Z)).
Qed.

Lemma years_length : List.length years = 25%nat.
Proof. reflexivity. Qed.

Lemma picked_names_ok (cols : list string) :
  names_ok (cri_column cols) (losses_column cols) (gdp_pc_column cols).
Proof.
  unfold names_ok, cri_column, losses_column, gdp_pc_column.
  split; [|split]; intros c Hc; apply pick_col_in in Hc; simpl in Hc;
    repeat split; intros ->; intuition discriminate.
Qed.

Lemma nth_error_nth_lt {A : Type} (l : list A) (i : nat) (d : A) :
  (i < List.length l)%nat -> nth_error l i = Some (nth i l d).
Proof. intros Hi. now apply nth_error_nth'. Qed.

(** The sample of one row and year is drawn by no other row, year or
    array. *)
Lemma draw_index_inj (n : nat) (losses gdp : option string)
  (d d' : draw) (k k' i i' : nat) :
  drawn d losses gdp = true -> drawn d' losses gdp = true ->
  (i < n)%nat -> (i' < n)%nat ->
  draw_index n losses gdp d k i = draw_index n losses gdp d' k' i' ->
  d = d' /\ k = k' /\ i = i'.
Proof.
  intros Hd Hd' Hi Hi'. unfold draw_index, draws_per_year.
  set (m := (n * (1 + flag losses + flag gdp))%nat).
  set (off := fun d => match d with
                       | ForCri => 0%nat
                       | ForLosses => n
                       | ForFatalities => (n * (1 + flag losses))%nat
                       end).
  change (k * m + off d + i = k' * m + off d' + i' -> d = d' /\ k = k' /\ i = i')%nat.
  assert (Hb : forall e j, drawn e losses gdp = true -> (j < n)%nat -> (off e + j < m)%nat).
  { intros e j He Hj. unfold m, off.
    destruct e, losses, gdp; simpl in *; try discriminate; lia. }
  intros E.
  destruct (Nat.div_mod_unique m k k' (off d + i) (off d' + i')
              (Hb d i Hd Hi) (Hb d' i' Hd' Hi') ltac:(lia)) as [-> Hr].
  unfold off in Hr.
  destruct d, d', losses, gdp; simpl in *; try discriminate;
    repeat split; try reflexivity; try lia.
Qed.

Ltac same_sample g :=
  match goal with
  | |- context [g ?a] =>
      match goal with
      | |- context [g ?b] =>
          tryif constr_eq a b then fail
          else (replace b with a by lia; reflexivity)
      end
  end.

(** The expansion succeeds when the mapped columns are numeric. *)
Lemma expand_total (raw : frame F) (g : rng F) :
  let df := set_scalar (rename_cols raw) "year" (CInt 2024) in
  let cols := headers (rename_cols raw) in
  let cri := cri_column cols in
  let losses := losses_column cols in
  let gdp := gdp_pc_column cols in
  (forall c s, cri = Some c \/ losses = Some c \/ gdp = Some c ->
     lookup c (columns df) = Some s -> forallb is_number s = true) ->
  exists out, expand df cri losses gdp g = Ok out.
Proof.
  intros df cols cri losses gdp.
  assert (Hnames : names_ok cri losses gdp) by apply picked_names_ok.
  intros Hnum.
  assert (Hcols : forall c, cri = Some c \/ losses = Some c \/ gdp = Some c ->
                    exists s, lookup c (columns df) = Some s
                              /\ forallb is_number s = true).
  { intros c Hc.
    assert (Hin : In c cols).
    { apply mem_In.
      destruct Hc as [Hc|[Hc|Hc]];
        destruct (pick_col_some _ _ _ Hc) as (b & a & _ & Hm & _); exact Hm. }
    assert (Hne : c <> "year").
    { destruct Hnames as (N1 & N2 & N3).
      destruct Hc as [Hc|[Hc|Hc]];
        [exact (N1 c Hc) | exact (proj1 (N2 c Hc)) | exact (proj1 (N3 c Hc))]. }
    apply lookup_headers in Hin. destruct Hin as [s Hs].
    assert (Hs' : lookup c (columns df) = Some s).
    { unfold df, set_scalar, set_col. simpl columns.
      now rewrite lookup_assign_other. }
    exists s. split; [exact Hs' | exact (Hnum c s Hc Hs')]. }
  unfold expand.
  destruct (simulate_total df cri losses gdp years g Hnames Hcols) as [[sims g'] ->].
  simpl. now eexists.
Qed.

(** The frame the expansion returns, row by row. *)
Lemma expand_spec (raw : frame F) (g : rng F) (out : frame F) :
  wf_frame raw ->
  let df := set_scalar (rename_cols raw) "year" (CInt 2024) in
  let cols := headers (rename_cols raw) in
  let cri := cri_column cols in
  let losses := losses_column cols in
  let gdp := gdp_pc_column cols in
  let n := nrows raw in
  let sample := fun d k i => g (draw_index n losses gdp d k i) in
  expand df cri losses gdp g = Ok out ->
  nrows out = (25 * n)%nat
  /\ wf_frame out
  /\ forall k i, (k < 25)%nat -> (i < n)%nat ->
       let r := (k * n + i)%nat in
       cell_at out "year" r = Some (CInt (2000 + Z.of_nat k))
       /\ (forall c, cri = Some c ->
             exists x,
               cell_at df c i = Some x
               /\ cell_at out "cri_score" r
                  = Some (CNum (to_float x
                                * factor (lit (-0.3)) (lit 0.3)
                                         (sample ForCri k i))%num))
       /\ (forall c, losses = Some c ->
             exists x,
               cell_at df c i = Some x
               /\ cell_at out "losses_usdm_ppp_total" r
                  = Some (CNum (to_float x
                                * factor (lit (-0.25)) (lit 0.25)
                                         (sample ForLosses k i))%num))
       /\ (forall c, gdp = Some c ->
             exists x,
               cell_at df c i = Some x
               /\ cell_at out "fatalities_total" r
                  = Some (CNum (to_float x
                                * factor (lit (-0.3)) (lit 0.3)
                                         (sample ForFatalities k i))%num))
       /\ (forall name,
             name <> "year" -> name <> "cri_score" ->
             name <> "losses_usdm_ppp_total" -> name <> "fatalities_total" ->
             cell_at out name r = cell_at df name i).
Proof.
  intros Hraw df cols cri losses gdp n sample.
  assert (Hwf : wf_frame df) by (apply set_scalar_wf, rename_cols_wf, Hraw).
  assert (Hnames : names_ok cri losses gdp) by apply picked_names_ok.
  assert (Hn : nrows df = n) by reflexivity.
  intros Hexp. unfold expand in Hexp.
  destruct (simulate df cri losses gdp years g) as [[sims g']|e] eqn:Hsim;
    simpl in Hexp; [|discriminate].
  injection Hexp as <-.
  destruct (simulate_spec df cri losses gdp years g sims g' Hwf Hnames Hsim)
    as [Hlen Hyears].
  rewrite years_length in Hlen, Hyears.
  assert (Hframes : forall f, In f sims -> wf_frame f /\ nrows f = n).
  { intros f Hin. destruct (In_nth _ _ df Hin) as (k & Hk & <-).
    destruct (Hyears k ltac:(lia)) as (gk & gk' & _ & Hy).
    destruct (simulate_year_spec _ _ _ _ _ _ _ _ Hwf Hnames Hy) as (Hnr & Hw & _).
    now split. }
  split; [|split].
  + rewrite (concat_nrows sims n) by (intros f Hin; now apply Hframes). now rewrite Hlen.
  + now apply (concat_wf sims n).
  + intros k i Hk Hi r.
    destruct (Hyears k Hk) as (gk & gk' & Hgk & Hy).
    destruct (simulate_year_spec _ _ _ _ _ _ _ _ Hwf Hnames Hy)
      as (_ & _ & _ & Hyear & Hcri & Hlosses & Hgdp & Hother).
    rewrite Hn in *.
    (* every year frame has the column *)
    assert (Hhas : forall name,
               lookup name (columns (nth k sims df)) <> None ->
               (forall f, In f sims ->
                  (lookup name (columns f) <> None
                   <-> lookup name (columns (nth k sims df)) <> None)) ->
               cell_at (concat sims) name r = cell_at (nth k sims df) name i).
    { intros name Hsome Hall. unfold r.
      apply cell_at_concat; try assumption; [|lia].
      intros f Hin. now apply Hall. }
    assert (Hsame : forall name f f',
               In f sims -> In f' sims ->
               (name = "year"
                \/ (name = "cri_score" /\ cri <> None)
                \/ (name = "losses_usdm_ppp_total" /\ losses <> None)
                \/ (name = "fatalities_total" /\ gdp <> None)
                \/ (name <> "year" /\ name <> "cri_score"
                    /\ name <> "losses_usdm_ppp_total"
                    /\ name <> "fatalities_total")) ->
               lookup name (columns f) <> None ->
               lookup name (columns f') <> None).
    { intros name f f' Hin Hin' Hcase Hf.
      destruct (In_nth _ _ df Hin) as (a & Ha & <-).
      destruct (In_nth _ _ df Hin') as (b & Hb & <-).
      destruct (Hyears a ltac:(lia)) as (ga & ga' & _ & Hya).
      destruct (Hyears b ltac:(lia)) as (gb & gb' & _ & Hyb).
      destruct (simulate_year_spec _ _ _ _ _ _ _ _ Hwf Hnames Hya)
        as (_ & _ & _ & Ay & Ac & Al & Ag & Ao).
      destruct (simulate_year_spec _ _ _ _ _ _ _ _ Hwf Hnames Hyb)
        as (_ & _ & _ & By & Bc & Bl & Bg & Bo).
      destruct Hcase as [->|[[-> Hc]|[[-> Hc]|[[-> Hc]|(H1 & H2 & H3 & H4)]]]].
      - rewrite By. discriminate.
      - destruct cri as [c|]; [|now elim Hc].
        destruct (Bc c eq_refl) as (s & v & _ & -> & _). discriminate.
      - destruct losses as [c|]; [|now elim Hc].
        destruct (Bl c eq_refl) as (s & v & _ & -> & _). discriminate.
      - destruct gdp as [c|]; [|now elim Hc].
        destruct (Bg c eq_refl) as (s & v & _ & -> & _). discriminate.
      - rewrite (Bo name H1 H2 H3 H4). rewrite (Ao name H1 H2 H3 H4) in Hf. exact Hf. }
    assert (Hk' : In (nth k sims df) sims) by (apply nth_In; lia).
    repeat split.
    * rewrite Hhas.
      -- unfold cell_at. rewrite Hyear.
         rewrite (nth_error_nth_lt _ i (CInt 0)) by (now rewrite repeat_length).
         rewrite nth_repeat_lt by exact Hi. now rewrite years_nth.
      -- rewrite Hyear. discriminate.
      -- intros f Hin. split; intros Hf.
         ++ rewrite Hyear. discriminate.
         ++ apply (Hsame "year" (nth k sims df) f Hk' Hin); [now left | exact Hf].
    * intros c Hc. destruct (Hcri c Hc) as (s & v & Hs & Hv & Hlv & Hnth).
      exists (nth i s (CNum nan)). split.
      -- unfold cell_at. rewrite Hs. apply nth_error_nth_lt.
         rewrite (lookup_wf df c s Hwf Hs). lia.
      -- rewrite Hhas.
         ++ unfold cell_at. rewrite Hv.
            rewrite (nth_error_nth_lt _ i (CNum nan)) by lia.
            rewrite (Hnth i Hi), Hgk. unfold sample, draw_index.
            same_sample g.
         ++ rewrite Hv. discriminate.
         ++ intros f Hin. split; intros Hf.
            ** rewrite Hv. discriminate.
            ** apply (Hsame "cri_score" (nth k sims df) f Hk' Hin); [|exact Hf].
               right. left. split; [reflexivity | rewrite Hc; discriminate].
    * intros c Hc. destruct (Hlosses c Hc) as (s & v & Hs & Hv & Hlv & Hnth).
      exists (nth i s (CNum nan)). split.
      -- unfold cell_at. rewrite Hs. apply nth_error_nth_lt.
         rewrite (lookup_wf df c s Hwf Hs). lia.
      -- rewrite Hhas.
         ++ unfold cell_at. rewrite Hv.
            rewrite (nth_error_nth_lt _ i (CNum nan)) by lia.
            rewrite (Hnth i Hi), Hgk. unfold sample, draw_index.
            same_sample g.
         ++ rewrite Hv. discriminate.
         ++ intros f Hin. split; intros Hf.
            ** rewrite Hv. discriminate.
            ** apply (Hsame "losses_usdm_ppp_total" (nth k sims df) f Hk' Hin); [|exact Hf].
               right. right. left. split; [reflexivity | rewrite Hc; discriminate].
    * intros c Hc. destruct (Hgdp c Hc) as (s & v & Hs & Hv & Hlv & Hnth).
      exists (nth i s (CNum nan)). split.
      -- unfold cell_at. rewrite Hs. apply nth_error_nth_lt.
         rewrite (lookup_wf df c s Hwf Hs). lia.
      -- rewrite Hhas.
         ++ unfold cell_at. rewrite Hv.
            rewrite (nth_error_nth_lt _ i (CNum nan)) by lia.
            rewrite (Hnth i Hi), Hgk. unfold sample, draw_index.
            same_sample g.
         ++ rewrite Hv. discriminate.
         ++ intros f Hin. split; intros Hf.
            ** rewrite Hv. discriminate.
            ** apply (Hsame "fatalities_total" (nth k sims df) f Hk' Hin); [|exact Hf].
               right. right. right. left. split; [reflexivity | rewrite Hc; discriminate].
    * intros name H1 H2 H3 H4.
      destruct (lookup name (columns df)) as [col|] eqn:Hcol.
      -- rewrite Hhas.
         ++ unfold cell_at. now rewrite (Hother name H1 H2 H3 H4), Hcol.
         ++ rewrite (Hother name H1 H2 H3 H4), Hcol. discriminate.
         ++ intros f Hin. split; intros Hf.
            ** rewrite (Hother name H1 H2 H3 H4), Hcol. discriminate.
            ** apply (Hsame name (nth k sims df) f Hk' Hin); [|exact Hf].
               repeat right. now repeat split.
      -- unfold cell_at at 2. rewrite Hcol.
         destruct sims as [|f0 rest]; [simpl in Hlen; discriminate|].
         apply cell_at_concat_none.
         destruct (Hyears 0%nat ltac:(lia)) as (g0 & g0' & _ & Hy0).
         destruct (simulate_year_spec _ _ _ _ _ _ _ _ Hwf Hnames Hy0)
           as (_ & _ & _ & _ & _ & _ & _ & Ho).
         simpl in Ho. now rewrite (Ho name H1 H2 H3 H4).
Qed.


End YearExpansion.

(* ------------------------------------------------------------------ *)
(** ** Standardisation *)

Section Standardisation.

Context {F : Type} `{Num F} `{!NumFacts F}.
Variable parse_float : string -> F.

Open Scope string_scope.

Lemma select_map {A B : Type} (f : A -> B) (mask : list bool) (xs : list A) :
  select mask (map f xs) = map f (select mask xs).
Proof.
  revert xs. induction mask as [|b mask IH]; intros [|x xs]; simpl; try reflexivity.
  destruct b; simpl; now rewrite IH.
Qed.

Lemma select_Forall {A : Type} (P : A -> Prop) (mask : list bool) (xs : list A) :
  Forall P xs -> Forall P (select mask xs).
Proof.
  intros Hall. revert mask. induction Hall as [|x xs Hx _ IH]; intros [|b mask]; simpl;
    try constructor.
  destruct b; [constructor; [exact Hx | apply IH] | apply IH].
Qed.

Lemma select_sorted {A : Type} (R : A -> A -> Prop) (mask : list bool) (xs : list A) :
  StronglySorted R xs -> StronglySorted R (select mask xs).
Proof.
  intros Hs. revert mask. induction Hs as [|x xs _ IH Hx]; intros [|b mask]; simpl;
    try constructor.
  destruct b; [|apply IH].
  constructor; [apply IH | now apply select_Forall].
Qed.

Lemma sorted_of_nth {A : Type} (R : A -> A -> Prop) (l : list A) (d : A) :
  (forall p q, (p < q < List.length l)%nat -> R (nth p l d) (nth q l d)) ->
  StronglySorted R l.
Proof.
  induction l as [|x l IH]; intros Hpq; constructor.
  - apply IH. intros p q Hlt. apply (Hpq (S p) (S q)). simpl. lia.
  - apply Forall_forall. intros e He.
    destruct (In_nth _ _ d He) as (t & Ht & <-).
    apply (Hpq 0%nat (S t)). simpl. lia.
Qed.

Lemma sorted_nth {A : Type} (R : A -> A -> Prop) (l : list A) (d : A) (p q : nat) :
  StronglySorted R l -> (p < q < List.length l)%nat -> R (nth p l d) (nth q l d).
Proof.
  intros Hs. revert p q. induction Hs as [|x l _ IH Hx]; intros p q Hlt; simpl in *; [lia|].
  destruct q as [|q]; [lia|]. destruct p as [|p].
  - rewrite Forall_forall in Hx. apply Hx. apply nth_In. lia.
  - apply IH. lia.
Qed.

(** The frame [df_std], field by field. *)
Lemma standardize_inv (df : frame F) (cc : string) (cri losses gdp : option string)
  (std : std_frame F) :
  standardize parse_float df cc cri losses gdp = Ok std ->
  exists c y,
    lookup cc (columns df) = Some c
    /\ lookup "year" (columns df) = Some y
    /\ let keep := keep_rows c (map (to_numeric parse_float) y) in
       let num := fun col =>
         map (fun x => fillna0 (to_float (to_numeric parse_float x))) (select keep col) in
       country std = select keep c
       /\ year std = select keep (map (to_numeric parse_float) y)
       /\ temperature_anomaly std
          = num (mapped_or parse_float df cri
                   (map CNum (row_sums (nrows df) (select_number df))))
       /\ co2_emission std
          = num (mapped_or parse_float df losses (repeat (CNum (lit 0)) (nrows df)))
       /\ sea_level_change std
          = num (mapped_or parse_float df gdp (repeat (CNum (lit 0)) (nrows df))).
Proof.
  unfold standardize, get_col.
  destruct (lookup cc (columns df)) as [c|]; simpl; [|discriminate].
  destruct (lookup "year" (columns df)) as [y|]; simpl; [|discriminate].
  intros [= <-]. exists c, y. simpl. repeat split.
Qed.

Lemma main_inv (raw : frame F) (g : rng F) (out : feat_frame F) :
  main parse_float raw g = Ok out ->
  let df := set_scalar (rename_cols raw) "year" (CInt 2024) in
  let cols := headers (rename_cols raw) in
  exists cc expanded std,
    country_column cols = Some cc
    /\ expand df (cri_column cols) (losses_column cols) (gdp_pc_column cols) g
       = Ok expanded
    /\ standardize parse_float expanded cc
         (cri_column cols) (losses_column cols) (gdp_pc_column cols) = Ok std
    /\ out = compute_features std.
Proof.
  intros Hmain df cols. unfold main in Hmain. fold cols in Hmain. fold df in Hmain.
  destruct (country_column cols) as [cc|]; [|discriminate].
  destruct (expand df _ _ _ g) as [expanded|e]; simpl in Hmain; [|discriminate].
  destruct (standardize parse_float expanded cc _ _ _) as [std|e] eqn:Hstd;
    simpl in Hmain; [|discriminate].
  injection Hmain as <-. now exists cc, expanded, std.
Qed.

(** An unmapped field that defaults to 0.0 is 0.0 in every row. *)
Lemma default_zero (keep : list bool) (n : nat) :
  Forall (fun x : F => x = lit 0)
    (map (fun x => fillna0 (to_float (to_numeric parse_float x)))
       (select keep (repeat (CNum (lit 0)) n))).
Proof.
  apply Forall_map, select_Forall, Forall_forall.
  intros x Hx. apply repeat_spec in Hx. subst x. simpl.
  unfold fillna0. now rewrite zero_not_nan.
Qed.

(** The year column of the expanded frame is ascending. *)
Lemma expanded_years_sorted (raw : frame F) (g : rng F) (expanded : frame F)
  (y : column F) :
  wf_frame raw ->
  let df := set_scalar (rename_cols raw) "year" (CInt 2024) in
  let cols := headers (rename_cols raw) in
  expand df (cri_column cols) (losses_column cols) (gdp_pc_column cols) g = Ok expanded ->
  lookup "year" (columns expanded) = Some y ->
  Forall (fun c => year_le c c) (map (to_numeric parse_float) y)
  /\ StronglySorted year_le (map (to_numeric parse_float) y).
Proof.
  intros Hraw df cols Hexp Hy.
  destruct (expand_spec raw g expanded Hraw Hexp) as (Hrows & Hwf & Hcells).
  fold df in Hcells. fold cols in Hcells.
  pose proof (lookup_wf expanded "year" y Hwf Hy) as Hlen. rewrite Hrows in Hlen.
  set (n := nrows raw) in *.
  assert (Hnth : forall p, (p < List.length y)%nat ->
                   nth p y (CNum nan) = CInt (2000 + Z.of_nat (p / n))).
  { intros p Hp.
    assert (Hn : (0 < n)%nat) by (destruct n; [simpl in Hlen; lia | lia]).
    assert (Hk : (p / n < 25)%nat) by (apply Nat.Div0.div_lt_upper_bound; lia).
    assert (Hi : (p mod n < n)%nat) by (apply Nat.mod_upper_bound; lia).
    destruct (Hcells (p / n)%nat (p mod n)%nat Hk Hi) as (Hyear & _).
    unfold cell_at in Hyear. rewrite Hy in Hyear.
    replace (p / n * n + p mod n)%nat with p in Hyear
      by (rewrite (Nat.div_mod_eq p n) at 1; lia).
    apply (nth_error_nth _ _ (CNum nan)) in Hyear. exact Hyear. }
  assert (Hnum : forall p, (p < List.length y)%nat ->
                   nth p (map (to_numeric parse_float) y) (CNum nan)
                   = CInt (2000 + Z.of_nat (p / n))).
  { intros p Hp. rewrite (nth_map_in _ y p (CNum nan) (CNum nan)) by exact Hp.
    now rewrite (Hnth p Hp). }
  split.
  - apply Forall_forall. intros c Hc.
    destruct (In_nth _ _ (CNum nan) Hc) as (p & Hp & <-).
    rewrite length_map in Hp. rewrite (Hnum p Hp).
    eexists _, _. repeat split. lia.
  - apply (sorted_of_nth year_le _ (CNum nan)). intros p q Hpq.
    rewrite length_map in Hpq.
    rewrite (Hnum p), (Hnum q) by lia.
    eexists _, _. repeat split.
    assert (p / n <= q / n)%nat by (apply Nat.Div0.div_le_mono; lia). lia.
Qed.

(** The rows handed to the feature engine are in ascending order of
    year. *)
Lemma main_years_ascending (raw : frame F) (g : rng F) (out : feat_frame F) :
  wf_frame raw ->
  main parse_float raw g = Ok out ->
  forall i j, (i <= j < List.length (year (base out)))%nat ->
    year_le (nth i (year (base out)) (CNum nan)) (nth j (year (base out)) (CNum nan)).
Proof.
  intros Hraw Hmain i j Hij.
  destruct (main_inv raw g out Hmain) as (cc & expanded & std & _ & Hexp & Hstd & ->).
  destruct (standardize_inv _ _ _ _ _ _ Hstd) as (c & y & _ & Hy & _ & Hyear & _).
  change (base (compute_features std)) with std in *.
  rewrite Hyear in *.
  destruct (expanded_years_sorted raw g expanded y Hraw Hexp Hy) as [Hint Hsorted].
  destruct (Nat.eq_dec i j) as [->|Hne].
  - apply (select_Forall _ (keep_rows c (map (to_numeric parse_float) y))) in Hint.
    rewrite Forall_forall in Hint. apply Hint. apply nth_In. lia.
  - apply sorted_nth; [now apply select_sorted | lia].
Qed.

End Standardisation.

(* ------------------------------------------------------------------ *)
(** ** The claims on the pipeline *)

Section PipelineClaims.

Context {F : Type} `{Num F} `{!NumFacts F}.
Variable parse_float : string -> F.

Open Scope string_scope.

(** C6. Within a country (the rows of one key, in row order, which in
    the pipeline is the order of the years), co2_growth is the change of
    co2_emission from the previous row, [current / previous - 1], with
    NaN replaced by 0.0; the first row of each country, which has the
    earliest year, has co2_growth exactly 0.0. *)
Theorem co2_growth_first_period :
  (forall (df : std_frame F) (i : nat),
      (i < List.length (country df))%nat ->
      (forall j, (j < i)%nat ->
         cell_eqb (nth j (country df) (CNum nan)) (nth i (country df) (CNum nan))
         = false) ->
      nth i (co2_growth (compute_features df)) nan = lit 0)
  /\ (forall (df : std_frame F) (j i : nat),
         List.length (co2_emission df) = List.length (country df) ->
         (j < i < List.length (country df))%nat ->
         let k := nth i (country df) (CNum nan) in
         cell_eqb k k = true ->
         cell_eqb (nth j (country df) (CNum nan)) k = true ->
         (forall l, (j < l < i)%nat ->
            cell_eqb (nth l (country df) (CNum nan)) k = false) ->
         nth i (co2_growth (compute_features df)) nan
         = fillna0 (nth i (co2_emission df) nan / nth j (co2_emission df) nan
                    - lit 1)%num)
  /\ (forall (raw : frame F) (g : rng F) (out : feat_frame F),
         wf_frame raw ->
         main parse_float raw g = Ok out ->
         forall i j, (i <= j < List.length (year (base out)))%nat ->
           year_le (nth i (year (base out)) (CNum nan))
                   (nth j (year (base out)) (CNum nan))).
Proof.
  split; [|split].
  - apply co2_growth_first.
  - apply co2_growth_next.
  - apply main_years_ascending.
Qed.

(** C2 (as amended). In every standardised record, co2_emission is 0.0
    when no losses column was mapped and sea_level_change is 0.0 when no
    fatalities column was mapped.  temperature_anomaly has another
    default: when no risk-index column was mapped it is, for each row kept,
    the sum over the numeric columns of the expanded frame (the year among
    them), NaN skipped. *)
Theorem unmapped_fields_default (raw : frame F) (g : rng F) (out : feat_frame F) :
  main parse_float raw g = Ok out ->
  let df := set_scalar (rename_cols raw) "year" (CInt 2024) in
  let cols := headers (rename_cols raw) in
  (losses_column cols = None ->
   Forall (fun x => x = lit 0) (co2_emission (base out)))
  /\ (gdp_pc_column cols = None ->
      Forall (fun x => x = lit 0) (sea_level_change (base out)))
  /\ (cri_column cols = None ->
      exists cc expanded c y,
        country_column cols = Some cc
        /\ expand df None (losses_column cols) (gdp_pc_column cols) g = Ok expanded
        /\ lookup cc (columns expanded) = Some c
        /\ lookup "year" (columns expanded) = Some y
        /\ temperature_anomaly (base out)
           = map fillna0
               (select (keep_rows c (map (to_numeric parse_float) y))
                  (row_sums (nrows expanded) (select_number expanded)))).
Proof.
  intros Hmain df cols.
  destruct (main_inv parse_float raw g out Hmain)
    as (cc & expanded & std & Hcc & Hexp & Hstd & ->).
  fold df in Hexp. fold cols in Hcc, Hexp, Hstd.
  destruct (standardize_inv parse_float _ _ _ _ _ _ Hstd)
    as (c & y & Hc & Hy & _ & _ & Ht & He & Hs).
  change (base (compute_features std)) with std.
  split; [|split].
  - intros Hnone. rewrite He, Hnone. apply default_zero.
  - intros Hnone. rewrite Hs, Hnone. apply default_zero.
  - intros Hnone. exists cc, expanded, c, y.
    rewrite Hnone in Hexp. repeat split; try assumption.
    rewrite Ht, Hnone. simpl mapped_or.
    rewrite select_map, map_map. reflexivity.
Qed.

End PipelineClaims.

(* ------------------------------------------------------------------ *)
(** ** Binary64: the claims on concrete inputs *)

Section OnBinary64.

Open Scope string_scope.

(** In binary64 a positive number divided by 0.0 is +infinity, and
    stays so after the subtraction of 1. *)
Lemma positive_over_zero (x : float) :
  PrimFloat.ltb PrimFloat.zero x = true ->
  PrimFloat.sub (PrimFloat.div x PrimFloat.zero) PrimFloat.one = PrimFloat.infinity.
Proof.
  intros Hx. rewrite ltb_spec in Hx.
  assert (Hdiv : PrimFloat.div x PrimFloat.zero = PrimFloat.infinity).
  { apply Prim2SF_inj. rewrite div_spec.
    change (Prim2SF PrimFloat.zero) with (S754_zero false) in *.
    change (Prim2SF PrimFloat.infinity) with (S754_infinity false).
    destruct (Prim2SF x) as [s|s| |s m e]; try discriminate;
      destruct s; try discriminate; reflexivity. }
  rewrite Hdiv. reflexivity.
Qed.




(** C3, as stated, fails on ties: the first row's growth 0.0 is shared
    by three of the four rows; its co2_growth_norm is 0.5, the fraction of
    values that are <= it is 0.75. *)
Lemma tied_rank_is_not_fraction_le :
  co2_growth (compute_features Samples.two_countries)
  = [Samples.f64 0; PrimFloat.infinity; Samples.f64 0; Samples.f64 0]
  /\ nth 0 (co2_growth_norm (compute_features Samples.two_countries)) nan = Samples.f64 0.5
  /\ fraction_le (co2_growth (compute_features Samples.two_countries)) (Samples.f64 0)
     = Samples.f64 0.75
  /\ feqb (Samples.f64 0.5) (Samples.f64 0.75) = false.
Proof. repeat split. Qed.


(** Rounding has the same effect on finite values: the mean of 0.1,
    0.1, 0.1 computed in binary64 is not 0.1, the standard deviation
    computed is not zero, and the z-scores are -1.0. *)
Remark constant_tenths_rounding :
  group (country Samples.tenths) (CStr "A") (temperature_anomaly Samples.tenths)
  = [Samples.f64 0.1; Samples.f64 0.1; Samples.f64 0.1]
  /\ feqb (mean [Samples.f64 0.1; Samples.f64 0.1; Samples.f64 0.1]) (Samples.f64 0.1)
     = false
  /\ feqb (std [Samples.f64 0.1; Samples.f64 0.1; Samples.f64 0.1]) (lit 0) = false
  /\ firstn 3 (temp_anomaly_z (compute_features Samples.tenths))
     = [Samples.f64 (-1); Samples.f64 (-1); Samples.f64 (-1)].
Proof. repeat split. Qed.

(** C2, as stated, fails for temperature_anomaly: with a country column
    only, no risk-index column is mapped, and the field of the first row
    is 2000.0, the year. *)
Lemma unmapped_temperature_anomaly_is_year :
  cri_column (headers (rename_cols Samples.only_country)) = None
  /\ match main Samples.no_parse Samples.only_country Samples.halves with
     | Ok out =>
         nth 0 (temperature_anomaly (base out)) nan = Samples.f64 2000
         /\ List.length (temperature_anomaly (base out)) = 50%nat
     | Err _ => False
     end
  /\ feqb (Samples.f64 2000) (lit 0) = false.
Proof.
  split; [reflexivity | split; [|reflexivity]].
  vm_compute. split; reflexivity.
Qed.

End OnBinary64.

(* ------------------------------------------------------------------ *)
(** ** Bounds and monotonicity of the percentile rank *)

Section RankOrder.

Context {F : Type} `{Num F} `{!NumFacts F} `{!OrderLaws F}.

Lemma count_if_le_length (p : F -> bool) (xs : list F) :
  (count_if p xs <= List.length xs)%nat.
Proof. unfold count_if. apply filter_length_le. Qed.

Lemma count_if_ext (p q : F -> bool) (xs : list F) :
  (forall x, In x xs -> p x = q x) -> count_if p xs = count_if q xs.
Proof.
  intros Hext. unfold count_if. f_equal. now apply filter_ext_in.
Qed.

(** Two disjoint classes of values, both inside a third. *)
Lemma count_if_disjoint (p q r : F -> bool) (xs : list F) :
  (forall x, In x xs -> p x = true -> q x = false) ->
  (forall x, In x xs -> p x = true \/ q x = true -> r x = true) ->
  (count_if p xs + count_if q xs <= count_if r xs)%nat.
Proof.
  unfold count_if. induction xs as [|x xs IH]; intros Hd Hr; simpl; [lia|].
  assert (IH' : (List.length (filter p xs) + List.length (filter q xs)
                 <= List.length (filter r xs))%nat).
  { apply IH; intros y Hy; [apply Hd | apply Hr]; now right. }
  pose proof (Hd x (or_introl eq_refl)) as Hdx.
  pose proof (Hr x (or_introl eq_refl)) as Hrx.
  destruct (p x) eqn:Hp, (q x) eqn:Hq; simpl.
  - discriminate (Hdx eq_refl).
  - rewrite Hrx by now left. simpl. lia.
  - rewrite Hrx by now right. simpl. lia.
  - destruct (r x); simpl; lia.
Qed.

Lemma count_if_member (p : F -> bool) (xs : list F) (v : F) :
  In v xs -> p v = true -> (1 <= count_if p xs)%nat.
Proof.
  intros Hin Hp. unfold count_if.
  assert (Hf : In v (filter p xs)) by (apply filter_In; now split).
  destruct (filter p xs); [destruct Hf | simpl; lia].
Qed.

(** The counts behind the rank of a value that occurs in the list. *)
Lemma rank_counts (g : list F) (v : F) :
  In v g -> is_nan v = false ->
  let less := count_if (fun w => fltb w v) g in
  let dups := count_if (fun w => feqb w v) g in
  (1 <= dups)%nat /\ (less + dups <= List.length g)%nat.
Proof.
  intros Hin Hv less dups. split.
  - apply (count_if_member _ g v Hin). now apply eq_refl_not_nan.
  - transitivity (count_if (fun _ => true) g).
    + apply count_if_disjoint; [|reflexivity].
      intros x _ Hx. now apply lt_not_eq.
    + apply count_if_le_length.
Qed.

Lemma rank_of_bounds (g : list F) (v : F) :
  In v g -> is_nan v = false ->
  fleb (lit 0) (rank_of g v) = true /\ fleb (rank_of g v) (lit 1) = true.
Proof.
  intros Hin Hv. destruct (rank_counts g v Hin Hv) as [Hd Hl].
  unfold rank_of.
  set (less := count_if (fun w => fltb w v) g) in *.
  set (dups := count_if (fun w => feqb w v) g) in *.
  pose proof (sum_ranks_closed less dups) as Hs.
  assert (Hn : (0 < Z.of_nat (List.length g))%Z) by lia.
  split.
  - rewrite <- (zero_div (Z.of_nat (List.length g)) Hn).
    apply div_mono; [exact Hn|]. apply int_le_quotient; nia.
  - rewrite <- (div_self (Z.of_nat (List.length g)) Hn).
    apply div_mono; [exact Hn|]. apply quotient_le_int; nia.
Qed.

Lemma rank_of_monotone (g : list F) (v v' : F) :
  In v g -> In v' g -> is_nan v = false -> is_nan v' = false ->
  fleb v v' = true -> fleb (rank_of g v) (rank_of g v') = true.
Proof.
  intros Hin Hin' Hv Hv' Hle.
  destruct (rank_counts g v Hin Hv) as [Hd Hl].
  destruct (rank_counts g v' Hin' Hv') as [Hd' Hl'].
  assert (Hn : (0 < Z.of_nat (List.length g))%Z) by lia.
  destruct (le_lt_or_eq v v' Hle) as [Hlt|Heq].
  - (* strictly smaller: every value up to v is below v' *)
    assert (Hcount : (count_if (fun w => fltb w v) g + count_if (fun w => feqb w v) g
                      <= count_if (fun w => fltb w v') g)%nat).
    { apply count_if_disjoint.
      - intros x _ Hx. now apply lt_not_eq.
      - intros x _ [Hx|Hx];
          [now apply (lt_trans x v v') | now apply (eq_lt_trans x v v')]. }
    unfold rank_of.
    set (less := count_if (fun w => fltb w v) g) in *.
    set (dups := count_if (fun w => feqb w v) g) in *.
    set (less' := count_if (fun w => fltb w v') g) in *.
    set (dups' := count_if (fun w => feqb w v') g) in *.
    pose proof (sum_ranks_closed less dups) as Hs.
    pose proof (sum_ranks_closed less' dups') as Hs'.
    apply div_mono; [exact Hn|].
    apply (le_trans _ (of_Z (Z.of_nat (less + dups)))).
    + apply quotient_le_int; nia.
    + apply int_le_quotient; nia.
  - (* equal values have the same rank *)
    assert (E1 : count_if (fun w => fltb w v) g = count_if (fun w => fltb w v') g).
    { apply count_if_ext. intros x _. now apply lt_eq_compat. }
    assert (E2 : count_if (fun w => feqb w v) g = count_if (fun w => feqb w v') g).
    { apply count_if_ext. intros x _. now apply eq_eq_compat. }
    unfold rank_of. rewrite E1, E2.
    destruct (rank_of_bounds g v' Hin' Hv') as [H0 _].
    exact (le_refl_right _ _ H0).
Qed.


End RankOrder.

(* ------------------------------------------------------------------ *)
(** ** Exact arithmetic satisfies the order laws *)

Module ExactLaws.

Import Exact.

Lemma bool_ext (a b : bool) : (a = true <-> b = true) -> a = b.
Proof.
  destruct a, b; intros [H1 H2]; try reflexivity;
    [symmetry; now apply H1 | now apply H2].
Qed.

Lemma Qle_bool_compat (c a b : Q) : a == b -> Qle_bool c a = Qle_bool c b.
Proof. intros E. apply bool_ext. rewrite !Qle_bool_iff. now rewrite E. Qed.

Lemma Qeq_bool_compat (c a b : Q) : a == b -> Qeq_bool c a = Qeq_bool c b.
Proof. intros E. apply bool_ext. rewrite !Qeq_bool_iff. now rewrite E. Qed.

Lemma Qltb_iff (a b : Q) : Qle_bool a b && negb (Qeq_bool a b) = true <-> a < b.
Proof.
  rewrite andb_true_iff, negb_true_iff, Qle_bool_iff. split.
  - intros [Hle Hne]. apply Qle_lteq in Hle. destruct Hle as [Hlt|Heq]; [exact Hlt|].
    apply Qeq_bool_iff in Heq. congruence.
  - intros Hlt. split; [now apply Qlt_le_weak|].
    destruct (Qeq_bool a b) eqn:E; [|reflexivity].
    apply Qeq_bool_iff in E. rewrite E in Hlt. now apply Qlt_irrefl in Hlt.
Qed.

Lemma inject_Z_pos (n : Z) : (0 < n)%Z -> 0 < inject_Z n.
Proof. intros Hn. change 0 with (inject_Z 0). now rewrite <- Zlt_Qlt. Qed.

(** Division by a positive integer. *)
Lemma xdiv_pos (x : xq) (n : Z) :
  (0 < n)%Z ->
  xdiv x (Fin (inject_Z n))
  = match x with
    | Fin a => fin (a / inject_Z n)
    | other => other
    end.
Proof.
  intros Hn. pose proof (inject_Z_pos n Hn) as Hq.
  assert (E0 : Qeq_bool (inject_Z n) 0 = false).
  { destruct (Qeq_bool (inject_Z n) 0) eqn:E; [|reflexivity].
    apply Qeq_bool_iff in E. rewrite E in Hq. now apply Qlt_irrefl in Hq. }
  assert (E1 : Qle_bool 0 (inject_Z n) = true).
  { apply Qle_bool_iff. now apply Qlt_le_weak. }
  destruct x; simpl; rewrite ?E0, ?E1; reflexivity.
Qed.

Lemma xleb_fin (a b : Q) : xleb (fin a) (fin b) = true <-> a <= b.
Proof. unfold fin. simpl. rewrite Qle_bool_iff, !Qred_correct. reflexivity. Qed.

Lemma xleb_fin_l (a b : Q) : xleb (fin a) (Fin b) = true <-> a <= b.
Proof. unfold fin. simpl. rewrite Qle_bool_iff, Qred_correct. reflexivity. Qed.

Lemma xleb_fin_r (a b : Q) : xleb (Fin a) (fin b) = true <-> a <= b.
Proof. unfold fin. simpl. rewrite Qle_bool_iff, Qred_correct. reflexivity. Qed.

Lemma xltb_Fin (a b : Q) : xltb (Fin a) (Fin b) = true <-> a < b.
Proof. unfold xltb. simpl. apply Qltb_iff. Qed.

#[global] Instance xq_OrderLaws : OrderLaws xq.
Proof.
  split.
  - (* eq_refl_not_nan *)
    intros [q| | |]; simpl; try discriminate; try reflexivity.
    intros _. apply Qeq_bool_iff. reflexivity.
  - (* le_lt_or_eq *)
    intros x y Hle. change (xltb x y = true \/ xeqb x y = true).
    change (xleb x y = true) in Hle. unfold xltb. rewrite Hle.
    destruct (xeqb x y); auto.
  - (* lt_not_eq *)
    intros x y. change (xltb x y = true -> xeqb x y = false). unfold xltb.
    rewrite andb_true_iff, negb_true_iff. tauto.
  - (* lt_eq_compat *)
    intros w x y. change (xeqb x y = true -> xltb w x = xltb w y).
    destruct x as [a| | |], y as [b| | |]; simpl; try discriminate; try reflexivity.
    intros E. apply Qeq_bool_iff in E. unfold xltb.
    destruct w as [c| | |]; simpl; try reflexivity.
    now rewrite (Qle_bool_compat c a b E), (Qeq_bool_compat c a b E).
  - (* eq_eq_compat *)
    intros w x y. change (xeqb x y = true -> xeqb w x = xeqb w y).
    destruct x as [a| | |], y as [b| | |]; simpl; try discriminate; try reflexivity.
    intros E. apply Qeq_bool_iff in E.
    destruct w as [c| | |]; simpl; try reflexivity.
    exact (Qeq_bool_compat c a b E).
  - (* lt_trans *)
    intros w x y. change (xltb w x = true -> xltb x y = true -> xltb w y = true).
    destruct w as [c| | |], x as [a| | |], y as [b| | |];
      try discriminate; try reflexivity.
    rewrite !xltb_Fin. apply Qlt_trans.
  - (* eq_lt_trans *)
    intros w x y. change (xeqb w x = true -> xltb x y = true -> xltb w y = true).
    destruct w as [c| | |], x as [a| | |], y as [b| | |];
      try discriminate; try reflexivity.
    simpl xeqb. rewrite Qeq_bool_iff, !xltb_Fin. intros E. now rewrite E.
  - (* le_trans *)
    intros x y z. change (xleb x y = true -> xleb y z = true -> xleb x z = true).
    destruct x as [a| | |], y as [b| | |], z as [c| | |];
      try discriminate; try reflexivity.
    simpl. rewrite !Qle_bool_iff. apply Qle_trans.
  - (* le_refl_right *)
    intros x y. change (xleb x y = true -> xleb y y = true).
    destruct x as [a| | |], y as [b| | |]; try discriminate; try reflexivity;
      intros _; simpl; apply Qle_bool_iff, Qle_refl.
  - (* quotient_le_int *)
    intros s e m He Hle.
    change (xleb (xdiv (Fin (inject_Z s)) (Fin (inject_Z e))) (Fin (inject_Z m)) = true).
    rewrite (xdiv_pos _ e He). apply xleb_fin_l.
    apply Qle_shift_div_r; [now apply inject_Z_pos|].
    rewrite <- inject_Z_mult. now rewrite <- Zle_Qle.
  - (* int_le_quotient *)
    intros s e m He Hle.
    change (xleb (Fin (inject_Z m)) (xdiv (Fin (inject_Z s)) (Fin (inject_Z e))) = true).
    rewrite (xdiv_pos _ e He). apply xleb_fin_r.
    apply Qle_shift_div_l; [now apply inject_Z_pos|].
    rewrite <- inject_Z_mult. now rewrite <- Zle_Qle.
  - (* div_mono *)
    intros x y n Hn.
    change (xleb x y = true
            -> xleb (xdiv x (Fin (inject_Z n))) (xdiv y (Fin (inject_Z n))) = true).
    rewrite !(xdiv_pos _ n Hn).
    destruct x as [a| | |], y as [b| | |]; try discriminate; try reflexivity.
    simpl xleb at 1. rewrite Qle_bool_iff, xleb_fin. intros Hab.
    apply Qmult_le_compat_r; [exact Hab|].
    apply Qinv_le_0_compat, Qlt_le_weak. now apply inject_Z_pos.
  - (* div_self *)
    intros n Hn.
    change (xdiv (Fin (inject_Z n)) (Fin (inject_Z n)) = fin 1).
    rewrite (xdiv_pos _ n Hn). unfold fin. apply (f_equal Fin), Qred_complete.
    apply Qmult_inv_r. intros E. pose proof (inject_Z_pos n Hn) as Hq.
    rewrite E in Hq. now apply Qlt_irrefl in Hq.
  - (* zero_div *)
    intros n Hn.
    change (xdiv (Fin (inject_Z 0)) (Fin (inject_Z n)) = fin 0).
    rewrite (xdiv_pos _ n Hn). unfold fin. apply (f_equal Fin), Qred_complete.
    unfold Qdiv. apply Qmult_0_l.
Qed.

End ExactLaws.

(* ------------------------------------------------------------------ *)
(** ** Constant series in exact arithmetic *)

Module ExactZScore.

Import Exact.

(** The sum, from [a], of [k] copies of [q]. *)
Lemma fold_xadd_repeat (q a : Q) (k : nat) :
  exists t, fold_left xadd (repeat (Fin q) k) (Fin a) = Fin t
            /\ t == a + inject_Z (Z.of_nat k) * q.
Proof.
  revert a. induction k as [|k IH]; intros a.
  - exists a. split; [reflexivity|]. simpl. ring.
  - cbn [repeat fold_left]. change (xadd (Fin a) (Fin q)) with (Fin (Qred (a + q))).
    destruct (IH (Qred (a + q))) as (t & Ht & Et). exists t. split; [exact Ht|].
    rewrite Et, Qred_correct, Nat2Z.inj_succ, <- Z.add_1_r, inject_Z_plus. ring.
Qed.

Lemma fin_eq (a b : Q) : a == b -> fin a = fin b.
Proof. intros E. unfold fin. now rewrite (Qred_complete a b E). Qed.

(** A series that holds one finite value: its mean is that value, its
    standard deviation is zero. *)
Lemma constant_series_exact (q : Q) (n : nat) :
  (0 < n)%nat ->
  let s := repeat (Fin q) n in
  (Fin q - mean s)%num = lit 0 /\ feqb (std s) (lit 0) = true.
Proof.
  intros Hn s.
  assert (Hd : dropna s = s).
  { apply dropna_all, Forall_forall. intros x Hx. apply repeat_spec in Hx. now subst. }
  assert (Hpos : (0 < Z.of_nat n)%Z) by lia.
  assert (Hne : ~ inject_Z (Z.of_nat n) == 0).
  { intros E. pose proof (ExactLaws.inject_Z_pos _ Hpos) as Hq.
    rewrite E in Hq. now apply Qlt_irrefl in Hq. }
  (* the mean *)
  destruct (fold_xadd_repeat q 0 n) as (t & Ht & Et).
  assert (Hmean : (fsum (dropna s) / count s)%num = fin q).
  { unfold fsum, count. rewrite Hd. unfold s at 2. rewrite repeat_length.
    change (fold_left fadd s (lit 0)) with (fold_left xadd (repeat (Fin q) n) (Fin 0)).
    rewrite Ht.
    change (xdiv (Fin t) (Fin (inject_Z (Z.of_nat n))) = fin q).
    rewrite (ExactLaws.xdiv_pos _ _ Hpos). apply fin_eq. rewrite Et. field. exact Hne. }
  split.
  - unfold mean. rewrite Hmean.
    change (fin (q + Qred (- Qred q)) = fin 0).
    apply fin_eq. rewrite !Qred_correct. ring.
  - unfold std. rewrite Hmean, Hd. unfold s at 1. rewrite map_repeat.
    assert (Hsq : ((fin q - Fin q) * (fin q - Fin q))%num = Fin 0).
    { assert (Hz : (fin q - Fin q)%num = Fin 0).
      { change (fin (Qred q + Qred (- q)) = Fin 0).
        unfold fin. replace (Qred (Qred q + Qred (- q))) with (Qred 0); [reflexivity|].
        apply Qred_complete. rewrite !Qred_correct. ring. }
      rewrite Hz. reflexivity. }
    rewrite Hsq.
    destruct (fold_xadd_repeat 0 0 n) as (t0 & Ht0 & Et0).
    unfold fsum, count. rewrite Hd. unfold s. rewrite repeat_length.
    change (fold_left fadd (repeat (Fin 0) n) (lit 0))
      with (fold_left xadd (repeat (Fin 0) n) (Fin 0)).
    rewrite Ht0.
    change (xeqb (xsqrt (xdiv (Fin t0) (Fin (inject_Z (Z.of_nat n))))) (Fin 0) = true).
    rewrite (ExactLaws.xdiv_pos _ _ Hpos).
    replace (fin (t0 / inject_Z (Z.of_nat n))) with (Fin 0); [reflexivity|].
    unfold fin. replace (Qred (t0 / inject_Z (Z.of_nat n))) with (Qred 0); [reflexivity|].
    apply Qred_complete. rewrite Et0. field. exact Hne.
Qed.

Lemma all_equal_repeat {A : Type} (l : list A) (v : A) :
  (forall x, In x l -> x = v) -> l = repeat v (List.length l).
Proof.
  induction l as [|x l IH]; intros Hall; [reflexivity|].
  simpl. rewrite (Hall x) by now left. f_equal. apply IH.
  intros y Hy. apply Hall. now right.
Qed.

(** In exact arithmetic the z-score of a country whose
    temperature_anomaly is one finite value is 0.0 in every row. *)
Lemma zscore_constant_exact (df : std_frame xq) (i : nat) (q : Q) :
  List.length (temperature_anomaly df) = List.length (country df) ->
  (i < List.length (country df))%nat ->
  let k := nth i (country df) (CNum nan) in
  cell_eqb k k = true ->
  (forall x, In x (group (country df) k (temperature_anomaly df)) -> x = Fin q) ->
  nth i (temp_anomaly_z (compute_features df)) nan = lit 0.
Proof.
  intros Hlen Hi k Hrefl Hconst.
  destruct (temp_anomaly_z_nth df i Hlen Hi Hrefl) as [Hin Hz].
  fold k in Hin, Hz. rewrite Hz, (Hconst _ Hin).
  set (s := group (country df) k (temperature_anomaly df)) in *.
  assert (Hs : s = repeat (Fin q) (List.length s)) by now apply all_equal_repeat.
  assert (Hpos : (0 < List.length s)%nat).
  { destruct s; [destruct Hin | simpl; lia]. }
  destruct (constant_series_exact q (List.length s) Hpos) as [Hc Hstd].
  rewrite <- Hs in Hc, Hstd.
  rewrite Hc, (divisor_zero_std s Hstd). reflexivity.
Qed.

End ExactZScore.

(* ------------------------------------------------------------------ *)
(** ** The theorems at concrete inputs *)

Section Witnesses.

Open Scope string_scope.

Lemma risk_score_formula_witness :
  nth 1 (risk_score (compute_features Samples.two_countries)) nan
  = (lit 0.5 * nth 1 (temp_anomaly_z (compute_features Samples.two_countries)) nan
     + lit 0.3 * nth 1 (co2_growth_norm (compute_features Samples.two_countries)) nan
     + lit 0.2 * nth 1 (sea_level_z (compute_features Samples.two_countries)) nan)%num.
Proof.
  apply (risk_score_formula Samples.two_countries 1). simpl. lia.
Defined.

Lemma unmapped_fields_default_witness :
  exists out,
    main Samples.no_parse Samples.only_country Samples.halves = Ok out
    /\ Forall (fun x => x = lit 0) (co2_emission (base out))
    /\ Forall (fun x => x = lit 0) (sea_level_change (base out)).
Proof.
  eexists. split; [vm_compute; reflexivity|].
  split;
    apply (unmapped_fields_default Samples.no_parse Samples.only_country Samples.halves);
    try reflexivity; vm_compute; reflexivity.
Defined.

Lemma co2_growth_norm_average_rank_witness :
  nth 0 (co2_growth_norm (compute_features Samples.two_countries)) nan
  = (of_Z (sum_ranks 0 3) / of_Z 3 / of_Z 4)%num.
Proof.
  refine (proj1 (co2_growth_norm_average_rank Samples.two_countries 0 _)).
  simpl. lia.
Defined.


Lemma co2_growth_first_period_witness :
  nth 2 (co2_growth (compute_features Samples.two_countries)) nan = lit 0
  /\ nth 3 (co2_growth (compute_features Samples.two_countries)) nan
     = fillna0 (Samples.f64 1 / Samples.f64 1 - lit 1)%num
  /\ exists out,
       main Samples.no_parse Samples.full_file Samples.halves = Ok out
       /\ year_le (nth 1 (year (base out)) (CNum nan))
                  (nth 2 (year (base out)) (CNum nan)).
Proof.
  destruct (co2_growth_first_period (F := float) Samples.no_parse)
    as (Hfirst & Hnext & Hyears).
  split; [|split].
  - apply (Hfirst Samples.two_countries 2%nat); [simpl; lia|].
    intros [|[|j]] Hj; try reflexivity. lia.
  - apply (Hnext Samples.two_countries 2%nat 3%nat); try reflexivity; [simpl; lia|].
    intros l Hl. lia.
  - eexists. split; [vm_compute; reflexivity|].
    apply (Hyears Samples.full_file Samples.halves).
    + repeat constructor.
    + vm_compute. reflexivity.
    + vm_compute. lia.
Defined.



End Witnesses.

(* ================================================================== *)
(** * The choice of the CSV file ([main], lines 75-86) *)

Section CsvChoice.

Open Scope string_scope.

(** [endswith] holds exactly of the strings that are a prefix followed by
    the suffix. *)
Lemma endswith_iff (f suffix : string) :
  endswith f suffix = true <-> exists p, f = p ++ suffix.
Proof.
  induction f as [|c f IH]; cbn [endswith].
  - rewrite orb_false_r. split.
    + intros E. apply String.eqb_eq in E. exists "". exact E.
    + intros [p E]. destruct p; simpl in E; [|discriminate].
      apply String.eqb_eq. exact E.
  - rewrite orb_true_iff, IH. split.
    + intros [E|[p E]].
      * apply String.eqb_eq in E. exists "". exact E.
      * exists (String c p). simpl. now rewrite E.
    + intros [p E]. destruct p as [|c' p]; simpl in E.
      * left. apply String.eqb_eq. exact E.
      * right. injection E as _ E. now exists p.
Qed.

Lemma prefix_iff (sub f : string) :
  String.prefix sub f = true <-> exists q, f = sub ++ q.
Proof.
  revert f. induction sub as [|c sub IH]; intros f.
  - split; [intros _; now exists f | intros _; now destruct f].
  - destruct f as [|d f]; simpl.
    + split; [discriminate | intros [q E]; discriminate].
    + destruct (Ascii.ascii_dec c d) as [->|Hne].
      * rewrite IH. split; intros [q E]; exists q; [now rewrite E | now injection E].
      * split; [discriminate | intros [q E]; injection E as E _; now elim Hne].
Qed.

(** [contains] holds exactly of the strings that have the substring
    somewhere. *)
Lemma contains_iff (sub f : string) :
  contains sub f = true <-> exists p q, f = p ++ sub ++ q.
Proof.
  induction f as [|c f IH]; cbn [contains].
  - rewrite orb_false_r, prefix_iff. split.
    + intros [q E]. now exists "", q.
    + intros (p & q & E). destruct p; simpl in E; [now exists q | discriminate].
  - rewrite orb_true_iff, prefix_iff, IH. split.
    + intros [[q E]|(p & q & E)].
      * now exists "", q.
      * exists (String c p), q. simpl. now rewrite E.
    + intros (p & q & E). destruct p as [|c' p]; simpl in E.
      * left. now exists q.
      * right. injection E as _ E. now exists p, q.
Qed.

Lemma filter_split {A : Type} (p : A -> bool) (l : list A) (x : A) (rest : list A) :
  filter p l = x :: rest ->
  exists before after,
    l = (before ++ x :: after)%list
    /\ p x = true
    /\ (forall y, In y before -> p y = false)
    /\ rest = filter p after.
Proof.
  induction l as [|a l IH]; simpl; [discriminate|].
  destruct (p a) eqn:Ea.
  - intros [= -> <-]. exists [], l. now repeat split.
  - intros E. destruct (IH E) as (before & after & -> & Hx & Hb & Hr).
    exists (a :: before), after. repeat split; try assumption.
    intros y [<-|Hy]; [exact Ea | now apply Hb].
Qed.

Lemma find_split {A : Type} (p : A -> bool) (l : list A) (x : A) :
  find p l = Some x ->
  exists before after,
    l = (before ++ x :: after)%list /\ p x = true /\ forall y, In y before -> p y = false.
Proof.
  induction l as [|a l IH]; simpl; [discriminate|].
  destruct (p a) eqn:Ea.
  - intros [= ->]. exists [], l. now repeat split.
  - intros E. destruct (IH E) as (before & after & -> & Hx & Hb).
    exists (a :: before), after. repeat split; try assumption.
    intros y [<-|Hy]; [exact Ea | now apply Hb].
Qed.

Lemma find_filter {A : Type} (p q : A -> bool) (l : list A) :
  find q (filter p l) = find (fun x => p x && q x) l.
Proof.
  induction l as [|a l IH]; simpl; [reflexivity|].
  destruct (p a); simpl; [|exact IH]. destruct (q a); [reflexivity | exact IH].
Qed.

(** X1. No file is chosen (the FileNotFoundError of line 78) exactly
    when no name of the listing ends with ".csv"; the test is on the
    bytes of the name, so an extension in upper case does not count. *)
Theorem choose_csv_not_found (listing : list string) :
  choose_csv listing = None
  <-> forall f p, In f listing -> f <> p ++ ".csv".
Proof.
  unfold choose_csv.
  destruct (filter is_csv listing) as [|first rest] eqn:E.
  - split; [intros _ | reflexivity]. intros f p Hin ->.
    assert (Hf : In (p ++ ".csv") (filter is_csv listing)).
    { apply filter_In. split; [exact Hin|]. apply endswith_iff. now exists p. }
    rewrite E in Hf. exact Hf.
  - split.
    + destruct (find mentions_risk (first :: rest)); discriminate.
    + intros Hnone. exfalso.
      assert (Hf : In first (filter is_csv listing)) by (rewrite E; now left).
      apply filter_In in Hf. destruct Hf as [Hin Hcsv].
      apply endswith_iff in Hcsv. destruct Hcsv as [p Hp].
      exact (Hnone first p Hin Hp).
Qed.

(** X2. The file chosen is a name of the listing that ends with ".csv".
    When some such name contains "risk" once in lower case, the chosen
    one is the first of them in the order of the listing; when none does,
    it is the first name that ends with ".csv". *)
Theorem choose_csv_first (listing : list string) (f : string) :
  choose_csv listing = Some f ->
  exists before after,
    listing = (before ++ f :: after)%list
    /\ (exists p, f = p ++ ".csv")
    /\ ((exists p q, lower f = p ++ "risk" ++ q)
        /\ (forall g, In g before -> is_csv g && mentions_risk g = false)
        \/ (forall g, In g listing -> is_csv g && mentions_risk g = false)
           /\ (forall g, In g before -> is_csv g = false)).
Proof.
  unfold choose_csv.
  destruct (filter is_csv listing) as [|first rest] eqn:E; [discriminate|].
  rewrite <- E, find_filter.
  destruct (find (fun x => is_csv x && mentions_risk x) listing) as [r|] eqn:Er.
  - intros [= ->].
    destruct (find_split _ _ _ Er) as (before & after & Hl & Hf & Hb).
    apply andb_true_iff in Hf. destruct Hf as [Hcsv Hrisk].
    exists before, after. split; [exact Hl|]. split; [now apply endswith_iff|].
    left. split; [now apply contains_iff | exact Hb].
  - intros [= ->].
    destruct (filter_split _ _ _ _ E) as (before & after & Hl & Hcsv & Hb & _).
    exists before, after. split; [exact Hl|]. split; [now apply endswith_iff|].
    right. split; [|exact Hb].
    intros g Hg. exact (find_none _ _ Er g Hg).
Qed.

End CsvChoice.
(* ================================================================== *)
(** * The normal form of a header ([normalize_cols], lines 34-42) *)

Section NormalForm.

Open Scope string_scope.

Lemma words_nil (s : string) : words s = [] <-> has_alnum s = false.
Proof.
  induction s as [|c r IH]; simpl; [tauto|].
  destruct (is_alnum c); simpl; [|exact IH].
  split; [|discriminate].
  destruct (starts_alnum r); [destruct (words r)|]; discriminate.
Qed.

Lemma concat_words_nil (s : string) :
  String.concat "_" (words s) = "" <-> words s = [].
Proof.
  split; [|now intros ->].
  pose proof (words_nonempty s) as Hw.
  destruct (words s) as [|w ws]; [reflexivity|].
  intros E. exfalso. revert E. apply concat_words_nonempty. now inversion Hw.
Qed.

(** The words joined by underscores, after their first character. *)
Lemma clean_tail_words (s : string) :
  clean_tail (String.concat "_" (words s)) = true
  /\ (words s <> [] -> starts_alnum (String.concat "_" (words s)) = true).
Proof.
  induction s as [|c r [IHc IHs]]; [split; [reflexivity | intros E; now elim E]|].
  cbn [words]. destruct (is_alnum c) eqn:Hc; [|now split].
  destruct (starts_alnum r) eqn:Hr.
  - pose proof (words_starts_alnum r Hr) as Hne.
    destruct (words r) as [|w ws]; [now elim Hne|].
    rewrite concat_cons_char. cbn [clean_tail starts_alnum]. rewrite Hc.
    split; [exact IHc | reflexivity].
  - destruct (words r) as [|w ws] eqn:Ew.
    + simpl. rewrite Hc. split; reflexivity.
    + change (String.concat "_" (String c "" :: w :: ws))
        with (String c (String "_" (String.concat "_" (w :: ws)))).
      cbn [clean_tail starts_alnum]. rewrite Hc.
      change (is_alnum "_") with false. cbv iota.
      rewrite IHc, IHs by discriminate. split; reflexivity.
Qed.

Lemma normalize_clean (c : string) : clean (normalize_col c) = true.
Proof.
  rewrite normalize_col_spec. unfold normalize_spec.
  destruct (clean_tail_words (lower c)) as [Ht Hs].
  destruct (words (lower c)) as [|w ws] eqn:Ew; [reflexivity|].
  specialize (Hs ltac:(discriminate)).
  destruct (String.concat "_" (w :: ws)) as [|a x]; [discriminate Hs|].
  simpl in Hs. simpl in Ht. rewrite Hs in Ht. simpl. now rewrite Hs, Ht.
Qed.

(** Lower case changes no character of [[a-z0-9_]]. *)
Lemma lower_ascii_fixed (a : ascii) :
  is_alnum a = true \/ a = "_"%char -> lower_ascii a = a.
Proof.
  destruct a as [[] [] [] [] [] [] [] []];
    intros [E|E]; try reflexivity; try discriminate E.
Qed.

Lemma lower_clean_tail (r : string) : clean_tail r = true -> lower r = r.
Proof.
  induction r as [|a r IH]; simpl; [reflexivity|].
  destruct (is_alnum a) eqn:Ha.
  - intros Hr. rewrite lower_ascii_fixed, IH; auto.
  - intros Hr. apply andb_true_iff in Hr. destruct Hr as [Hr Hc].
    apply andb_true_iff in Hr. destruct Hr as [Hu _].
    apply Ascii.eqb_eq in Hu. rewrite lower_ascii_fixed, IH; auto.
Qed.

(** A string that starts with a word character and goes on as a normal
    form is the join of its own words. *)
Lemma clean_words (n : nat) (s : string) :
  (String.length s <= n)%nat ->
  starts_alnum s = true -> clean_tail s = true ->
  String.concat "_" (words s) = s.
Proof.
  revert s. induction n as [|n IH]; intros s Hn Hs Hc;
    (destruct s as [|c r]; [discriminate Hs|]); simpl in Hn; [lia|].
  simpl in Hs. simpl in Hc. rewrite Hs in Hc.
  cbn [words]. rewrite Hs.
  destruct (starts_alnum r) eqn:Hr.
  - pose proof (words_starts_alnum r Hr) as Hne.
    assert (E : String.concat "_" (words r) = r) by (apply IH; [lia | exact Hr | exact Hc]).
    destruct (words r) as [|w ws]; [now elim Hne|].
    now rewrite concat_cons_char, E.
  - destruct r as [|d r']; [reflexivity|].
    simpl in Hr. simpl in Hc. rewrite Hr in Hc.
    apply andb_true_iff in Hc. destruct Hc as [Hc Hc'].
    apply andb_true_iff in Hc. destruct Hc as [Hu Hs'].
    apply Ascii.eqb_eq in Hu. subst d.
    simpl in Hn.
    assert (E : String.concat "_" (words r') = r') by (apply IH; [lia | exact Hs' | exact Hc']).
    pose proof (words_starts_alnum r' Hs') as Hne.
    cbn [words]. change (is_alnum "_") with false. cbv iota.
    destruct (words r') as [|w ws]; [now elim Hne|].
    change (String.concat "_" (String c "" :: w :: ws))
      with (String c (String "_" (String.concat "_" (w :: ws)))).
    now rewrite E.
Qed.

Lemma clean_fixed (c : string) : clean c = true -> normalize_col c = c.
Proof.
  intros Hc. rewrite normalize_col_spec. unfold normalize_spec.
  destruct c as [|a r]; [reflexivity|].
  simpl in Hc. apply andb_true_iff in Hc. destruct Hc as [Ha Hr].
  assert (Ht : clean_tail (String a r) = true) by (simpl; now rewrite Ha).
  rewrite (lower_clean_tail _ Ht).
  apply (clean_words (String.length (String a r))); [lia | exact Ha | exact Ht].
Qed.

(** X3. The headers that normalisation leaves as they are are exactly
    the names in normal form: made of [a-z0-9] and underscores, with no
    underscore at either end and no two underscores in a row. *)
Theorem normalize_col_fixpoints (c : string) :
  normalize_col c = c <-> clean c = true.
Proof.
  split; [|apply clean_fixed].
  intros E. rewrite <- E. apply normalize_clean.
Qed.

(** X4. Normalising is idempotent: a header already normalised is not
    changed by a second pass, on one header and on a list of headers. *)
Theorem normalize_cols_idempotent (cols : list string) :
  normalize_cols (normalize_cols cols) = normalize_cols cols.
Proof.
  unfold normalize_cols. rewrite map_map. apply map_ext.
  intros c. apply clean_fixed, normalize_clean.
Qed.

(** X5. A header normalises to the empty name exactly when, once in
    lower case, it has no character of [a-z0-9]: no letter of A-Z or a-z
    and no digit. *)
Theorem normalize_col_empty (c : string) :
  normalize_col c = "" <-> has_alnum (lower c) = false.
Proof.
  rewrite normalize_col_spec. unfold normalize_spec.
  rewrite concat_words_nil. apply words_nil.
Qed.

End NormalForm.

(* ================================================================== *)
(** * Alias resolution on a set of headers ([pick_col], lines 45-50, and
      lines 91-101 of [main]) *)

Section AliasResolution.

Open Scope string_scope.

Lemma mem_same_set (cols cols' : list string) (x : string) :
  (forall c, In c cols <-> In c cols') -> mem x cols = mem x cols'.
Proof.
  intros Hset.
  destruct (mem x cols) eqn:E, (mem x cols') eqn:E'; try reflexivity.
  - apply mem_In, Hset, mem_In in E. congruence.
  - apply mem_In, Hset, mem_In in E'. congruence.
Qed.

Lemma pick_col_same_set (cols cols' options : list string) :
  (forall c, In c cols <-> In c cols') -> pick_col cols options = pick_col cols' options.
Proof.
  intros Hset. induction options as [|o rest IH]; simpl; [reflexivity|].
  now rewrite (mem_same_set cols cols' o Hset), IH.
Qed.

(** X6. Alias resolution reads the headers as a set ([cols] is one, line
    91): two lists with the same members, in whatever order and however
    often, give the same column for every list of options, and so the
    same four columns in [main]. *)
Theorem pick_col_reads_a_set (cols cols' : list string) :
  (forall c, In c cols <-> In c cols') ->
  (forall options, pick_col cols options = pick_col cols' options)
  /\ country_column cols = country_column cols'
  /\ cri_column cols = cri_column cols'
  /\ losses_column cols = losses_column cols'
  /\ gdp_pc_column cols = gdp_pc_column cols'.
Proof.
  intros Hset.
  unfold country_column, cri_column, losses_column, gdp_pc_column.
  rewrite (mem_same_set cols cols' "country" Hset).
  rewrite !(pick_col_same_set cols cols' _ Hset).
  repeat split. intros options. now apply pick_col_same_set.
Qed.

(** X7. The options are tried in order: resolving over two lists of
    options put end to end is resolving over the first and, only when
    none of its options is a header, over the second.  The country column
    of line 94 is the resolution over the three aliases country,
    rw_country_name, country_name. *)
Theorem pick_col_in_order (cols first second : list string) :
  pick_col cols (first ++ second)%list
  = match pick_col cols first with
    | Some o => Some o
    | None => pick_col cols second
    end
  /\ country_column cols = pick_col cols ["country"; "rw_country_name"; "country_name"].
Proof.
  split; [|reflexivity].
  induction first as [|o rest IH]; simpl; [reflexivity|].
  destruct (mem o cols); [reflexivity | exact IH].
Qed.

End AliasResolution.

(* ================================================================== *)
(** * The columns listed by the error of the country check (line 96) *)

Section SortedColumns.

Open Scope string_scope.

Lemma ascii_compare_trans (a b c : ascii) :
  Ascii.compare a b <> Gt -> Ascii.compare b c <> Gt -> Ascii.compare a c <> Gt.
Proof.
  unfold Ascii.compare. rewrite !N.compare_le_iff. apply N.le_trans.
Qed.

Lemma ascii_compare_lt_le (a b c : ascii) :
  Ascii.compare a b = Lt -> Ascii.compare b c <> Gt -> Ascii.compare a c = Lt.
Proof.
  unfold Ascii.compare. rewrite !N.compare_lt_iff, N.compare_le_iff. apply N.lt_le_trans.
Qed.

Lemma ascii_compare_le_lt (a b c : ascii) :
  Ascii.compare a b <> Gt -> Ascii.compare b c = Lt -> Ascii.compare a c = Lt.
Proof.
  unfold Ascii.compare. rewrite !N.compare_lt_iff, N.compare_le_iff. apply N.le_lt_trans.
Qed.

Lemma string_compare_trans (a b c : string) :
  String.compare a b <> Gt -> String.compare b c <> Gt -> String.compare a c <> Gt.
Proof.
  revert b c. induction a as [|x a IH]; intros [|y b] [|z c]; simpl;
    try congruence.
  destruct (Ascii.compare x y) eqn:Exy; [| |congruence];
    (destruct (Ascii.compare y z) eqn:Eyz; [| |congruence]).
  - apply Ascii.compare_eq_iff in Exy, Eyz. subst y z.
    intros Hab Hbc. destruct (Ascii.compare x x) eqn:Exx.
    + now apply (IH b c).
    + discriminate.
    + assert (Ascii.compare x x = Eq) by (unfold Ascii.compare; apply N.compare_refl).
      congruence.
  - apply Ascii.compare_eq_iff in Exy. subst y. rewrite Eyz. discriminate.
  - apply Ascii.compare_eq_iff in Eyz. subst z. rewrite Exy. discriminate.
  - intros _ _. rewrite (ascii_compare_lt_le x y z Exy) by congruence. discriminate.
Qed.

Lemma string_leb_trans (a b c : string) :
  String.leb a b = true -> String.leb b c = true -> String.leb a c = true.
Proof.
  unfold String.leb. intros Hab Hbc.
  pose proof (string_compare_trans a b c) as Ht.
  destruct (String.compare a b); try discriminate;
    destruct (String.compare b c); try discriminate;
    destruct (String.compare a c); try reflexivity;
    exfalso; apply Ht; congruence.
Qed.

Lemma string_leb_neq_ltb (a b : string) :
  String.leb a b = true -> a <> b -> String.ltb a b = true.
Proof.
  unfold String.leb, String.ltb. intros Hab Hne.
  destruct (String.compare a b) eqn:E; try reflexivity; try discriminate.
  apply String.compare_eq_iff in E. contradiction.
Qed.

(** X8. The list of available columns that the error of line 96 prints
    holds each cleaned header once, in strictly ascending order of their
    bytes. *)
Theorem sorted_strictly_ascending (cols : list string) :
  StronglySorted (fun a b => String.ltb a b = true) (sorted cols)
  /\ forall c, In c (sorted cols) <-> In c cols.
Proof.
  split; [|intros c; apply sorted_In].
  unfold sorted.
  pose proof (StringSort.Permuted_sort (nodup string_dec cols)) as Hperm.
  assert (Hnd : NoDup (StringSort.sort (nodup string_dec cols))).
  { eapply Permutation_NoDup; [exact Hperm | apply NoDup_nodup]. }
  assert (Hs : StronglySorted (fun a b => String.leb a b = true)
                 (StringSort.sort (nodup string_dec cols))).
  { apply Sorted_StronglySorted.
    - intros a b c. apply string_leb_trans.
    - apply StringSort.Sorted_sort. }
  clear Hperm. revert Hnd Hs.
  generalize (StringSort.sort (nodup string_dec cols)). intros l Hnd Hs.
  induction Hs as [|a l Hl IH Ha]; constructor.
  - apply IH. now inversion Hnd.
  - inversion Hnd as [|? ? Hnotin Hnd']. subst.
    rewrite Forall_forall in *. intros b Hb.
    apply string_leb_neq_ltb; [now apply Ha|].
    intros ->. contradiction.
Qed.

End SortedColumns.

(* ================================================================== *)
(** * The dashboard's default countries ([app.py], line 41) *)

Section Dashboard.

Open Scope string_scope.

(** X9. The countries preselected for the trends are all among the
    countries offered (the multiselect widget refuses a default that is not
    an option), there are at most four of them, and none only when the
    processed file has no country at all. *)
Theorem default_countries_offered (countries : list string) :
  incl (default_countries countries) countries
  /\ (List.length (default_countries countries) <= 4)%nat
  /\ (default_countries countries = [] <-> countries = []).
Proof.
  unfold default_countries.
  destruct (filter (fun c => mem c countries) preferred_countries) as [|p picked] eqn:E.
  - split; [|split].
    + intros c Hc. rewrite <- (firstn_skipn 3 countries).
      apply in_or_app. now left.
    + rewrite length_firstn. lia.
    + destruct countries; simpl; split; intros; congruence.
  - assert (Hin : forall c, In c (p :: picked) -> In c countries).
    { intros c Hc. rewrite <- E in Hc. apply filter_In in Hc.
      now apply mem_In. }
    split; [exact Hin | split].
    + rewrite <- E. apply (filter_length_le _ preferred_countries).
    + split; [discriminate|]. intros ->. exact (False_ind _ (Hin p (or_introl eq_refl))).
Qed.

End Dashboard.
(* ================================================================== *)
(** * The outcome of one year of the expansion *)

Section Outcome.

Context {F : Type} `{Num F}.

Open Scope string_scope.

(** A product of a column and an array of its length either is
    computed, on a column without strings, or raises TypeError. *)
Lemma mul_col_outcome (s : column F) (f : list F) :
  List.length s = List.length f ->
  (mul_col s f = Err TypeError /\ forallb is_number s = false)
  \/ ((exists v, mul_col s f = Ok v) /\ forallb is_number s = true).
Proof.
  revert f. induction s as [|c s IH]; intros [|x f]; simpl; try discriminate.
  - intros _. right. split; [now eexists | reflexivity].
  - intros [= Hl].
    destruct c; simpl; try (left; split; reflexivity);
      (destruct (IH f Hl) as [[-> ->]|[[v ->] ->]]; simpl;
       [left; split; reflexivity | right; split; [now eexists | reflexivity]]).
Qed.

Ltac read_block Hwf Hcols c :=
  let s := fresh "s" in
  let Hs := fresh "Hs" in
  destruct (Hcols c ltac:(auto)) as (s & Hs);
  rewrite !lookup_assign_other by assumption;
  rewrite Hs; simpl;
  match goal with
  | |- context [mul_col s ?f] =>
      let v := fresh "v" in
      let E := fresh "E" in
      let L := fresh "L" in
      assert (L : List.length s = List.length f)
        by (rewrite (lookup_wf _ c s Hwf Hs); unfold one_plus;
            rewrite ?length_map, ?length_seq; reflexivity);
      destruct (mul_col_outcome s f L) as [[-> E]|[[v ->] E]];
      [ rewrite ?E; simpl; left; split; reflexivity
      | rewrite ?E; simpl ]
  end.

Lemma simulate_year_outcome (df : frame F) (cri losses gdp : option string)
  (y : Z) (g : rng F) :
  wf_frame df ->
  names_ok cri losses gdp ->
  (forall c, cri = Some c \/ losses = Some c \/ gdp = Some c ->
     exists s, lookup c (columns df) = Some s) ->
  (simulate_year df cri losses gdp y g = Err TypeError
   /\ mapped_numeric df cri losses gdp = false)
  \/ ((exists r, simulate_year df cri losses gdp y g = Ok r)
      /\ mapped_numeric df cri losses gdp = true).
Proof.
  intros Hwf (Hn1 & Hn2 & Hn3) Hcols.
  unfold simulate_year, get_col, mapped_numeric, column_numeric.
  destruct cri as [c1|]; simpl;
    [ pose proof (Hn1 c1 eq_refl) as N1; read_block Hwf Hcols c1 | ];
    (destruct losses as [c2|]; simpl;
     [ destruct (Hn2 c2 eq_refl) as [N2 N2']; read_block Hwf Hcols c2 | ]);
    (destruct gdp as [c3|]; simpl;
     [ destruct (Hn3 c3 eq_refl) as (N3 & N3' & N3''); read_block Hwf Hcols c3 | ]);
    (right; split; [now eexists | reflexivity]).
Qed.

End Outcome.
(* ================================================================== *)
(** * The columns of the expanded frame *)

Section Expanded.

Context {F : Type} `{Num F}.

Open Scope string_scope.

Lemma flat_map_pointwise {A B C : Type} (f : A -> list C) (h : B -> list C)
  (l : list A) (m : list B) (da : A) (db : B) :
  List.length l = List.length m ->
  (forall k, (k < List.length l)%nat -> f (nth k l da) = h (nth k m db)) ->
  flat_map f l = flat_map h m.
Proof.
  revert m. induction l as [|a l IH]; intros [|b m]; simpl; try discriminate;
    [reflexivity|].
  intros [= Hl] Hk. f_equal.
  - apply (Hk 0%nat). lia.
  - apply IH; [exact Hl|]. intros k Hlt. apply (Hk (S k)). lia.
Qed.

Lemma concat_lookup (f0 : frame F) (rest : list (frame F)) (name : string)
  (col : column F) :
  lookup name (columns f0) = Some col ->
  lookup name (columns (concat (f0 :: rest)))
  = Some (flat_map (col_or_nan name) (f0 :: rest)).
Proof.
  intros Hl. unfold concat. cbn [columns].
  rewrite (lookup_map_names (fun nm => flat_map (col_or_nan nm) (f0 :: rest))).
  destruct (in_dec string_dec name (headers f0)) as [Hin|Hnot]; [reflexivity|].
  elim Hnot. apply lookup_headers. now exists col.
Qed.

Lemma numeric_of_nth (v : column F) :
  (forall i, (i < List.length v)%nat -> exists x, nth i v (CNum nan) = CNum x) ->
  forallb is_number v = true.
Proof.
  intros Hnth. apply forallb_forall. intros c Hc.
  destruct (In_nth _ _ (CNum nan) Hc) as (i & Hi & <-).
  destruct (Hnth i Hi) as [x ->]. reflexivity.
Qed.

Lemma column_numeric_some (df : frame F) (c : string) (s : column F) :
  lookup c (columns df) = Some s ->
  column_numeric df (Some c) = forallb is_number s.
Proof. intros Hs. unfold column_numeric. now rewrite Hs. Qed.

(** The frames of the 25 years. *)
Lemma expand_frames (df : frame F) (cri losses gdp : option string) (g : rng F)
  (out : frame F) :
  wf_frame df -> names_ok cri losses gdp ->
  expand df cri losses gdp g = Ok out ->
  exists f0 rest,
    out = concat (f0 :: rest)
    /\ List.length (f0 :: rest) = 25%nat
    /\ forall k, (k < 25)%nat ->
         exists gk gk',
           simulate_year df cri losses gdp (nth k years 0%Z) gk
           = Ok (nth k (f0 :: rest) df, gk').
Proof.
  intros Hwf Hnames. unfold expand.
  destruct (simulate df cri losses gdp years g) as [[sims g']|e] eqn:Hsim;
    simpl; [|discriminate].
  intros [= <-].
  destruct (simulate_spec df cri losses gdp years g sims g' Hwf Hnames Hsim)
    as [Hlen Hk].
  rewrite years_length in Hlen, Hk.
  destruct sims as [|f0 rest]; [discriminate Hlen|].
  exists f0, rest. split; [reflexivity | split; [exact Hlen|]].
  intros k Hlt. destruct (Hk k Hlt) as (gk & gk' & _ & Hy). now exists gk, gk'.
Qed.

(** The year column of the expanded frame. *)
Lemma expanded_year (df : frame F) (cri losses gdp : option string) (g : rng F)
  (out : frame F) :
  wf_frame df -> names_ok cri losses gdp ->
  expand df cri losses gdp g = Ok out ->
  lookup "year" (columns out) = Some (year_blocks (nrows df)).
Proof.
  intros Hwf Hnames Hexp.
  destruct (expand_frames df cri losses gdp g out Hwf Hnames Hexp)
    as (f0 & rest & -> & Hlen & Hk).
  assert (Hcol : forall k, (k < 25)%nat ->
            lookup "year" (columns (nth k (f0 :: rest) df))
            = Some (repeat (CInt (nth k years 0%Z)) (nrows df))).
  { intros k Hlt. destruct (Hk k Hlt) as (gk & gk' & Hy).
    now destruct (simulate_year_spec df cri losses gdp _ gk _ gk' Hwf Hnames Hy)
      as (_ & _ & _ & Hyear & _). }
  rewrite (concat_lookup f0 rest "year" _ (Hcol 0%nat ltac:(lia))).
  f_equal. unfold year_blocks.
  apply (flat_map_pointwise _ _ _ _ df 0%Z); [now rewrite Hlen|].
  intros k Hlt. rewrite Hlen in Hlt. unfold col_or_nan. now rewrite (Hcol k Hlt).
Qed.

(** A column that the loop does not write is copied once per year. *)
Lemma expanded_copied (df : frame F) (cri losses gdp : option string) (g : rng F)
  (out : frame F) (name : string) (col : column F) :
  wf_frame df -> names_ok cri losses gdp ->
  expand df cri losses gdp g = Ok out ->
  untouched name ->
  lookup name (columns df) = Some col ->
  lookup name (columns out) = Some (replicate col).
Proof.
  intros Hwf Hnames Hexp (U1 & U2 & U3 & U4) Hl.
  destruct (expand_frames df cri losses gdp g out Hwf Hnames Hexp)
    as (f0 & rest & -> & Hlen & Hk).
  assert (Hcol : forall k, (k < 25)%nat ->
            lookup name (columns (nth k (f0 :: rest) df)) = Some col).
  { intros k Hlt. destruct (Hk k Hlt) as (gk & gk' & Hy).
    destruct (simulate_year_spec df cri losses gdp _ gk _ gk' Hwf Hnames Hy)
      as (_ & _ & _ & _ & _ & _ & _ & Hother).
    now rewrite (Hother name U1 U2 U3 U4). }
  rewrite (concat_lookup f0 rest name _ (Hcol 0%nat ltac:(lia))).
  f_equal. unfold replicate.
  apply (flat_map_pointwise _ _ _ _ df 0%Z); [now rewrite Hlen|].
  intros k Hlt. rewrite Hlen in Hlt. unfold col_or_nan. now rewrite (Hcol k Hlt).
Qed.

(** A column that every year's frame has without strings has none in
    the expanded frame either. *)
Lemma expanded_numeric (df : frame F) (cri losses gdp : option string) (g : rng F)
  (out : frame F) (name : string) :
  wf_frame df -> names_ok cri losses gdp ->
  expand df cri losses gdp g = Ok out ->
  (forall y gy temp gy',
      simulate_year df cri losses gdp y gy = Ok (temp, gy') ->
      exists v, lookup name (columns temp) = Some v /\ forallb is_number v = true) ->
  exists v, lookup name (columns out) = Some v /\ forallb is_number v = true.
Proof.
  intros Hwf Hnames Hexp Hyear.
  destruct (expand_frames df cri losses gdp g out Hwf Hnames Hexp)
    as (f0 & rest & -> & Hlen & Hk).
  assert (Hcol : forall t, In t (f0 :: rest) ->
            exists v, lookup name (columns t) = Some v /\ forallb is_number v = true).
  { intros t Ht. destruct (In_nth _ _ df Ht) as (k & Hlt & <-).
    rewrite Hlen in Hlt. destruct (Hk k Hlt) as (gk & gk' & Hy).
    exact (Hyear _ _ _ _ Hy). }
  destruct (Hcol f0 (or_introl eq_refl)) as (v0 & Hv0 & _).
  rewrite (concat_lookup f0 rest name v0 Hv0). eexists. split; [reflexivity|].
  apply forallb_forall. intros c Hc. apply in_flat_map in Hc.
  destruct Hc as (t & Ht & Hc). destruct (Hcol t Ht) as (v & Hv & Hnum).
  unfold col_or_nan in Hc. rewrite Hv in Hc.
  rewrite forallb_forall in Hnum. now apply Hnum.
Qed.

(** The column a block of the loop writes holds floats. *)
Lemma written_numeric (df : frame F) (cri losses gdp : option string)
  (y : Z) (g : rng F) (temp : frame F) (g' : rng F) :
  wf_frame df -> names_ok cri losses gdp ->
  simulate_year df cri losses gdp y g = Ok (temp, g') ->
  (forall c, cri = Some c ->
     exists v, lookup "cri_score" (columns temp) = Some v
               /\ forallb is_number v = true)
  /\ (forall c, losses = Some c ->
        exists v, lookup "losses_usdm_ppp_total" (columns temp) = Some v
                  /\ forallb is_number v = true)
  /\ (forall c, gdp = Some c ->
        exists v, lookup "fatalities_total" (columns temp) = Some v
                  /\ forallb is_number v = true).
Proof.
  intros Hwf Hnames Hy.
  destruct (simulate_year_spec df cri losses gdp y g temp g' Hwf Hnames Hy)
    as (_ & _ & _ & _ & Hcri & Hloss & Hgdp & _).
  split; [|split]; intros c Hc;
    [ destruct (Hcri c Hc) as (s & v & _ & Hv & Hlen & Hnth)
    | destruct (Hloss c Hc) as (s & v & _ & Hv & Hlen & Hnth)
    | destruct (Hgdp c Hc) as (s & v & _ & Hv & Hlen & Hnth) ];
    exists v; (split; [exact Hv|]); apply numeric_of_nth;
    intros i Hi; rewrite Hlen in Hi; rewrite (Hnth i Hi); now eexists.
Qed.

End Expanded.
(* ================================================================== *)
(** * The feature engine on constant emissions, and on one country *)

Section FlatGrowth.

Context {F : Type} `{Num F} `{!NumFacts F}.

Lemma nth_Forall_default {A : Type} (P : A -> Prop) (l : list A) (i : nat) (d : A) :
  Forall P l -> P d -> P (nth i l d).
Proof.
  intros Hall Hd. destruct (Nat.lt_ge_cases i (List.length l)) as [Hi|Hi].
  - rewrite Forall_forall in Hall. apply Hall. now apply nth_In.
  - now rewrite nth_overflow.
Qed.

Lemma pct_from_zeros (xs : list F) :
  is_nan (lit 0 / lit 0 - lit 1)%num = true ->
  Forall (fun x => x = lit 0) xs ->
  Forall (fun x => is_nan x = true) (pct_from (lit 0) xs).
Proof.
  intros Hnan. induction 1 as [|x xs Hx _ IH]; simpl; constructor.
  - now rewrite Hx.
  - now rewrite Hx.
Qed.

Lemma pct_change_zeros (xs : list F) :
  is_nan (lit 0 / lit 0 - lit 1)%num = true ->
  Forall (fun x => x = lit 0) xs ->
  Forall (fun x => is_nan x = true) (pct_change xs).
Proof.
  intros Hnan Hall. destruct Hall as [|x xs Hx Hxs]; simpl; constructor.
  - apply nan_is_nan.
  - rewrite Hx. now apply pct_from_zeros.
Qed.

Lemma zero_emission_flat_growth (df : std_frame F) :
  is_nan (lit 0 / lit 0 - lit 1)%num = true ->
  Forall (fun x => x = lit 0) (co2_emission df) ->
  Forall (fun x => x = lit 0) (co2_growth (compute_features df))
  /\ exists v, Forall (fun x => x = v) (co2_growth_norm (compute_features df)).
Proof.
  intros Hnan Hzero.
  assert (Hg : Forall (fun x => x = lit 0) (co2_growth (compute_features df))).
  { change (co2_growth (compute_features df))
      with (map fillna0 (group_apply (country df) pct_change (co2_emission df))).
    unfold group_apply. rewrite map_map. apply Forall_map, Forall_forall.
    intros i _.
    assert (Hn : is_nan (nth (position (country df) i)
                           (pct_change (group (country df)
                                          (nth i (country df) (CNum nan))
                                          (co2_emission df))) nan) = true).
    { apply (nth_Forall_default (fun x => is_nan x = true)); [|apply nan_is_nan].
      apply pct_change_zeros; [exact Hnan|]. now apply select_Forall. }
    unfold fillna0. now rewrite Hn. }
  split; [exact Hg|].
  change (co2_growth_norm (compute_features df))
    with (rank_pct (co2_growth (compute_features df))).
  unfold rank_pct.
  exists (if is_nan (lit 0 : F) then nan
          else rank_of (dropna (co2_growth (compute_features df))) (lit 0)).
  apply Forall_map. rewrite Forall_forall in *. intros x Hx.
  now rewrite (Hg x Hx).
Qed.

(** The rows of a group whose values agree in two columns. *)
Lemma group_agree (keys : list (cell F)) (k : cell F) (xs xs' : list F) :
  List.length xs = List.length keys ->
  List.length xs' = List.length keys ->
  (forall j, (j < List.length keys)%nat ->
     cell_eqb (nth j keys (CNum nan)) k = true -> nth j xs nan = nth j xs' nan) ->
  group keys k xs = group keys k xs'.
Proof.
  revert xs xs'. induction keys as [|k0 keys IH]; intros [|x xs] [|x' xs'];
    simpl; try discriminate; try reflexivity.
  intros [= Hl] [= Hl'] Hagree. rewrite !group_cons.
  rewrite (IH xs xs' Hl Hl')
    by (intros j Hj Hk; apply (Hagree (S j)); [lia | exact Hk]).
  destruct (cell_eqb k0 k) eqn:E; [|reflexivity].
  f_equal. apply (Hagree 0%nat); [lia | exact E].
Qed.

(** X17. The z-scores and the growth of a row are computed from the
    rows of its own country alone: two standardised frames with the same
    countries, whose values agree on the rows of the country of row [i],
    agree on temp_anomaly_z, sea_level_z and co2_growth in row [i],
    whatever the other countries hold.  (co2_growth_norm, a rank over the
    whole frame, has no such property.) *)
Theorem country_features_local (df df' : std_frame F) (i : nat) :
  country df = country df' ->
  (List.length (temperature_anomaly df) = List.length (country df)
   /\ List.length (co2_emission df) = List.length (country df)
   /\ List.length (sea_level_change df) = List.length (country df)) ->
  (List.length (temperature_anomaly df') = List.length (country df)
   /\ List.length (co2_emission df') = List.length (country df)
   /\ List.length (sea_level_change df') = List.length (country df)) ->
  (forall j, (j < List.length (country df))%nat ->
     cell_eqb (nth j (country df) (CNum nan)) (nth i (country df) (CNum nan)) = true ->
     nth j (temperature_anomaly df) nan = nth j (temperature_anomaly df') nan
     /\ nth j (co2_emission df) nan = nth j (co2_emission df') nan
     /\ nth j (sea_level_change df) nan = nth j (sea_level_change df') nan) ->
  nth i (temp_anomaly_z (compute_features df)) nan
  = nth i (temp_anomaly_z (compute_features df')) nan
  /\ nth i (sea_level_z (compute_features df)) nan
     = nth i (sea_level_z (compute_features df')) nan
  /\ nth i (co2_growth (compute_features df)) nan
     = nth i (co2_growth (compute_features df')) nan.
Proof.
  intros Hkeys (L1 & L2 & L3) (L1' & L2' & L3') Hagree.
  assert (Hlocal : forall (f : list F -> list F) (xs xs' : list F),
            List.length xs = List.length (country df) ->
            List.length xs' = List.length (country df) ->
            (forall j, (j < List.length (country df))%nat ->
               cell_eqb (nth j (country df) (CNum nan))
                        (nth i (country df) (CNum nan)) = true ->
               nth j xs nan = nth j xs' nan) ->
            nth i (group_apply (country df) f xs) nan
            = nth i (group_apply (country df) f xs') nan).
  { intros f xs xs' Hl Hl' Hsame.
    destruct (Nat.lt_ge_cases i (List.length (country df))) as [Hi|Hi].
    - rewrite !group_apply_nth by exact Hi.
      now rewrite (group_agree _ _ xs xs' Hl Hl' Hsame).
    - now rewrite !nth_overflow by (now rewrite group_apply_length). }
  split; [|split].
  - change (nth i (group_apply (country df) zscore (temperature_anomaly df)) nan
            = nth i (group_apply (country df') zscore (temperature_anomaly df')) nan).
    rewrite <- Hkeys. apply Hlocal; [exact L1 | exact L1'|].
    intros j Hj Hk. now destruct (Hagree j Hj Hk).
  - change (nth i (group_apply (country df) zscore (sea_level_change df)) nan
            = nth i (group_apply (country df') zscore (sea_level_change df')) nan).
    rewrite <- Hkeys. apply Hlocal; [exact L3 | exact L3'|].
    intros j Hj Hk. now destruct (Hagree j Hj Hk) as (_ & _ & E).
  - change (nth i (map fillna0 (group_apply (country df) pct_change (co2_emission df))) nan
            = nth i (map fillna0
                       (group_apply (country df') pct_change (co2_emission df'))) nan).
    rewrite <- Hkeys.
    destruct (Nat.lt_ge_cases i (List.length (country df))) as [Hi|Hi].
    + rewrite !(nth_map_in fillna0 _ i nan nan) by (now rewrite group_apply_length).
      f_equal. apply Hlocal; [exact L2 | exact L2'|].
      intros j Hj Hk. now destruct (Hagree j Hj Hk) as (_ & E & _).
    + now rewrite !nth_overflow by (now rewrite length_map, group_apply_length).
Qed.

End FlatGrowth.

(* ================================================================== *)
(** * The pipeline from the frame read to the frame handed to the
      feature engine *)

Section Picked.

Open Scope string_scope.

(** A column picked for one of the four fields is a cleaned header, is
    not the year, and is either the column its own block of the loop
    writes or a column the loop does not write. *)
Lemma picked_alias (cols : list string) (c : string) :
  cri_column cols = Some c \/ losses_column cols = Some c
  \/ gdp_pc_column cols = Some c \/ country_column cols = Some c ->
  In c cols /\ c <> "year".
Proof.
  assert (Hpick : forall options,
            pick_col cols options = Some c -> In c cols /\ In c options).
  { intros options Hc. split; [|exact (pick_col_in _ _ _ Hc)].
    destruct (pick_col_some _ _ _ Hc) as (b & a & _ & Hm & _). now apply mem_In. }
  unfold cri_column, losses_column, gdp_pc_column, country_column.
  intros [Hc|[Hc|[Hc|Hc]]].
  - destruct (Hpick _ Hc) as [Hin Ho]. split; [exact Hin|].
    simpl in Ho. intros ->. intuition discriminate.
  - destruct (Hpick _ Hc) as [Hin Ho]. split; [exact Hin|].
    simpl in Ho. intros ->. intuition discriminate.
  - destruct (Hpick _ Hc) as [Hin Ho]. split; [exact Hin|].
    simpl in Ho. intros ->. intuition discriminate.
  - destruct (mem "country" cols) eqn:Em.
    + injection Hc as <-. split; [now apply mem_In | discriminate].
    + destruct (Hpick _ Hc) as [Hin Ho]. split; [exact Hin|].
      simpl in Ho. intros ->. intuition discriminate.
Qed.

Lemma picked_untouched (cols : list string) (c : string) :
  (cri_column cols = Some c -> c = "cri_score" \/ untouched c)
  /\ (losses_column cols = Some c -> c = "losses_usdm_ppp_total" \/ untouched c)
  /\ (gdp_pc_column cols = Some c -> c = "fatalities_total" \/ untouched c)
  /\ (country_column cols = Some c -> untouched c).
Proof.
  unfold cri_column, losses_column, gdp_pc_column, country_column, untouched.
  split; [|split; [|split]].
  - intros Hc. apply pick_col_in in Hc. simpl in Hc.
    destruct Hc as [<-|[<-|[<-|[]]]];
      [now left | right; repeat split; discriminate ..].
  - intros Hc. apply pick_col_in in Hc. simpl in Hc.
    destruct Hc as [<-|[<-|[]]];
      [now left | right; repeat split; discriminate].
  - intros Hc. apply pick_col_in in Hc. simpl in Hc.
    destruct Hc as [<-|[<-|[]]];
      [now left | right; repeat split; discriminate].
  - destruct (mem "country" cols).
    + intros [= <-]. repeat split; discriminate.
    + intros Hc. apply pick_col_in in Hc. simpl in Hc.
      destruct Hc as [<-|[<-|[]]]; repeat split; discriminate.
Qed.

End Picked.

Section Rows.

Context {F : Type} `{Num F}.

Lemma select_filter {A : Type} (p : A -> bool) (xs : list A) :
  select (map p xs) xs = filter p xs.
Proof.
  induction xs as [|x xs IH]; simpl; [reflexivity|].
  rewrite IH. reflexivity.
Qed.

Lemma filter_flat_map {A B : Type} (p : B -> bool) (f : A -> list B) (l : list A) :
  filter p (flat_map f l) = flat_map (fun x => filter p (f x)) l.
Proof.
  induction l as [|a l IH]; simpl; [reflexivity|].
  now rewrite filter_app, IH.
Qed.

Lemma map_of_flat_map {A B C : Type} (h : B -> C) (f : A -> list B) (l : list A) :
  map h (flat_map f l) = flat_map (fun x => map h (f x)) l.
Proof.
  induction l as [|a l IH]; simpl; [reflexivity|].
  now rewrite map_app, IH.
Qed.

Lemma select_repeat {A B : Type} (p : A -> bool) (c0 : list A) (x : B) :
  select (map p c0) (repeat x (List.length c0))
  = repeat x (List.length (filter p c0)).
Proof.
  induction c0 as [|a c0 IH]; simpl; [reflexivity|].
  destruct (p a); simpl; now rewrite IH.
Qed.

Lemma select_flat_map {A B : Type} (m : A -> list bool) (f : A -> list B) (l : list A) :
  (forall a, List.length (m a) = List.length (f a)) ->
  select (flat_map m l) (flat_map f l) = flat_map (fun a => select (m a) (f a)) l.
Proof.
  intros Hlen. induction l as [|a l IH]; simpl; [reflexivity|].
  now rewrite select_app, IH by apply Hlen.
Qed.

Lemma select_length {A : Type} (mask : list bool) (xs : list A) :
  List.length mask = List.length xs ->
  List.length (select mask xs) = List.length (filter (fun b => b) mask).
Proof.
  revert xs. induction mask as [|b mask IH]; intros [|x xs]; simpl;
    try discriminate; [reflexivity|].
  intros [= Hl]. destruct b; simpl; now rewrite IH.
Qed.

(** [dropna(subset=["country", "year"])] when no year is null. *)
Lemma keep_rows_notna (c y : column F) :
  List.length c = List.length y ->
  Forall (fun x => isna x = false) y ->
  keep_rows c y = map notna c.
Proof.
  unfold keep_rows. revert y.
  induction c as [|a c IH]; intros [|b y]; simpl; try discriminate; [reflexivity|].
  intros [= Hl] Hy. inversion Hy as [|? ? Hb Hy']. subst.
  rewrite Hb, andb_true_r. now rewrite IH.
Qed.

Lemma year_blocks_int (n : nat) (x : cell F) :
  In x (year_blocks n) -> exists z, x = CInt z /\ (2000 <= z <= 2024)%Z.
Proof.
  unfold year_blocks. intros Hx. apply in_flat_map in Hx.
  destruct Hx as (y & Hy & Hx). apply repeat_spec in Hx. subst x.
  exists y. split; [reflexivity|].
  unfold years in Hy. apply in_map_iff in Hy. destruct Hy as (k & <- & Hk).
  apply in_seq in Hk. lia.
Qed.

Lemma year_blocks_length (n : nat) :
  List.length (year_blocks n : column F) = (25 * n)%nat.
Proof.
  unfold year_blocks.
  rewrite (length_flat_map_const _ years n); [now rewrite years_length|].
  intros y _. apply repeat_length.
Qed.

Lemma replicate_length {A : Type} (c : list A) :
  List.length (replicate c) = (25 * List.length c)%nat.
Proof.
  unfold replicate.
  rewrite (length_flat_map_const _ years (List.length c)); [now rewrite years_length|].
  reflexivity.
Qed.

(** [pd.to_numeric] leaves a column without strings as it is. *)
Lemma to_numeric_numeric (p : string -> F) (s : column F) :
  forallb is_number s = true -> map (to_numeric p) s = s.
Proof.
  induction s as [|c s IH]; simpl; [reflexivity|].
  intros Hn. apply andb_true_iff in Hn. destruct Hn as [Hc Hs].
  rewrite IH by exact Hs. destruct c; try reflexivity. discriminate Hc.
Qed.

Lemma year_blocks_numeric (n : nat) : forallb is_number (year_blocks n : column F) = true.
Proof.
  apply forallb_forall. intros x Hx.
  destruct (year_blocks_int n x Hx) as (z & -> & _). reflexivity.
Qed.

End Rows.

(** The frame read is [raw]; its columns have one cell per row.  The
    theorems on [main] are stated for cleaned headers that are distinct:
    for a name that two columns bear pandas hands out a frame, not a
    column, which [lookup] does not model. *)
Section Pipeline.

Context {F : Type} `{Num F} `{!NumFacts F}.

Open Scope string_scope.

Variable raw : frame F.
Hypothesis Hraw : wf_frame raw.

#[local] Abbreviation cleaned := (rename_cols raw).
#[local] Abbreviation cols := (headers (rename_cols raw)).
#[local] Abbreviation dated := (set_scalar (rename_cols raw) "year" (CInt 2024)).
#[local] Abbreviation cri := (cri_column (headers (rename_cols raw))).
#[local] Abbreviation losses := (losses_column (headers (rename_cols raw))).
#[local] Abbreviation gdp := (gdp_pc_column (headers (rename_cols raw))).

Lemma dated_wf : wf_frame dated.
Proof. apply set_scalar_wf, rename_cols_wf, Hraw. Qed.

Lemma picked_lookup (c : string) :
  cri = Some c \/ losses = Some c \/ gdp = Some c \/ country_column cols = Some c ->
  exists s,
    lookup c (columns cleaned) = Some s
    /\ lookup c (columns dated) = Some s
    /\ List.length s = nrows raw.
Proof.
  intros Hc. destruct (picked_alias cols c Hc) as [Hin Hne].
  apply lookup_headers in Hin. destruct Hin as [s Hs].
  exists s. split; [exact Hs | split].
  - unfold set_scalar, set_col. cbn [columns]. now rewrite lookup_assign_other.
  - exact (lookup_wf cleaned c s (rename_cols_wf raw Hraw) Hs).
Qed.

Lemma mapped_numeric_dated :
  mapped_numeric dated cri losses gdp = mapped_numeric cleaned cri losses gdp.
Proof.
  unfold mapped_numeric.
  assert (Hcol : forall col,
            col = cri \/ col = losses \/ col = gdp ->
            column_numeric dated col = column_numeric cleaned col).
  { intros [c|] Hcol; [|reflexivity].
    destruct (picked_lookup c) as (s & Hs & Hs' & _).
    { destruct Hcol as [E|[E|E]]; symmetry in E; auto. }
    now rewrite (column_numeric_some _ c s Hs), (column_numeric_some _ c s Hs'). }
  rewrite !Hcol by auto. reflexivity.
Qed.

(** The expansion either raises TypeError, when a mapped column holds
    a string, or returns a frame. *)
Lemma expand_outcome (g : rng F) :
  (expand dated cri losses gdp g = Err TypeError
   /\ mapped_numeric cleaned cri losses gdp = false)
  \/ ((exists out, expand dated cri losses gdp g = Ok out)
      /\ mapped_numeric cleaned cri losses gdp = true).
Proof.
  assert (Hcols : forall c, cri = Some c \/ losses = Some c \/ gdp = Some c ->
                    exists s, lookup c (columns dated) = Some s).
  { intros c Hc. destruct (picked_lookup c) as (s & _ & Hs & _); [tauto|].
    now exists s. }
  rewrite <- mapped_numeric_dated.
  destruct (simulate_year_outcome dated cri losses gdp 2000%Z g dated_wf
              (picked_names_ok cols) Hcols) as [[Herr Hnum]|[_ Hnum]].
  - left. split; [|exact Hnum].
    unfold expand. change years with (2000%Z :: tl years).
    cbn [simulate]. now rewrite Herr.
  - right. split; [|exact Hnum].
    apply (expand_total raw g). intros c s Hc Hs.
    unfold mapped_numeric in Hnum.
    apply andb_true_iff in Hnum. destruct Hnum as [Hnum N3].
    apply andb_true_iff in Hnum. destruct Hnum as [N1 N2].
    destruct Hc as [Hc|[Hc|Hc]];
      [ rewrite Hc in N1; now rewrite (column_numeric_some _ c s Hs) in N1
      | rewrite Hc in N2; now rewrite (column_numeric_some _ c s Hs) in N2
      | rewrite Hc in N3; now rewrite (column_numeric_some _ c s Hs) in N3 ].
Qed.

Lemma expanded_country (g : rng F) (expanded : frame F) (cc : string) :
  expand dated cri losses gdp g = Ok expanded ->
  country_column cols = Some cc ->
  exists c0,
    lookup cc (columns cleaned) = Some c0
    /\ List.length c0 = nrows raw
    /\ lookup cc (columns expanded) = Some (replicate c0).
Proof.
  intros Hexp Hcc.
  destruct (picked_lookup cc) as (c0 & Hc0 & Hc0' & Hlen); [tauto|].
  exists c0. split; [exact Hc0 | split; [exact Hlen|]].
  apply (expanded_copied dated cri losses gdp g expanded cc c0 dated_wf
           (picked_names_ok cols) Hexp); [|exact Hc0'].
  now apply (picked_untouched cols cc).
Qed.

Lemma expanded_years (g : rng F) (expanded : frame F) :
  expand dated cri losses gdp g = Ok expanded ->
  lookup "year" (columns expanded) = Some (year_blocks (nrows raw)).
Proof.
  intros Hexp.
  exact (expanded_year dated cri losses gdp g expanded dated_wf
           (picked_names_ok cols) Hexp).
Qed.

Lemma standardize_total (p : string -> F) (g : rng F) (expanded : frame F)
  (cc : string) :
  expand dated cri losses gdp g = Ok expanded ->
  country_column cols = Some cc ->
  exists std, standardize p expanded cc cri losses gdp = Ok std.
Proof.
  intros Hexp Hcc.
  destruct (expanded_country g expanded cc Hexp Hcc) as (c0 & _ & _ & Hc).
  unfold standardize, get_col. rewrite Hc, (expanded_years g expanded Hexp).
  simpl. now eexists.
Qed.

(** The three ways [main] ends. *)
Lemma main_cases (p : string -> F) (g : rng F) :
  match country_column cols with
  | None => main p raw g = Err (ValueError (sorted cols))
  | Some _ =>
      if mapped_numeric cleaned cri losses gdp
      then exists out, main p raw g = Ok out
      else main p raw g = Err TypeError
  end.
Proof.
  unfold main. cbv zeta.
  destruct (country_column cols) as [cc|] eqn:Ecc; [|reflexivity].
  destruct (expand_outcome g) as [[-> ->]|[[out Hout] ->]]; [reflexivity|].
  rewrite Hout. simpl.
  destruct (standardize_total p g out cc Hout Ecc) as [std ->].
  simpl. now eexists.
Qed.



(** The frame handed to the feature engine, field by field. *)
Lemma standardized (p : string -> F) (g : rng F) (out : feat_frame F) :
  main p raw g = Ok out ->
  exists cc c0 expanded std,
    country_column cols = Some cc
    /\ lookup cc (columns cleaned) = Some c0
    /\ List.length c0 = nrows raw
    /\ expand dated cri losses gdp g = Ok expanded
    /\ out = compute_features std
    /\ let keep := map notna (replicate c0) in
       let num := fun col =>
         map (fun x => fillna0 (to_float (to_numeric p x))) (select keep col) in
       country std = select keep (replicate c0)
       /\ year std = select keep (year_blocks (nrows raw))
       /\ temperature_anomaly std
          = num (mapped_or p expanded cri
                   (map CNum (row_sums (nrows expanded) (select_number expanded))))
       /\ co2_emission std
          = num (mapped_or p expanded losses (repeat (CNum (lit 0)) (nrows expanded)))
       /\ sea_level_change std
          = num (mapped_or p expanded gdp (repeat (CNum (lit 0)) (nrows expanded))).
Proof.
  intros Hmain.
  destruct (main_inv p raw g out Hmain) as (cc & expanded & std & Hcc & Hexp & Hstd & ->).
  destruct (standardize_inv p _ _ _ _ _ _ Hstd)
    as (c & y & Hc & Hy & Hcountry & Hyear & Ht & He & Hs).
  destruct (expanded_country g expanded cc Hexp Hcc) as (c0 & Hc0 & Hlen & Hc').
  rewrite Hc' in Hc. injection Hc as <-.
  rewrite (expanded_years g expanded Hexp) in Hy. injection Hy as <-.
  rewrite (to_numeric_numeric p _ (year_blocks_numeric (nrows raw))) in *.
  assert (Hkeep : keep_rows (replicate c0) (year_blocks (nrows raw))
                  = map notna (replicate c0)).
  { apply keep_rows_notna.
    - now rewrite replicate_length, year_blocks_length, Hlen.
    - apply Forall_forall. intros x Hx.
      destruct (year_blocks_int _ x Hx) as (z & -> & _). reflexivity. }
  rewrite Hkeep in *.
  exists cc, c0, expanded, std. repeat split; assumption.
Qed.

(** X11. The rows of the processed frame: for each year of 2000..2024
    in turn, the rows of the frame read whose country is not null, in
    their order.  So the frame has 25 rows for each such row, every year
    has as many rows as every other, no country is null and every year is
    an integer of 2000..2024. *)
Theorem main_rows (p : string -> F) (g : rng F) (out : feat_frame F) :
  NoDup cols ->
  main p raw g = Ok out ->
  exists cc c0,
    country_column cols = Some cc
    /\ lookup cc (columns cleaned) = Some c0
    /\ country (base out) = replicate (filter notna c0)
    /\ year (base out) = year_blocks (count_notna c0)
    /\ List.length (country (base out)) = (25 * count_notna c0)%nat
    /\ Forall (fun c => isna c = false) (country (base out))
    /\ Forall (fun c => exists z, c = CInt z /\ (2000 <= z <= 2024)%Z) (year (base out)).
Proof.
  intros _.
  intros Hmain.
  destruct (standardized p g out Hmain)
    as (cc & c0 & expanded & std & Hcc & Hc0 & Hlen & _ & -> & Hcountry & Hyear & _).
  change (base (compute_features std)) with std.
  assert (Ec : country std = replicate (filter notna c0)).
  { rewrite Hcountry, select_filter. apply filter_flat_map. }
  assert (Ey : year std = year_blocks (count_notna c0)).
  { rewrite Hyear. unfold replicate, year_blocks.
    rewrite map_of_flat_map, select_flat_map.
    - apply flat_map_ext. intros y. rewrite <- Hlen. apply select_repeat.
    - intros y. now rewrite length_map, repeat_length. }
  exists cc, c0. repeat split; try assumption.
  - rewrite Ec, replicate_length. reflexivity.
  - rewrite Ec. apply Forall_forall. intros c Hc.
    unfold replicate in Hc. apply in_flat_map in Hc. destruct Hc as (_ & _ & Hc).
    apply filter_In in Hc. destruct Hc as [_ Hc].
    unfold notna in Hc. now apply negb_true_iff.
  - rewrite Ey. apply Forall_forall. intros c Hc. now apply year_blocks_int in Hc.
Qed.

Lemma mapped_or_length (p : string -> F) (df : frame F) (col : option string)
  (default : column F) :
  wf_frame df -> List.length default = nrows df ->
  List.length (mapped_or p df col default) = nrows df.
Proof.
  intros Hwf Hd. unfold mapped_or. destruct col as [c|]; [|exact Hd].
  destruct (lookup c (columns df)) as [s|] eqn:Hs; [|exact Hd].
  rewrite length_map. exact (lookup_wf df c s Hwf Hs).
Qed.

(** X12. The nine columns of the processed frame have one value for
    each of its rows, and the four columns that [fillna(0.0)] ends
    (temperature_anomaly, co2_emission, sea_level_change, co2_growth) hold
    no NaN. *)
Theorem main_columns (p : string -> F) (g : rng F) (out : feat_frame F) :
  NoDup cols ->
  main p raw g = Ok out ->
  let rows := List.length (country (base out)) in
  (List.length (year (base out)) = rows
   /\ List.length (temperature_anomaly (base out)) = rows
   /\ List.length (co2_emission (base out)) = rows
   /\ List.length (sea_level_change (base out)) = rows
   /\ List.length (temp_anomaly_z out) = rows
   /\ List.length (sea_level_z out) = rows
   /\ List.length (co2_growth out) = rows
   /\ List.length (co2_growth_norm out) = rows
   /\ List.length (risk_score out) = rows)
  /\ Forall (fun x => is_nan x = false) (temperature_anomaly (base out))
  /\ Forall (fun x => is_nan x = false) (co2_emission (base out))
  /\ Forall (fun x => is_nan x = false) (sea_level_change (base out))
  /\ Forall (fun x => is_nan x = false) (co2_growth out).
Proof.
  intros _.
  intros Hmain.
  destruct (standardized p g out Hmain)
    as (cc & c0 & expanded & std & _ & _ & Hlen & Hexp & -> & Hc & Hy & Ht & He & Hs).
  change (base (compute_features std)) with std. cbv zeta.
  destruct (expand_spec raw g expanded Hraw Hexp) as (Hrows & Hwf & _).
  assert (Hsel : forall col : column F,
            List.length col = nrows expanded ->
            List.length
              (map (fun x => fillna0 (to_float (to_numeric p x)))
                 (select (map notna (replicate c0)) col))
            = List.length (country std)).
  { intros col Hcol. rewrite length_map, Hc. apply select_length_eq.
    now rewrite Hcol, Hrows, replicate_length, Hlen. }
  assert (Hfill : forall col : column F,
            Forall (fun x => is_nan x = false)
              (map (fun x => fillna0 (to_float (to_numeric p x)))
                 (select (map notna (replicate c0)) col))).
  { intros col. apply Forall_map, Forall_forall. intros x _. apply fillna0_not_nan. }
  split; [|rewrite Ht, He, Hs; repeat split; try apply Hfill; apply co2_growth_not_nan].
  rewrite temp_anomaly_z_length, sea_level_z_length, co2_growth_length,
    co2_growth_norm_length, risk_score_length.
  repeat split.
  - rewrite Hy, Hc. apply select_length_eq.
    now rewrite year_blocks_length, replicate_length, Hlen.
  - rewrite Ht. apply Hsel, mapped_or_length; [exact Hwf|].
    unfold row_sums. now rewrite !length_map, length_seq.
  - rewrite He. apply Hsel, mapped_or_length; [exact Hwf | apply repeat_length].
  - rewrite Hs. apply Hsel, mapped_or_length; [exact Hwf | apply repeat_length].
Qed.

(** Every column mapped to an optional field holds no string in the
    frame of a year. *)
Lemma simulated_mapped_numeric (y : Z) (gy : rng F) (temp : frame F) (gy' : rng F)
  (c : string) :
  simulate_year dated cri losses gdp y gy = Ok (temp, gy') ->
  cri = Some c \/ losses = Some c \/ gdp = Some c ->
  exists v, lookup c (columns temp) = Some v /\ forallb is_number v = true.
Proof.
  intros Hy Hc.
  pose proof (picked_names_ok cols) as Hnames.
  destruct (written_numeric dated cri losses gdp y gy temp gy' dated_wf Hnames Hy)
    as (W1 & W2 & W3).
  destruct (simulate_year_spec dated cri losses gdp y gy temp gy' dated_wf Hnames Hy)
    as (_ & _ & _ & _ & _ & _ & _ & Hother).
  assert (Hnum : mapped_numeric dated cri losses gdp = true).
  { destruct (simulate_year_outcome dated cri losses gdp y gy dated_wf Hnames)
      as [[E _]|[_ E]]; [|congruence | exact E].
    intros c' Hc'. destruct (picked_lookup c') as (s & _ & Hs & _); [tauto|].
    now exists s. }
  destruct (picked_lookup c) as (s & _ & Hs & _); [tauto|].
  unfold mapped_numeric in Hnum.
  apply andb_true_iff in Hnum. destruct Hnum as [Hnum N3].
  apply andb_true_iff in Hnum. destruct Hnum as [N1 N2].
  destruct (picked_untouched cols c) as (U1 & U2 & U3 & _).
  assert (Hcopy : untouched c -> forallb is_number s = true ->
                  exists v, lookup c (columns temp) = Some v
                            /\ forallb is_number v = true).
  { intros (A & B & C & D) Hs'. exists s. split; [|exact Hs'].
    now rewrite (Hother c A B C D). }
  destruct Hc as [Hc|[Hc|Hc]].
  - rewrite Hc, (column_numeric_some _ c s Hs) in N1.
    destruct (U1 Hc) as [->|Hu]; [exact (W1 _ Hc) | now apply Hcopy].
  - rewrite Hc, (column_numeric_some _ c s Hs) in N2.
    destruct (U2 Hc) as [->|Hu]; [exact (W2 _ Hc) | now apply Hcopy].
  - rewrite Hc, (column_numeric_some _ c s Hs) in N3.
    destruct (U3 Hc) as [->|Hu]; [exact (W3 _ Hc) | now apply Hcopy].
Qed.

Lemma expanded_mapped_numeric (g : rng F) (expanded : frame F) (col : option string) :
  expand dated cri losses gdp g = Ok expanded ->
  col = cri \/ col = losses \/ col = gdp ->
  column_numeric expanded col = true.
Proof.
  intros Hexp Hcol. destruct col as [c|]; [|reflexivity].
  destruct (expanded_numeric dated cri losses gdp g expanded c dated_wf
              (picked_names_ok cols) Hexp) as (v & Hv & Hnum).
  { intros y gy temp gy' Hy. apply (simulated_mapped_numeric y gy temp gy' c Hy).
    destruct Hcol as [E|[E|E]]; symmetry in E; auto. }
  now rewrite (column_numeric_some _ c v Hv).
Qed.

(** On a column without strings the parser is not called. *)
Lemma mapped_or_parser (p1 p2 : string -> F) (df : frame F) (col : option string)
  (default : column F) :
  column_numeric df col = true ->
  forallb is_number default = true ->
  mapped_or p1 df col default = mapped_or p2 df col default
  /\ forallb is_number (mapped_or p2 df col default) = true.
Proof.
  unfold column_numeric, mapped_or. intros Hcol Hd.
  destruct col as [c|]; [|now split].
  destruct (lookup c (columns df)) as [s|]; [|now split].
  rewrite !to_numeric_numeric by exact Hcol. now split.
Qed.

Lemma filled_parser (p1 p2 : string -> F) (keep : list bool) (col : column F) :
  forallb is_number col = true ->
  map (fun x => fillna0 (to_float (to_numeric p1 x))) (select keep col)
  = map (fun x => fillna0 (to_float (to_numeric p2 x))) (select keep col).
Proof.
  intros Hcol. apply map_ext_in. intros x Hx.
  assert (Hn : is_number x = true).
  { rewrite forallb_forall in Hcol.
    assert (Hsel : Forall (fun c => is_number c = true) (select keep col))
      by (apply select_Forall, Forall_forall; exact Hcol).
    rewrite Forall_forall in Hsel. exact (Hsel x Hx). }
  destruct x; try reflexivity. discriminate Hn.
Qed.

Lemma row_sums_numeric (n : nat) (columns : list (column F)) :
  forallb is_number (map CNum (row_sums n columns)) = true.
Proof. apply forallb_forall. intros x Hx. apply in_map_iff in Hx. now destruct Hx as (v & <- & _). Qed.

Lemma zeros_numeric (n : nat) : forallb is_number (repeat (CNum (lit 0 : F)) n) = true.
Proof. apply forallb_forall. intros x Hx. apply repeat_spec in Hx. now subst x. Qed.

Lemma standardize_parser (p1 p2 : string -> F) (g : rng F) (expanded : frame F)
  (cc : string) :
  expand dated cri losses gdp g = Ok expanded ->
  standardize p1 expanded cc cri losses gdp = standardize p2 expanded cc cri losses gdp.
Proof.
  intros Hexp. unfold standardize.
  destruct (get_col expanded cc) as [c|e]; simpl; [|reflexivity].
  unfold get_col. rewrite (expanded_years g expanded Hexp). simpl.
  rewrite !(to_numeric_numeric _ _ (year_blocks_numeric (nrows raw))).
  destruct (mapped_or_parser p1 p2 expanded cri
              (map CNum (row_sums (nrows expanded) (select_number expanded)))
              (expanded_mapped_numeric g expanded cri Hexp ltac:(auto))
              (row_sums_numeric _ _)) as [-> N1].
  destruct (mapped_or_parser p1 p2 expanded losses
              (repeat (CNum (lit 0)) (nrows expanded))
              (expanded_mapped_numeric g expanded losses Hexp ltac:(auto))
              (zeros_numeric _)) as [-> N2].
  destruct (mapped_or_parser p1 p2 expanded gdp
              (repeat (CNum (lit 0)) (nrows expanded))
              (expanded_mapped_numeric g expanded gdp Hexp ltac:(auto))
              (zeros_numeric _)) as [-> N3].
  now rewrite (filled_parser p1 p2 _ _ N1), (filled_parser p1 p2 _ _ N2),
    (filled_parser p1 p2 _ _ N3).
Qed.

(** X13. [main] never calls the parser of [pd.to_numeric]: on a frame
    whose columns have one cell per row, the outcome is the same whatever
    the parser makes of a string.  A mapped column that holds a string has
    raised TypeError in the loop of the expansion before [pd.to_numeric]
    sees it, so [errors="coerce"] coerces nothing. *)
Theorem main_never_parses (p1 p2 : string -> F) (g : rng F) :
  NoDup cols ->
  main p1 raw g = main p2 raw g.
Proof.
  intros _.
  unfold main. cbv zeta.
  destruct (country_column cols) as [cc|]; [|reflexivity].
  destruct (expand dated cri losses gdp g) as [expanded|e] eqn:Hexp; [|reflexivity].
  simpl. now rewrite (standardize_parser p1 p2 g expanded cc Hexp).
Qed.

(** A mapped column that the loop does not write reaches the
    standardisation as it was read. *)
Lemma mapped_or_copied (p : string -> F) (g : rng F) (expanded : frame F)
  (c : string) (default : column F) :
  expand dated cri losses gdp g = Ok expanded ->
  cri = Some c \/ losses = Some c \/ gdp = Some c ->
  untouched c ->
  exists s,
    lookup c (columns cleaned) = Some s
    /\ mapped_or p expanded (Some c) default = map (to_numeric p) (replicate s).
Proof.
  intros Hexp Hc Hu.
  destruct (picked_lookup c) as (s & Hs & Hs' & _); [tauto|].
  exists s. split; [exact Hs|].
  unfold mapped_or.
  now rewrite (expanded_copied dated cri losses gdp g expanded c s dated_wf
                 (picked_names_ok cols) Hexp Hu Hs').
Qed.

(** X14. The random variation is written to the columns cri_score,
    losses_usdm_ppp_total and fatalities_total, but the standardisation
    reads the mapped column.  When a field is mapped to another alias than
    the first (climate_risk_index or cri; losses_per_gdp_total;
    fatalities_per_100k_total), the variation never reaches the processed
    frame: the field, and the features computed from it alone, are the
    same whatever the random generator draws.  So are the country and the
    year. *)
Theorem second_alias_unperturbed (p : string -> F) (g g' : rng F)
  (out out' : feat_frame F) :
  NoDup cols ->
  main p raw g = Ok out ->
  main p raw g' = Ok out' ->
  country (base out) = country (base out')
  /\ year (base out) = year (base out')
  /\ (forall c, cri = Some c -> c <> "cri_score" ->
        temperature_anomaly (base out) = temperature_anomaly (base out')
        /\ temp_anomaly_z out = temp_anomaly_z out')
  /\ (forall c, losses = Some c -> c <> "losses_usdm_ppp_total" ->
        co2_emission (base out) = co2_emission (base out')
        /\ co2_growth out = co2_growth out'
        /\ co2_growth_norm out = co2_growth_norm out')
  /\ (forall c, gdp = Some c -> c <> "fatalities_total" ->
        sea_level_change (base out) = sea_level_change (base out')
        /\ sea_level_z out = sea_level_z out').
Proof.
  intros _.
  intros Hmain Hmain'.
  destruct (standardized p g out Hmain)
    as (cc & c0 & expanded & std & Hcc & Hc0 & _ & Hexp & -> & Hc & Hy & Ht & He & Hs).
  destruct (standardized p g' out' Hmain')
    as (cc' & c0' & expanded' & std' & Hcc' & Hc0' & _ & Hexp' & -> & Hc' & Hy' & Ht'
        & He' & Hs').
  rewrite Hcc in Hcc'. injection Hcc' as <-.
  rewrite Hc0 in Hc0'. injection Hc0' as <-.
  change (base (compute_features std)) with std.
  change (base (compute_features std')) with std'.
  assert (Ec : country std = country std') by now rewrite Hc, Hc'.
  split; [exact Ec | split; [now rewrite Hy, Hy' | split; [|split]]]; intros c Hcol Hne.
  - assert (Hu : untouched c)
      by (destruct (picked_untouched cols c) as (U & _); destruct (U Hcol); tauto).
    assert (E : temperature_anomaly std = temperature_anomaly std').
    { rewrite Ht, Ht', Hcol.
      destruct (mapped_or_copied p g expanded c
                  (map CNum (row_sums (nrows expanded) (select_number expanded)))
                  Hexp ltac:(auto) Hu) as (s & Hs1 & ->).
      destruct (mapped_or_copied p g' expanded' c
                  (map CNum (row_sums (nrows expanded') (select_number expanded')))
                  Hexp' ltac:(auto) Hu) as (s' & Hs1' & ->).
      congruence. }
    split; [exact E|].
    change (group_apply (country std) zscore (temperature_anomaly std)
            = group_apply (country std') zscore (temperature_anomaly std')).
    now rewrite Ec, E.
  - assert (Hu : untouched c)
      by (destruct (picked_untouched cols c) as (_ & U & _); destruct (U Hcol); tauto).
    assert (E : co2_emission std = co2_emission std').
    { rewrite He, He', Hcol.
      destruct (mapped_or_copied p g expanded c
                  (repeat (CNum (lit 0)) (nrows expanded))
                  Hexp ltac:(auto) Hu) as (s & Hs1 & ->).
      destruct (mapped_or_copied p g' expanded' c
                  (repeat (CNum (lit 0)) (nrows expanded'))
                  Hexp' ltac:(auto) Hu) as (s' & Hs1' & ->).
      congruence. }
    assert (E' : co2_growth (compute_features std) = co2_growth (compute_features std')).
    { change (map fillna0 (group_apply (country std) pct_change (co2_emission std))
              = map fillna0 (group_apply (country std') pct_change (co2_emission std'))).
      now rewrite Ec, E. }
    split; [exact E | split; [exact E'|]].
    change (rank_pct (co2_growth (compute_features std))
            = rank_pct (co2_growth (compute_features std'))).
    now rewrite E'.
  - assert (Hu : untouched c)
      by (destruct (picked_untouched cols c) as (_ & _ & U & _); destruct (U Hcol); tauto).
    assert (E : sea_level_change std = sea_level_change std').
    { rewrite Hs, Hs', Hcol.
      destruct (mapped_or_copied p g expanded c
                  (repeat (CNum (lit 0)) (nrows expanded))
                  Hexp ltac:(auto) Hu) as (s & Hs1 & ->).
      destruct (mapped_or_copied p g' expanded' c
                  (repeat (CNum (lit 0)) (nrows expanded'))
                  Hexp' ltac:(auto) Hu) as (s' & Hs1' & ->).
      congruence. }
    split; [exact E|].
    change (group_apply (country std) zscore (sea_level_change std)
            = group_apply (country std') zscore (sea_level_change std')).
    now rewrite Ec, E.
Qed.

Lemma select_all {A : Type} (mask : list bool) (xs : list A) :
  Forall (fun b => b = true) mask ->
  List.length mask = List.length xs ->
  select mask xs = xs.
Proof.
  intros Hall. revert xs. induction Hall as [|b mask Hb _ IH]; intros [|x xs]; simpl;
    try discriminate; [reflexivity|].
  intros [= Hl]. subst b. now rewrite IH.
Qed.

Lemma filled_cell (p : string -> F) (keep : list bool) (v : column F) (r : nat)
  (val : F) :
  Forall (fun b => b = true) keep ->
  List.length keep = List.length v ->
  nth_error v r = Some (CNum val) ->
  nth r (map (fun x => fillna0 (to_float (to_numeric p x)))
           (select keep (map (to_numeric p) v))) nan
  = fillna0 val.
Proof.
  intros Hall Hlen Hr.
  rewrite select_all by (try rewrite length_map; assumption).
  apply nth_error_nth. rewrite map_map.
  now rewrite (map_nth_error _ _ _ Hr).
Qed.

Lemma dated_cell (c : string) (i : nat) :
  c <> "year" -> cell_at dated c i = cell_at cleaned c i.
Proof.
  intros Hne. unfold cell_at, set_scalar, set_col. cbn [columns].
  now rewrite lookup_assign_other.
Qed.

(** X15. When no country of the frame read is null, so that no row is
    dropped, a field mapped to the first alias of its list receives the
    random variation: in the row of year number [k] and source row [i],
    temperature_anomaly is the source cri_score times the factor
    [1 + u], [u] the sample of [uniform(-0.3, 0.3)] drawn for that row
    and year, with NaN replaced by 0.0; likewise co2_emission from
    losses_usdm_ppp_total with [uniform(-0.25, 0.25)] and
    sea_level_change from fatalities_total with [uniform(-0.3, 0.3)]. *)
Theorem first_alias_perturbed (p : string -> F) (g : rng F) (out : feat_frame F)
  (cc : string) (c0 : column F) :
  NoDup cols ->
  main p raw g = Ok out ->
  country_column cols = Some cc ->
  lookup cc (columns cleaned) = Some c0 ->
  Forall (fun c => isna c = false) c0 ->
  forall k i, (k < 25)%nat -> (i < nrows raw)%nat ->
    let r := (k * nrows raw + i)%nat in
    let sample := fun d => g (draw_index (nrows raw) losses gdp d k i) in
    (cri = Some "cri_score" ->
     exists x,
       cell_at cleaned "cri_score" i = Some x
       /\ nth r (temperature_anomaly (base out)) nan
          = fillna0 (to_float x * factor (lit (-0.3)) (lit 0.3) (sample ForCri))%num)
    /\ (losses = Some "losses_usdm_ppp_total" ->
        exists x,
          cell_at cleaned "losses_usdm_ppp_total" i = Some x
          /\ nth r (co2_emission (base out)) nan
             = fillna0 (to_float x
                        * factor (lit (-0.25)) (lit 0.25) (sample ForLosses))%num)
    /\ (gdp = Some "fatalities_total" ->
        exists x,
          cell_at cleaned "fatalities_total" i = Some x
          /\ nth r (sea_level_change (base out)) nan
             = fillna0 (to_float x
                        * factor (lit (-0.3)) (lit 0.3) (sample ForFatalities))%num).
Proof.
  intros _.
  intros Hmain Hcc Hc0 Hnotna k i Hk Hi r sample.
  destruct (standardized p g out Hmain)
    as (cc' & c0' & expanded & std & Hcc' & Hc0' & Hlen & Hexp & -> & _ & _ & Ht & He & Hs).
  rewrite Hcc in Hcc'. injection Hcc' as <-.
  rewrite Hc0 in Hc0'. injection Hc0' as <-.
  change (base (compute_features std)) with std.
  destruct (expand_spec raw g expanded Hraw Hexp) as (Hrows & Hwf & Hcells).
  destruct (Hcells k i Hk Hi) as (_ & Hcri & Hloss & Hgdp & _).
  assert (Hall : Forall (fun b => b = true) (map notna (replicate c0))).
  { apply Forall_map, Forall_forall. intros c Hc.
    unfold replicate in Hc. apply in_flat_map in Hc. destruct Hc as (_ & _ & Hc).
    rewrite Forall_forall in Hnotna. unfold notna. now rewrite (Hnotna c Hc). }
  assert (Hkeep : forall name v,
            lookup name (columns expanded) = Some v ->
            List.length (map notna (replicate c0)) = List.length v).
  { intros name v Hv.
    now rewrite length_map, replicate_length, Hlen, (lookup_wf expanded name v Hwf Hv). }
  assert (Hread : forall name val d,
            cell_at expanded name r = Some (CNum val) ->
            nth r (map (fun x => fillna0 (to_float (to_numeric p x)))
                     (select (map notna (replicate c0))
                        (mapped_or p expanded (Some name) d))) nan
            = fillna0 val).
  { intros name val d Hcell. unfold cell_at in Hcell. unfold mapped_or.
    destruct (lookup name (columns expanded)) as [v|] eqn:Hv; [|discriminate].
    apply filled_cell; [exact Hall | exact (Hkeep name v Hv) | exact Hcell]. }
  split; [|split]; intros Hcol.
  - destruct (Hcri _ Hcol) as (x & Hx & Hcell).
    exists x. split; [now rewrite <- dated_cell by discriminate|].
    rewrite Ht, Hcol. exact (Hread _ _ _ Hcell).
  - destruct (Hloss _ Hcol) as (x & Hx & Hcell).
    exists x. split; [now rewrite <- dated_cell by discriminate|].
    rewrite He, Hcol. exact (Hread _ _ _ Hcell).
  - destruct (Hgdp _ Hcol) as (x & Hx & Hcell).
    exists x. split; [now rewrite <- dated_cell by discriminate|].
    rewrite Hs, Hcol. exact (Hread _ _ _ Hcell).
Qed.

(** X16. When no losses column is mapped, co2_emission is 0.0 in every
    row, every growth is 0.0 / 0.0 - 1, which is NaN, and [fillna(0.0)]
    makes co2_growth 0.0 in every row; co2_growth_norm is then the same
    in every row, so that the term 0.3 * co2_growth_norm shifts every
    risk_score by one constant. *)
Theorem unmapped_losses_flat_growth (p : string -> F) (g : rng F) (out : feat_frame F) :
  NoDup cols ->
  is_nan (lit 0 / lit 0 - lit 1)%num = true ->
  main p raw g = Ok out ->
  losses = None ->
  Forall (fun x => x = lit 0) (co2_growth out)
  /\ exists v, Forall (fun x => x = v) (co2_growth_norm out).
Proof.
  intros _.
  intros Hnan Hmain Hnone.
  destruct (standardized p g out Hmain)
    as (cc & c0 & expanded & std & _ & _ & _ & _ & -> & _ & _ & _ & He & _).
  rewrite Hnone in He. simpl mapped_or in He.
  assert (Hzero : Forall (fun x => x = lit 0) (co2_emission std)).
  { rewrite He. apply default_zero. }
  exact (zero_emission_flat_growth std Hnan Hzero).
Qed.

End Pipeline.
(* ================================================================== *)
(** * Exact arithmetic: ranks without ties *)

Section ExactRank.

Import Exact.

Lemma xleb_lt_or_eq (w v : xq) : xleb w v = xltb w v || xeqb w v.
Proof.
  unfold xltb. destruct w as [a| | |], v as [b| | |]; simpl; try reflexivity.
  destruct (Qle_bool a b) eqn:Hle, (Qeq_bool a b) eqn:Heq; try reflexivity.
  apply Qeq_bool_iff in Heq.
  assert (Hle' : Qle_bool a b = true) by (apply Qle_bool_iff; rewrite Heq; apply Qle_refl).
  congruence.
Qed.

Lemma count_if_or (p q : xq -> bool) (xs : list xq) :
  (forall x, p x = true -> q x = false) ->
  count_if (fun x => p x || q x) xs = (count_if p xs + count_if q xs)%nat.
Proof.
  intros Hd. unfold count_if. induction xs as [|x xs IH]; simpl; [reflexivity|].
  pose proof (Hd x) as Hx.
  destruct (p x), (q x); simpl; rewrite IH; try lia; discriminate (Hx eq_refl).
Qed.


End ExactRank.

(* ------------------------------------------------------------------ *)
(** ** The range of the random factors *)

Section ExactFactors.

Import Exact.

Lemma unit_sample (u : xq) :
  fleb (lit 0) u = true -> fltb u (lit 1) = true ->
  exists q, u = Fin q /\ 0 <= q /\ q < 1.
Proof.
  intros H0 H1. destruct u as [q| | |]; try discriminate.
  exists q. split; [reflexivity | split].
  - now apply (ExactLaws.xleb_fin_l 0 q).
  - apply ExactLaws.xltb_Fin in H1. exact H1.
Qed.


End ExactFactors.
(* ================================================================== *)
(** * The samples the expansion draws *)

Section Draws.

Context {F : Type} `{Num F}.

Open Scope string_scope.

(** X20. For each year the loop draws one array of [n] samples for the
    first factor, whether or not a risk-index column is mapped (line 114
    comes before the test of line 115), and one more for each of the
    losses and fatalities columns that is mapped: after the years [ys]
    the generator has advanced by [length ys * n * (1 + mapped)]
    samples, and there is one frame per year. *)
Theorem simulate_draws (df : frame F) (cri losses gdp : option string)
  (ys : list Z) (g : rng F) (sims : list (frame F)) (g' : rng F) :
  wf_frame df ->
  names_ok cri losses gdp ->
  simulate df cri losses gdp ys g = Ok (sims, g') ->
  List.length sims = List.length ys
  /\ forall j,
       g' j = g (List.length ys * draws_per_year (nrows df) losses gdp + j)%nat.
Proof.
  intros Hwf Hnames. revert g sims g'.
  induction ys as [|y ys IH]; intros g sims g'; simpl.
  - intros [= <- <-]. split; reflexivity.
  - destruct (simulate_year df cri losses gdp y g) as [[temp g1]|e] eqn:Hy;
      simpl; [|discriminate].
    destruct (simulate df cri losses gdp ys g1) as [[rest g2]|e] eqn:Hrest;
      simpl; [|discriminate].
    intros [= <- <-].
    destruct (IH _ _ _ Hrest) as [Hlen Hg2].
    destruct (simulate_year_spec df cri losses gdp y g temp g1 Hwf Hnames Hy)
      as (_ & _ & Hg1 & _).
    split; [simpl; now rewrite Hlen|].
    intros j. rewrite Hg2, Hg1. f_equal. lia.
Qed.

End Draws.

(* ================================================================== *)
(** * Instances on the further samples *)

Section FurtherWitnesses.

Open Scope string_scope.

Ltac distinct :=
  vm_compute;
  repeat (apply NoDup_cons; [simpl; intuition discriminate|]); apply NoDup_nil.

Lemma choose_csv_first_witness :
  choose_csv Inputs.listing = Some "Climate-RISK.csv"
  /\ exists p, "Climate-RISK.csv" = p ++ ".csv".
Proof.
  split; [reflexivity|].
  destruct (choose_csv_first Inputs.listing "Climate-RISK.csv" eq_refl)
    as (before & after & _ & Hp & _).
  exact Hp.
Defined.

Lemma pick_col_reads_a_set_witness :
  (forall c, In c ["cri"; "country"; "cri"] <-> In c ["country"; "cri"])
  /\ cri_column ["cri"; "country"; "cri"] = cri_column ["country"; "cri"].
Proof.
  assert (Hset : forall c, In c ["cri"; "country"; "cri"] <-> In c ["country"; "cri"])
    by (intros c; simpl; tauto).
  split; [exact Hset|].
  exact (proj1 (proj2 (proj2 (pick_col_reads_a_set _ _ Hset)))).
Defined.


Lemma main_rows_witness :
  wf_frame Inputs.second_aliases
  /\ NoDup (headers (rename_cols Inputs.second_aliases))
  /\ exists out,
       main Samples.no_parse Inputs.second_aliases Samples.halves = Ok out
       /\ List.length (country (base out)) = 50%nat.
Proof.
  assert (Hwf : wf_frame Inputs.second_aliases) by (repeat constructor).
  assert (Hnd : NoDup (headers (rename_cols Inputs.second_aliases))) by distinct.
  split; [exact Hwf | split; [exact Hnd|]].
  eexists. split; [vm_compute; reflexivity|].
  match goal with
  | |- List.length (country (base ?o)) = _ =>
      assert (Hmain : main Samples.no_parse Inputs.second_aliases Samples.halves = Ok o)
        by (vm_compute; reflexivity);
      pose proof (main_rows Inputs.second_aliases Hwf Samples.no_parse Samples.halves o
                    Hnd Hmain) as Hrows
  end.
  destruct Hrows as (cc & c0 & Hcc & Hc0 & _ & _ & Hlen & _).
  rewrite Hlen.
  vm_compute in Hcc. injection Hcc as <-.
  vm_compute in Hc0. injection Hc0 as <-.
  reflexivity.
Defined.

Lemma main_columns_witness :
  wf_frame Inputs.second_aliases
  /\ NoDup (headers (rename_cols Inputs.second_aliases))
  /\ exists out,
       main Samples.no_parse Inputs.second_aliases Samples.halves = Ok out
       /\ List.length (risk_score out) = List.length (country (base out))
       /\ Forall (fun x => is_nan x = false) (co2_growth out).
Proof.
  assert (Hwf : wf_frame Inputs.second_aliases) by (repeat constructor).
  assert (Hnd : NoDup (headers (rename_cols Inputs.second_aliases))) by distinct.
  split; [exact Hwf | split; [exact Hnd|]].
  eexists. split; [vm_compute; reflexivity|].
  match goal with
  | |- List.length (risk_score ?o) = _ /\ _ =>
      assert (Hmain : main Samples.no_parse Inputs.second_aliases Samples.halves = Ok o)
        by (vm_compute; reflexivity);
      pose proof (main_columns Inputs.second_aliases Hwf Samples.no_parse Samples.halves
                    o Hnd Hmain) as Hcols
  end.
  destruct Hcols as ((_ & _ & _ & _ & _ & _ & _ & _ & Hrisk) & _ & _ & _ & Hgrowth).
  split; [exact Hrisk | exact Hgrowth].
Defined.

Lemma main_never_parses_witness :
  wf_frame Samples.full_file
  /\ NoDup (headers (rename_cols Samples.full_file))
  /\ main Samples.no_parse Samples.full_file Samples.halves
     = main Inputs.parse_one Samples.full_file Samples.halves.
Proof.
  assert (Hwf : wf_frame Samples.full_file) by (repeat constructor).
  assert (Hnd : NoDup (headers (rename_cols Samples.full_file))) by distinct.
  split; [exact Hwf | split; [exact Hnd|]].
  exact (main_never_parses Samples.full_file Hwf Samples.no_parse Inputs.parse_one
           Samples.halves Hnd).
Defined.

Lemma second_alias_unperturbed_witness :
  wf_frame Inputs.second_aliases
  /\ NoDup (headers (rename_cols Inputs.second_aliases))
  /\ exists out out',
       main Samples.no_parse Inputs.second_aliases Samples.halves = Ok out
       /\ main Samples.no_parse Inputs.second_aliases Inputs.quarters = Ok out'
       /\ temperature_anomaly (base out) = temperature_anomaly (base out')
       /\ temp_anomaly_z out = temp_anomaly_z out'.
Proof.
  assert (Hwf : wf_frame Inputs.second_aliases) by (repeat constructor).
  assert (Hnd : NoDup (headers (rename_cols Inputs.second_aliases))) by distinct.
  split; [exact Hwf | split; [exact Hnd|]].
  do 2 eexists. split; [vm_compute; reflexivity | split; [vm_compute; reflexivity|]].
  match goal with
  | |- temperature_anomaly (base ?o) = temperature_anomaly (base ?o') /\ _ =>
      assert (Hmain : main Samples.no_parse Inputs.second_aliases Samples.halves = Ok o)
        by (vm_compute; reflexivity);
      assert (Hmain' : main Samples.no_parse Inputs.second_aliases Inputs.quarters
                       = Ok o')
        by (vm_compute; reflexivity);
      pose proof (second_alias_unperturbed Inputs.second_aliases Hwf Samples.no_parse
                    Samples.halves Inputs.quarters o o' Hnd Hmain Hmain') as Hsame
  end.
  destruct Hsame as (_ & _ & Hcri & _).
  apply (Hcri "climate_risk_index"); [vm_compute; reflexivity | discriminate].
Defined.

Lemma first_alias_perturbed_witness :
  wf_frame Samples.full_file
  /\ NoDup (headers (rename_cols Samples.full_file))
  /\ exists out,
       main Samples.no_parse Samples.full_file Inputs.ramp = Ok out
       /\ exists x,
            cell_at (rename_cols Samples.full_file) "cri_score" 1 = Some x
            /\ nth 3 (temperature_anomaly (base out)) nan
               = fillna0
                   (to_float x
                    * factor (lit (-0.3)) (lit 0.3)
                        (Inputs.ramp
                           (draw_index 2 (Some "losses_usdm_ppp_total")
                              (Some "fatalities_total") ForCri 1 1)))%num.
Proof.
  assert (Hwf : wf_frame Samples.full_file) by (repeat constructor).
  assert (Hnd : NoDup (headers (rename_cols Samples.full_file))) by distinct.
  split; [exact Hwf | split; [exact Hnd|]].
  eexists. split; [vm_compute; reflexivity|].
  assert (Hcc : country_column (headers (rename_cols Samples.full_file))
                = Some "country_name") by (vm_compute; reflexivity).
  assert (Hc0 : lookup "country_name" (columns (rename_cols Samples.full_file))
                = Some [CStr "X"; CStr "Y"]) by (vm_compute; reflexivity).
  assert (Hnotna : Forall (fun c : cell float => isna c = false) [CStr "X"; CStr "Y"])
    by (repeat constructor).
  assert (Hk : (1 < 25)%nat) by lia.
  assert (Hi : (1 < nrows Samples.full_file)%nat) by (simpl; lia).
  assert (Hcol : cri_column (headers (rename_cols Samples.full_file))
                 = Some "cri_score") by (vm_compute; reflexivity).
  match goal with
  | |- exists x, _ /\ nth 3 (temperature_anomaly (base ?o)) _ = _ =>
      assert (Hmain : main Samples.no_parse Samples.full_file Inputs.ramp = Ok o)
        by (vm_compute; reflexivity);
      pose proof (first_alias_perturbed Samples.full_file Hwf Samples.no_parse
                    Inputs.ramp o "country_name" [CStr "X"; CStr "Y"] Hnd Hmain
                    Hcc Hc0 Hnotna 1%nat 1%nat Hk Hi) as Hcells
  end.
  destruct Hcells as (Hcri & _).
  exact (Hcri Hcol).
Defined.

Lemma unmapped_losses_flat_growth_witness :
  wf_frame Samples.only_country
  /\ NoDup (headers (rename_cols Samples.only_country))
  /\ PrimFloat.is_nan
       (PrimFloat.sub (PrimFloat.div (Samples.f64 0) (Samples.f64 0)) (Samples.f64 1))
     = true
  /\ exists out,
       main Samples.no_parse Samples.only_country Samples.halves = Ok out
       /\ Forall (fun x => x = Samples.f64 0) (co2_growth out).
Proof.
  assert (Hwf : wf_frame Samples.only_country) by (repeat constructor).
  assert (Hnd : NoDup (headers (rename_cols Samples.only_country))) by distinct.
  split; [exact Hwf | split; [exact Hnd | split; [reflexivity|]]].
  eexists. split; [vm_compute; reflexivity|].
  assert (Hnan : is_nan (lit 0 / lit 0 - lit 1 : float)%num = true) by reflexivity.
  assert (Hnone : losses_column (headers (rename_cols Samples.only_country)) = None)
    by (vm_compute; reflexivity).
  match goal with
  | |- Forall _ (co2_growth ?o) =>
      assert (Hmain : main Samples.no_parse Samples.only_country Samples.halves = Ok o)
        by (vm_compute; reflexivity);
      exact (proj1 (unmapped_losses_flat_growth Samples.only_country Hwf
                      Samples.no_parse Samples.halves o Hnd Hnan Hmain Hnone))
  end.
Defined.

Lemma country_features_local_witness :
  nth 1 (temp_anomaly_z (compute_features Samples.two_countries)) nan
  = nth 1 (temp_anomaly_z (compute_features Inputs.two_countries_other)) nan
  /\ nth 1 (sea_level_z (compute_features Samples.two_countries)) nan
     = nth 1 (sea_level_z (compute_features Inputs.two_countries_other)) nan
  /\ nth 1 (co2_growth (compute_features Samples.two_countries)) nan
     = nth 1 (co2_growth (compute_features Inputs.two_countries_other)) nan.
Proof.
  apply (country_features_local Samples.two_countries Inputs.two_countries_other 1).
  - reflexivity.
  - repeat split.
  - repeat split.
  - intros j Hj Hk.
    destruct j as [|[|[|[|j]]]]; simpl in Hj; try lia;
      try discriminate Hk; repeat split.
Defined.



Lemma simulate_draws_witness :
  wf_frame (rename_cols Samples.full_file)
  /\ names_ok (Some "cri_score") None None
  /\ exists sims g',
       simulate (rename_cols Samples.full_file) (Some "cri_score") None None
         [2000%Z; 2001%Z] Inputs.ramp = Ok (sims, g')
       /\ List.length sims = 2%nat
       /\ g' 0%nat = Inputs.ramp 4%nat.
Proof.
  assert (Hwf : wf_frame (rename_cols Samples.full_file)) by (repeat constructor).
  assert (Hnames : names_ok (Some "cri_score") None None).
  { unfold names_ok. split; [|split]; intros c Hc; try discriminate Hc.
    injection Hc as <-. discriminate. }
  split; [exact Hwf | split; [exact Hnames|]].
  do 2 eexists. split; [vm_compute; reflexivity|].
  match goal with
  | |- List.length ?s = _ /\ ?f _ = _ =>
      assert (Hsim : simulate (rename_cols Samples.full_file) (Some "cri_score") None
                       None [2000%Z; 2001%Z] Inputs.ramp = Ok (s, f))
        by (vm_compute; reflexivity);
      pose proof (simulate_draws (rename_cols Samples.full_file) (Some "cri_score")
                    None None [2000%Z; 2001%Z] Inputs.ramp s f Hwf Hnames Hsim) as Hd
  end.
  destruct Hd as [Hlen Hg].
  split; [exact Hlen | exact (Hg 0%nat)].
Defined.

End FurtherWitnesses.
